(** * transcribe: chunked transcription orchestration, polling and rendering

    A shallow embedding of the three programs of the repository

    - [Simple]  : [src/main.go], one synchronous multipart call;
    - [Async]   : the upload-then-poll client (first file of
                  [src/unnamed/part_000]);
    - [Chunked] : the chunking orchestrator (second file of
                  [src/unnamed/part_000]);

    together with the functions they share ([formatTimestamp], the
    transcript renderer).  Go's [float64] is modelled by the rationals that
    are binary64 values, every arithmetic operation being the exact operation
    followed by rounding to nearest, ties to even ([Float64.round64]).
    Go strings are byte strings ([string]).  Effects (temporary files, HTTP
    exchanges, external processes, standard output) are threaded through an
    explicit [World]; what the outside world answers is a parameter
    ([Env]). *)

From Stdlib Require Import ZArith QArith Qround Qabs Qpower Qminmax Lia Lqa.
From Stdlib Require Import String Ascii List Bool DecimalString.
From stdpp Require Import base gmap sets list strings.

Open Scope Z_scope.

#[local] Set Warnings "-clear-no-such-hyp".

(* ===================================================================== *)
(** ** Go's float64 *)
(* ===================================================================== *)

Module Float64.

(** [P2 e] is 2^e, also for negative [e]. *)
Definition P2 (e : Z) : Q := Qpower 2 e.

(** Binary logarithm of a positive rational, rounded down:
    [P2 (ilog2 x) <= x < P2 (ilog2 x + 1)]. *)
Definition ilog2 (x : Q) : Z :=
  let k := Z.log2 (Qnum x) - Z.log2 (Zpos (Qden x)) in
  if Qle_bool (P2 k) x then k else k - 1.

(** Exponent of the unit in the last place of the binade of [x]: 53 bits of
    precision, gradual underflow below 2^-1022. *)
Definition fexp (x : Q) : Z := Z.max (ilog2 (Qabs x) - 52) (-1074).

(** Nearest integer, ties to even. *)
Definition rne (y : Q) : Z :=
  let f := Qfloor y in
  match (y - inject_Z f ?= 1 # 2)%Q with
  | Lt => f
  | Gt => f + 1
  | Eq => if Z.even f then f else f + 1
  end.

(** Rounding of an exact result to binary64.  The result is in lowest terms,
    so that equal values are equal terms.  Overflow to infinity is not
    represented: the exponent is unbounded above. *)
Definition round64 (x : Q) : Q :=
  let x := Qred x in
  if Qeq_bool x 0 then 0%Q
  else let e := fexp x in Qred (inject_Z (rne (x / P2 e)) * P2 e).

(** The values of type float64: the fixed points of the rounding. *)
Definition is_float64 (x : Q) : Prop := (round64 x == x)%Q.

Definition fadd (x y : Q) : Q := round64 (x + y).
Definition fmul (x y : Q) : Q := round64 (x * y).
Definition fdiv (x y : Q) : Q := round64 (x / y).

(** [float64(z)] for an integer [z]. *)
Definition of_int (z : Z) : Q := round64 (inject_Z z).

(** Truncation toward zero. *)
Definition trunc (x : Q) : Z := if Qle_bool 0 x then Qfloor x else Qceiling x.

(** [int64(x)], [int(x)]: truncation toward zero.  Go leaves the result
    implementation-defined when the truncated value does not fit in 64 bits;
    amd64 then yields the smallest int64. *)
Definition to_int (x : Q) : Z :=
  let t := trunc x in
  if (- 2 ^ 63 <=? t) && (t <? 2 ^ 63) then t else - 2 ^ 63.

End Float64.

(* ===================================================================== *)
(** ** Strings and formatting *)
(* ===================================================================== *)

Definition LF : ascii := "010"%char.
Definition newline : string := String LF EmptyString.

(** Decimal digits of a natural number. *)
Definition decimal (n : N) : string := NilZero.string_of_uint (N.to_uint n).

(** [fmt.Sprintf("%d", z)]. *)
Definition fmt_d (z : Z) : string :=
  if z <? 0 then "-" +:+ decimal (Z.to_N (- z)) else decimal (Z.to_N z).

(** [fmt.Sprintf("%02d", z)]: width 2, padded with zeros after the sign. *)
Definition fmt_02d (z : Z) : string :=
  if z <? 0 then
    "-" +:+ decimal (Z.to_N (- z))
  else if z <? 10 then "0" +:+ decimal (Z.to_N z)
  else decimal (Z.to_N z).

(** *** strings.TrimSpace

    White space is what [unicode.IsSpace] accepts: the six ASCII characters
    TAB, LF, VT, FF, CR and SPACE, and U+0085, U+00A0, U+1680, U+2000..U+200A,
    U+2028, U+2029, U+202F, U+205F and U+3000, here in their UTF-8
    encodings. *)

Definition byte_is (n : nat) (c : ascii) : bool := Nat.eqb (nat_of_ascii c) n.

Definition byte_in (lo hi : nat) (c : ascii) : bool :=
  Nat.leb lo (nat_of_ascii c) && Nat.leb (nat_of_ascii c) hi.

Definition asciiSpace (c : ascii) : bool :=
  byte_in 9 13 c || byte_is 32 c.

(** Second byte of a two-byte white-space rune with first byte [c0]. *)
Definition space2 (c0 c1 : ascii) : bool :=
  byte_is 194 c0 && (byte_is 133 c1 || byte_is 160 c1).

(** Three-byte white-space runes. *)
Definition space3 (c0 c1 c2 : ascii) : bool :=
  (byte_is 225 c0 && byte_is 154 c1 && byte_is 128 c2)
  || (byte_is 226 c0 && byte_is 128 c1
      && (byte_in 128 138 c2 || byte_in 168 169 c2 || byte_is 175 c2))
  || (byte_is 226 c0 && byte_is 129 c1 && byte_is 159 c2)
  || (byte_is 227 c0 && byte_is 128 c1 && byte_is 128 c2).

(** Removal of the leading white-space runes. *)
Fixpoint TrimLeft (s : string) : string :=
  match s with
  | EmptyString => EmptyString
  | String c0 r0 =>
      if asciiSpace c0 then TrimLeft r0
      else
        match r0 with
        | EmptyString => s
        | String c1 r1 =>
            if space2 c0 c1 then TrimLeft r1
            else
              match r1 with
              | EmptyString => s
              | String c2 r2 => if space3 c0 c1 c2 then TrimLeft r2 else s
              end
        end
  end.

Definition rev_string (s : string) : string :=
  string_of_list_ascii (List.rev (list_ascii_of_string s)).

(** The same on a reversed string: the last rune comes first, its bytes in
    reverse order. *)
Fixpoint TrimLeftRev (s : string) : string :=
  match s with
  | EmptyString => EmptyString
  | String c0 r0 =>
      if asciiSpace c0 then TrimLeftRev r0
      else
        match r0 with
        | EmptyString => s
        | String c1 r1 =>
            if space2 c1 c0 then TrimLeftRev r1
            else
              match r1 with
              | EmptyString => s
              | String c2 r2 => if space3 c2 c1 c0 then TrimLeftRev r2 else s
              end
        end
  end.

Definition TrimRight (s : string) : string :=
  rev_string (TrimLeftRev (rev_string s)).

Definition TrimSpace (s : string) : string := TrimRight (TrimLeft s).

(* ===================================================================== *)
(** ** time.Duration and formatTimestamp *)
(* ===================================================================== *)

Module Duration.

Definition Second : Z := 1000000000.
Definition Minute : Z := 60 * Second.
Definition Hour : Z := 60 * Minute.

(** [func (d Duration) Hours() float64]: the whole hours and the remaining
    nanoseconds are converted separately and added. *)
Definition Hours (d : Z) : Q :=
  let hour := Z.quot d Hour in
  let nsec := Z.rem d Hour in
  Float64.fadd (Float64.of_int hour)
    (Float64.fdiv (Float64.of_int nsec) (inject_Z (60 * 60 * 10 ^ 9))).

Definition Minutes (d : Z) : Q :=
  let min := Z.quot d Minute in
  let nsec := Z.rem d Minute in
  Float64.fadd (Float64.of_int min)
    (Float64.fdiv (Float64.of_int nsec) (inject_Z (60 * 10 ^ 9))).

Definition Seconds (d : Z) : Q :=
  let sec := Z.quot d Second in
  let nsec := Z.rem d Second in
  Float64.fadd (Float64.of_int sec)
    (Float64.fdiv (Float64.of_int nsec) (inject_Z (10 ^ 9))).

End Duration.

(** [formatTimestamp] converts seconds to HH:MM:SS format. *)
Definition formatTimestamp (seconds : Q) : string :=
  let duration :=
    Float64.to_int (Float64.fmul seconds (Float64.of_int Duration.Second)) in
  let hours := Float64.to_int (Duration.Hours duration) in
  let minutes := Z.rem (Float64.to_int (Duration.Minutes duration)) 60 in
  let secs := Z.rem (Float64.to_int (Duration.Seconds duration)) 60 in
  fmt_02d hours +:+ ":" +:+ fmt_02d minutes +:+ ":" +:+ fmt_02d secs.

(* ===================================================================== *)
(** ** Data model *)
(* ===================================================================== *)

(** Types of the two programs that call the synchronous service
    ([Simple], [Chunked]). *)
Module OpenAI.

Definition openAIAPIURL : string := "https://api.openai.com/v1/audio/transcriptions".
Definition model : string := "gpt-4o-transcribe-diarize".

(** [DiarizedSegment] represents a single transcribed segment with speaker
    info. *)
Record DiarizedSegment := {
  Speaker : string;
  Start : Q;
  End : Q;
  Text : string
}.

(** [TranscriptionResponse] represents the API response. *)
Record TranscriptionResponse := {
  RText : string;
  Segments : list DiarizedSegment
}.

End OpenAI.

(** Types of the program that calls the asynchronous service ([Async]). *)
Module AssemblyAI.

Definition assemblyAIBaseURL : string := "https://api.assemblyai.com/v2".

(** [Utterance]: start and end are integers, in milliseconds. *)
Record Utterance := {
  Speaker : string;
  Start : Z;
  End : Z;
  Text : string;
  Confidence : Q
}.

Record TranscriptRequest := {
  AudioURL : string;
  SpeakerLabels : bool
}.

Record TranscriptionResponse := {
  ID : string;
  Status : string;
  RText : string;
  Utterances : list Utterance;
  Error : string
}.

(** The zero value of the struct, what [var transcription
    TranscriptionResponse] declares. *)
Definition zero : TranscriptionResponse :=
  {| ID := ""; Status := ""; RText := ""; Utterances := []; Error := "" |}.

End AssemblyAI.

(* ===================================================================== *)
(** ** The outside world *)
(* ===================================================================== *)

(** A Go [(T, error)] result; an error is its message. *)
Inductive Result (A : Type) : Type :=
| Ok (a : A)
| Err (msg : string).
Arguments Ok {A} a.
Arguments Err {A} msg.

(** The external commands the programs run, by what their arguments say. *)
Inductive Command : Type :=
| FFprobeDuration (audioFile : string)
    (* ffprobe -v error -show_entries format=duration -of ... audioFile *)
| FFmpegToMP3 (videoFile mp3Path : string)
    (* ffmpeg -i videoFile -vn -acodec libmp3lame -q:a 2 mp3Path -y *)
| FFmpegExtract (audioFile : string) (startTime duration : Z) (chunkPath : string).
    (* ffmpeg -i audioFile -ss startTime -t duration -acodec copy chunkPath -y *)

(** Outcome of [cmd.Run()] with the captured output streams. *)
Record ProcResult := {
  run_error : option string;
  proc_stdout : string;
  proc_stderr : string
}.

Inductive Body : Type :=
| BodyNone
| BodyMultipart (filePath : string) (fields : list (string * string))
    (* form file "file" with the bytes of filePath, then the fields *)
| BodyFile (filePath : string)
    (* the bytes of filePath *)
| BodyJSON (request : AssemblyAI.TranscriptRequest).

Record Request := {
  req_method : string;
  req_url : string;
  req_authorization : string;
  req_body : Body
}.

(** Outcome of [client.Do] followed by [io.ReadAll] of the body. *)
Inductive HttpResult : Type :=
| DoFailed (msg : string)
| ReadFailed (StatusCode : Z) (msg : string)
| Response (StatusCode : Z) (body : string).

Inductive Event : Type :=
| EvStdout (text : string)
| EvStat (path : string)
| EvCreateTemp (pattern : string) (created : Result string)
| EvRun (cmd : Command)
| EvRemove (path : string)
| EvOpen (path : string)
| EvHTTP (req : Request)
| EvSleep (seconds : Z)
| EvWriteFile (path content : string).

(** What the environment answers.  Every answer may depend on all that
    happened before (the trace, most recent event first).  The library
    functions whose code is outside the repository are parameters too. *)
Record Env := {
  godotenv_Load : Result unit;
  os_Getenv : string -> string;
  stat_not_exist : list Event -> string -> bool;
  create_temp : list Event -> string -> Result string;
  run_cmd : list Event -> Command -> ProcResult;
  open_file : list Event -> string -> Result unit;
  copy_file : list Event -> string -> Result unit;
  http_do : list Event -> Request -> HttpResult;
  (* http.NewRequest(method, url, body): its error, which is the error of
     url.Parse on the URL *)
  http_NewRequest : string -> string -> Result unit;
  write_file : list Event -> string -> string -> Result unit;
  (* fmt.Sscanf(s, "%f", &duration) *)
  Sscanf_f : string -> Result Q;
  (* strings.TrimSuffix(videoFile, filepath.Ext(videoFile)) *)
  trim_ext : string -> string;
  (* json.Unmarshal into a fresh value *)
  json_openai : string -> Result OpenAI.TranscriptionResponse;
  json_upload : string -> Result string;
  (* json.Unmarshal into an existing value, whose fields absent from the
     document are kept *)
  json_assembly :
    string -> AssemblyAI.TranscriptionResponse ->
    Result AssemblyAI.TranscriptionResponse
}.

(** The files the program has created and not removed, and the trace. *)
Record World := {
  files : gset string;
  trace : list Event
}.

(** Computations: a result or an error, and the world after. *)
Definition M (A : Type) : Type := World -> Result A * World.

Definition ret {A} (a : A) : M A := fun w => (Ok a, w).
Definition fail {A} (msg : string) : M A := fun w => (Err msg, w).
Definition bind {A B} (m : M A) (k : A -> M B) : M B :=
  fun w => match m w with
           | (Ok a, w') => k a w'
           | (Err e, w') => (Err e, w')
           end.

(** [attempt m] never fails: the result or the error of [m] is handed to
    the caller, as [x, err := f()] does. *)
Definition attempt {A} (m : M A) : M (Result A) :=
  fun w => let '(r, w') := m w in (Ok r, w').

(** [defer cleanup] in front of [body]: [cleanup] runs when [body] returns,
    with a result or with an error. *)
Definition defer {A} (cleanup : M unit) (body : M A) : M A :=
  fun w => let '(r, w1) := body w in (r, snd (cleanup w1)).

Declare Scope go_scope.
Delimit Scope go_scope with go.
Notation "x <- m ;; k" := (bind m (fun x => k))
  (at level 100, m at next level, right associativity) : go_scope.
Notation "m ;; k" := (bind m (fun _ => k))
  (at level 100, right associativity) : go_scope.
Open Scope go_scope.

Definition emit (ev : Event) : M unit :=
  fun w => (Ok tt, {| files := files w; trace := ev :: trace w |}).

(** An answer of the environment that depends on the trace. *)
Definition ask {A} (f : list Event -> A) : M A := fun w => (Ok (f (trace w)), w).

Definition Println (text : string) : M unit := emit (EvStdout (text +:+ newline)).
Definition Print (text : string) : M unit := emit (EvStdout text).

(** [os.CreateTemp("", pattern)]: on success the file exists. *)
Definition os_CreateTemp (env : Env) (pattern : string) : M (Result string) :=
  fun w =>
    let r := create_temp env (trace w) pattern in
    (Ok r,
     {| files := match r with
                 | Ok path => {[path]} ∪ files w
                 | Err _ => files w
                 end;
        trace := EvCreateTemp pattern r :: trace w |}).

(** [os.Remove(path)]; the programs ignore its error. *)
Definition os_Remove (path : string) : M unit :=
  fun w => (Ok tt, {| files := files w ∖ {[path]}; trace := EvRemove path :: trace w |}).

(** [for _, chunk := range chunks { os.Remove(chunk) }]. *)
Fixpoint remove_all (chunks : list string) : M unit :=
  match chunks with
  | [] => ret tt
  | chunk :: rest => os_Remove chunk ;; remove_all rest
  end.

(** [cmd.Run()]. *)
Definition exec_Run (env : Env) (cmd : Command) : M ProcResult :=
  r <- ask (fun tr => run_cmd env tr cmd) ;;
  emit (EvRun cmd) ;;
  ret r.

Definition http_Do (env : Env) (req : Request) : M HttpResult :=
  r <- ask (fun tr => http_do env tr req) ;;
  emit (EvHTTP req) ;;
  ret r.

Definition time_Sleep (seconds : Z) : M unit := emit (EvSleep seconds).

(** [os.WriteFile(path, content, 0644)]. *)
Definition os_WriteFile (env : Env) (path content : string) : M unit :=
  r <- ask (fun tr => write_file env tr path content) ;;
  emit (EvWriteFile path content) ;;
  match r with
  | Ok _ => ret tt
  | Err e => fail e
  end.

(* ===================================================================== *)
(** ** The transcript renderer *)
(* ===================================================================== *)

Module Renderer.
Import OpenAI.

(** State of the loop of [saveTranscription]: the builder and the speaker of
    the block that is open. *)
Record RenderState := {
  output : string;
  currentSpeaker : string
}.

(** The speaker label, ["Unknown"] when blank. *)
Definition speakerOf (segment : DiarizedSegment) : string :=
  if String.eqb (Speaker segment) "" then "Unknown" else Speaker segment.

(** [fmt.Sprintf("[%s - %s] ", startTime, endTime)]. *)
Definition stamp (segment : DiarizedSegment) : string :=
  "[" +:+ formatTimestamp (Start segment) +:+ " - "
      +:+ formatTimestamp (End segment) +:+ "] ".

(** One iteration of the loop over the segments.  [title] is what the header
    prints before the speaker: nothing for the synchronous service,
    ["Speaker "] for the asynchronous one. *)
Definition renderSegment (title : string) (st : RenderState)
    (segment : DiarizedSegment) : RenderState :=
  let speaker := speakerOf segment in
  let st1 :=
    if negb (String.eqb speaker (currentSpeaker st)) then
      let out :=
        if negb (String.eqb (currentSpeaker st) "")
        then output st +:+ newline
        else output st in
      {| output := out +:+ (stamp segment +:+ title +:+ speaker +:+ ":" +:+ newline);
         currentSpeaker := speaker |}
    else
      {| output := output st +:+ stamp segment;
         currentSpeaker := currentSpeaker st |} in
  {| output := output st1 +:+ (TrimSpace (Text segment) +:+ newline);
     currentSpeaker := currentSpeaker st1 |}.

Definition renderLoop (title : string) (st : RenderState)
    (segments : list DiarizedSegment) : RenderState :=
  fold_left (renderSegment title) segments st.

(** The text [saveTranscription] writes. *)
Definition render (title : string) (text : string)
    (segments : list DiarizedSegment) : string :=
  if (0 <? Z.of_nat (length segments)) then
    output (renderLoop title {| output := ""; currentSpeaker := "" |} segments)
  else
    text +:+ newline.

End Renderer.

(* ===================================================================== *)
(** ** Functions shared by the programs *)
(* ===================================================================== *)

(** [convertToMP3] converts a video file to MP3 format using FFmpeg. *)
Definition convertToMP3 (env : Env) (videoFile : string) : M string :=
  missing <- ask (fun tr => stat_not_exist env tr videoFile) ;;
  emit (EvStat videoFile) ;;
  if (missing : bool) then fail ("video file does not exist: " +:+ videoFile)
  else
    tmp <- os_CreateTemp env "transcribe-*.mp3" ;;
    match tmp with
    | Err e => fail ("failed to create temp file: " +:+ e)
    | Ok mp3Path =>
        r <- exec_Run env (FFmpegToMP3 videoFile mp3Path) ;;
        match run_error r with
        | Some e =>
            os_Remove mp3Path ;;
            fail ("ffmpeg failed: " +:+ e +:+ newline +:+ "Output: " +:+ proc_stderr r)
        | None => ret mp3Path
        end
    end.

(** [transcribeAudio] of the synchronous service: one multipart POST.  The
    two programs differ by the form fields only.  Writing the form into a
    memory buffer and building the request from constants cannot fail. *)
Definition transcribeAudioWith (fields : list (string * string))
    (env : Env) (audioFile apiKey : string) : M OpenAI.TranscriptionResponse :=
  opened <- ask (fun tr => open_file env tr audioFile) ;;
  emit (EvOpen audioFile) ;;
  match opened with
  | Err e => fail ("failed to open audio file: " +:+ e)
  | Ok _ =>
      copied <- ask (fun tr => copy_file env tr audioFile) ;;
      match copied with
      | Err e => fail ("failed to copy file: " +:+ e)
      | Ok _ =>
          resp <- http_Do env
                    {| req_method := "POST";
                       req_url := OpenAI.openAIAPIURL;
                       req_authorization := "Bearer " +:+ apiKey;
                       req_body := BodyMultipart audioFile fields |} ;;
          match resp with
          | DoFailed e => fail ("failed to send request: " +:+ e)
          | ReadFailed _ e => fail ("failed to read response: " +:+ e)
          | Response StatusCode body =>
              if negb (StatusCode =? 200) then
                fail ("API request failed with status " +:+ fmt_d StatusCode
                        +:+ ": " +:+ body)
              else
                match json_openai env body with
                | Err e => fail ("failed to parse response: " +:+ e)
                | Ok transcription => ret transcription
                end
          end
      end
  end.

(** What [main] does with a failure: print one line, [os.Exit(1)]. *)
Definition orExit {A} (what : string) (m : M A) : M A :=
  fun w => match m w with
           | (Ok a, w') => (Ok a, w')
           | (Err e, w') => (Err (what +:+ e +:+ newline), w')
           end.

(** The process: the exit code and the world it leaves.  A failure has been
    turned into the line to print by [orExit]; deferred calls of [main] are
    not run by [os.Exit]. *)
Definition process (body : M unit) : World -> Z * World :=
  fun w => match body w with
           | (Ok _, w') => (0, w')
           | (Err line, w') => (1, snd (Print line w'))
           end.

(* ===================================================================== *)
(** ** [src/main.go]: one synchronous call *)
(* ===================================================================== *)

Module Simple.
Import OpenAI.

Definition transcribeAudio : Env -> string -> string -> M TranscriptionResponse :=
  transcribeAudioWith
    [("model", model); ("response_format", "verbose_json");
     ("timestamp_granularities[]", "segment")].

Definition renderTranscription (transcription : TranscriptionResponse) : string :=
  Renderer.render "" (RText transcription) (Segments transcription).

(** [saveTranscription] saves the transcription to a text file with speaker
    labels and timestamps. *)
Definition saveTranscription (env : Env) (filename : string)
    (transcription : TranscriptionResponse) : M unit :=
  os_WriteFile env filename (renderTranscription transcription).

Definition main (env : Env) (args : list string) : World -> Z * World :=
  match args with
  | _ :: videoFile :: _ =>
      process (
        orExit "Error loading .env file: "
          (match godotenv_Load env with Ok _ => ret tt | Err e => fail e end) ;;
        Println "Converting video to MP3..." ;;
        mp3File <- orExit "Error converting video: " (convertToMP3 env videoFile) ;;
        Println "Transcribing audio with speaker diarization..." ;;
        transcription <-
          orExit "Error transcribing audio: "
            (transcribeAudio env mp3File (os_Getenv env "OPENAI_API_KEY")) ;;
        let outputFile := trim_ext env videoFile +:+ ".txt" in
        orExit "Error saving transcription: "
          (saveTranscription env outputFile transcription) ;;
        Print ("Transcription saved to: " +:+ outputFile +:+ newline) ;;
        os_Remove mp3File)
  | _ => process (fail ("Usage: transcribe <video-file>" +:+ newline))
  end.

End Simple.

(* ===================================================================== *)
(** ** The asynchronous client: upload, submit, poll *)
(* ===================================================================== *)

Module Async.
Import AssemblyAI.

(** [uploadAudio] uploads an audio file and returns the upload URL. *)
Definition uploadAudio (env : Env) (audioFile apiKey : string) : M string :=
  opened <- ask (fun tr => open_file env tr audioFile) ;;
  emit (EvOpen audioFile) ;;
  match opened with
  | Err e => fail ("failed to open audio file: " +:+ e)
  | Ok _ =>
      resp <- http_Do env
                {| req_method := "POST";
                   req_url := assemblyAIBaseURL +:+ "/upload";
                   req_authorization := apiKey;
                   req_body := BodyFile audioFile |} ;;
      match resp with
      | DoFailed e => fail ("failed to send request: " +:+ e)
      | ReadFailed _ e => fail ("failed to read response: " +:+ e)
      | Response StatusCode body =>
          if negb (StatusCode =? 200) then
            fail ("upload failed with status " +:+ fmt_d StatusCode +:+ ": " +:+ body)
          else
            match json_upload env body with
            | Err e => fail ("failed to parse response: " +:+ e)
            | Ok UploadURL => ret UploadURL
            end
      end
  end.

(** What one turn of the polling loop decides. *)
Inductive PollStep : Type :=
| Done (transcription : TranscriptionResponse)
| Wait (transcription : TranscriptionResponse).

(** One turn of [for { ... }]: build the GET request of the job, send it,
    decode the answer into the variable [transcription], switch on its
    status.  The URL holds the id the service gave, so building the request
    can fail. *)
Definition pollOnce (env : Env) (apiKey pollingURL : string)
    (transcription : TranscriptionResponse) : M PollStep :=
  match http_NewRequest env "GET" pollingURL with
  | Err e => fail ("failed to create polling request: " +:+ e)
  | Ok _ =>
      resp <- http_Do env
                {| req_method := "GET";
                   req_url := pollingURL;
                   req_authorization := apiKey;
                   req_body := BodyNone |} ;;
      match resp with
      | DoFailed e => fail ("failed to poll: " +:+ e)
      | ReadFailed _ e => fail ("failed to read polling response: " +:+ e)
      | Response _ body =>
          match json_assembly env body transcription with
          | Err e => fail ("failed to parse polling response: " +:+ e)
          | Ok transcription =>
              if String.eqb (Status transcription) "completed" then
                ret (Done transcription)
              else if String.eqb (Status transcription) "error" then
                fail ("transcription failed: " +:+ Error transcription)
              else if String.eqb (Status transcription) "queued"
                      || String.eqb (Status transcription) "processing" then
                Print ("Status: " +:+ Status transcription +:+ "... waiting" +:+ newline) ;;
                time_Sleep 3 ;;
                ret (Wait transcription)
              else
                fail ("unexpected status: " +:+ Status transcription)
          end
      end
  end.

(** The loop has no bound in the source.  [polls] bounds the number of turns
    that are followed: [None] says the loop is still waiting after them. *)
Fixpoint pollLoop (env : Env) (apiKey pollingURL : string) (polls : nat)
    (transcription : TranscriptionResponse) : M (option TranscriptionResponse) :=
  match polls with
  | O => ret None
  | S polls' =>
      step <- pollOnce env apiKey pollingURL transcription ;;
      match step with
      | Done transcription => ret (Some transcription)
      | Wait transcription => pollLoop env apiKey pollingURL polls' transcription
      end
  end.

(** [transcribeAudio] submits audio for transcription and polls until
    complete. *)
Definition transcribeAudio (env : Env) (polls : nat) (audioURL apiKey : string)
    : M (option TranscriptionResponse) :=
  resp <- http_Do env
            {| req_method := "POST";
               req_url := assemblyAIBaseURL +:+ "/transcript";
               req_authorization := apiKey;
               req_body := BodyJSON {| AudioURL := audioURL; SpeakerLabels := true |} |} ;;
  match resp with
  | DoFailed e => fail ("failed to send request: " +:+ e)
  | ReadFailed _ e => fail ("failed to read response: " +:+ e)
  | Response StatusCode body =>
      if negb (StatusCode =? 200) then
        fail ("transcription request failed with status " +:+ fmt_d StatusCode
                +:+ ": " +:+ body)
      else
        match json_assembly env body zero with
        | Err e => fail ("failed to parse response: " +:+ e)
        | Ok transcription =>
            let transcriptID := ID transcription in
            let pollingURL := assemblyAIBaseURL +:+ "/transcript/" +:+ transcriptID in
            pollLoop env apiKey pollingURL polls transcription
        end
  end.

(** An utterance seen as a segment in seconds:
    [float64(utterance.Start) / 1000.0]. *)
Definition utteranceSegment (utterance : Utterance) : OpenAI.DiarizedSegment :=
  {| OpenAI.Speaker := Speaker utterance;
     OpenAI.Start := Float64.fdiv (Float64.of_int (Start utterance)) (inject_Z 1000);
     OpenAI.End := Float64.fdiv (Float64.of_int (End utterance)) (inject_Z 1000);
     OpenAI.Text := Text utterance |}.

Definition renderTranscription (transcription : TranscriptionResponse) : string :=
  Renderer.render "Speaker " (RText transcription)
    (map utteranceSegment (Utterances transcription)).

Definition saveTranscription (env : Env) (filename : string)
    (transcription : TranscriptionResponse) : M unit :=
  os_WriteFile env filename (renderTranscription transcription).

(** [main]; a run that is still polling after [polls] turns has no exit code
    yet. *)
Definition main (env : Env) (polls : nat) (args : list string)
    : World -> option Z * World :=
  fun w =>
  match args with
  | _ :: videoFile :: _ =>
      let body : M (option unit) :=
        orExit "Error loading .env file: "
          (match godotenv_Load env with Ok _ => ret tt | Err e => fail e end) ;;
        let apiKey := os_Getenv env "ASSEMBLYAI_API_KEY" in
        if String.eqb apiKey "" then
          fail ("Error: ASSEMBLYAI_API_KEY not found in .env" +:+ newline)
        else
          Println "Converting video to MP3..." ;;
          mp3File <- orExit "Error converting video: " (convertToMP3 env videoFile) ;;
          Println "Uploading audio file..." ;;
          uploadURL <- orExit "Error uploading audio: " (uploadAudio env mp3File apiKey) ;;
          Println "Transcribing audio with speaker diarization..." ;;
          polled <- orExit "Error transcribing audio: "
                      (transcribeAudio env polls uploadURL apiKey) ;;
          match polled with
          | None => ret None
          | Some transcription =>
              let outputFile := trim_ext env videoFile +:+ ".txt" in
              orExit "Error saving transcription: "
                (saveTranscription env outputFile transcription) ;;
              Print ("Transcription saved to: " +:+ outputFile +:+ newline) ;;
              os_Remove mp3File ;;
              ret (Some tt)
          end in
      match body w with
      | (Ok (Some _), w') => (Some 0, w')
      | (Ok None, w') => (None, w')
      | (Err line, w') => (Some 1, snd (Print line w'))
      end
  | _ =>
      (Some 1, snd (Print ("Usage: transcribe <video-file>" +:+ newline) w))
  end.

End Async.

(* ===================================================================== *)
(** ** The chunking orchestrator *)
(* ===================================================================== *)

Module Chunked.
Import OpenAI.

(** Maximum duration in seconds for the diarization model. *)
Definition maxDuration : Z := 1400.
(** Split into 20-minute chunks to stay under the limit. *)
Definition chunkDuration : Z := 1200.

Definition transcribeAudio : Env -> string -> string -> M TranscriptionResponse :=
  transcribeAudioWith
    [("model", model); ("response_format", "diarized_json");
     ("chunking_strategy", "auto")].

(** [getAudioDuration] returns the duration of an audio file in seconds. *)
Definition getAudioDuration (env : Env) (audioFile : string) : M Q :=
  r <- exec_Run env (FFprobeDuration audioFile) ;;
  match run_error r with
  | Some e => fail ("ffprobe failed: " +:+ e)
  | None =>
      match Sscanf_f env (TrimSpace (proc_stdout r)) with
      | Err e => fail ("failed to parse duration: " +:+ e)
      | Ok duration => ret duration
      end
  end.

(** [numChunks := int(duration)/chunkDuration + 1]. *)
Definition numChunksOf (duration : Q) (chunkDuration : Z) : Z :=
  Z.quot (Float64.to_int duration) chunkDuration + 1.

(** The loop [for i := 0; i < numChunks; i++] of [splitAudioIntoChunks], with
    [todo] turns left, at index [i]. *)
Fixpoint splitLoop (env : Env) (audioFile : string) (chunkDuration : Z)
    (todo : nat) (i : Z) (chunks : list string) : M (list string) :=
  match todo with
  | O => ret chunks
  | S todo' =>
      let startTime := i * chunkDuration in
      tmp <- os_CreateTemp env ("chunk-" +:+ fmt_d i +:+ "-*.mp3") ;;
      match tmp with
      | Err e =>
          remove_all chunks ;;
          fail ("failed to create temp chunk file: " +:+ e)
      | Ok chunkPath =>
          r <- exec_Run env (FFmpegExtract audioFile startTime chunkDuration chunkPath) ;;
          match run_error r with
          | Some e =>
              os_Remove chunkPath ;;
              remove_all chunks ;;
              fail ("ffmpeg chunk extraction failed: " +:+ e +:+ newline
                      +:+ "Output: " +:+ proc_stderr r)
          | None =>
              splitLoop env audioFile chunkDuration todo' (i + 1) (chunks ++ [chunkPath])
          end
      end
  end.

(** The chunks of a file whose duration has been measured. *)
Definition splitChunks (env : Env) (audioFile : string) (chunkDuration : Z)
    (duration : Q) : M (list string) :=
  let numChunks := numChunksOf duration chunkDuration in
  splitLoop env audioFile chunkDuration (Z.to_nat numChunks) 0 [].

(** [splitAudioIntoChunks] splits an audio file into chunks of specified
    duration using FFmpeg.  (It is called with [chunkDuration = 1200] only;
    a zero [chunkDuration] would be a division by zero.) *)
Definition splitAudioIntoChunks (env : Env) (audioFile : string)
    (chunkDuration : Z) : M (list string) :=
  duration <- getAudioDuration env audioFile ;;
  splitChunks env audioFile chunkDuration duration.

(** The variables of the merging loop.  [chunkSegments] is the slice
    [transcription.Segments] of the chunk at hand. *)
Record MergeState := {
  chunkSegments : list DiarizedSegment;
  allSegments : list DiarizedSegment;
  fullText : string;
  timeOffset : Q
}.

(** [for _, segment := range transcription.Segments]: turn [j] copies element
    [j] into the variable [segment], adds the offset to the copy and appends
    the copy. *)
Definition shiftTurn (st : MergeState) (j : nat) : MergeState :=
  match chunkSegments st !! j with
  | None => st
  | Some segment =>
      let segment :=
        {| Speaker := Speaker segment;
           Start := Float64.fadd (Start segment) (timeOffset st);
           End := Float64.fadd (End segment) (timeOffset st);
           Text := Text segment |} in
      {| chunkSegments := chunkSegments st;
         allSegments := allSegments st ++ [segment];
         fullText := fullText st;
         timeOffset := timeOffset st |}
  end.

(** The body of the loop over the chunks, once the chunk is transcribed. *)
Definition mergeChunk (st : MergeState) (transcription : TranscriptionResponse)
    : MergeState :=
  let st := {| chunkSegments := Segments transcription;
               allSegments := allSegments st;
               fullText := fullText st;
               timeOffset := timeOffset st |} in
  let st := fold_left shiftTurn (seq 0 (length (Segments transcription))) st in
  let text :=
    if negb (String.eqb (RText transcription) "")
    then fullText st +:+ (RText transcription +:+ " ")
    else fullText st in
  {| chunkSegments := chunkSegments st;
     allSegments := allSegments st;
     fullText := text;
     timeOffset := Float64.fadd (timeOffset st) (Float64.of_int chunkDuration) |}.

(** [for i, chunk := range chunks]. *)
Fixpoint transcribeLoop (env : Env) (apiKey : string) (total : nat) (i : Z)
    (chunks : list string) (st : MergeState) : M MergeState :=
  match chunks with
  | [] => ret st
  | chunk :: rest =>
      Print ("Transcribing chunk " +:+ fmt_d (i + 1) +:+ "/"
               +:+ fmt_d (Z.of_nat total) +:+ "..." +:+ newline) ;;
      r <- attempt (transcribeAudio env chunk apiKey) ;;
      match r with
      | Err e => fail ("failed to transcribe chunk " +:+ fmt_d i +:+ ": " +:+ e)
      | Ok transcription =>
          transcribeLoop env apiKey total (i + 1) rest (mergeChunk st transcription)
      end
  end.

(** [transcribeAudioInChunks] splits audio and transcribes each chunk,
    combining results. *)
Definition transcribeAudioInChunks (env : Env) (audioFile apiKey : string)
    (duration : Q) : M TranscriptionResponse :=
  chunks <- splitAudioIntoChunks env audioFile chunkDuration ;;
  defer (remove_all chunks) (
    Print ("Split into " +:+ fmt_d (Z.of_nat (length chunks)) +:+ " chunks" +:+ newline) ;;
    st <- transcribeLoop env apiKey (length chunks) 0 chunks
            {| chunkSegments := []; allSegments := [];
               fullText := ""; timeOffset := 0 |} ;;
    ret {| RText := TrimSpace (fullText st); Segments := allSegments st |}).

Definition renderTranscription (transcription : TranscriptionResponse) : string :=
  Renderer.render "" (RText transcription) (Segments transcription).

Definition saveTranscription (env : Env) (filename : string)
    (transcription : TranscriptionResponse) : M unit :=
  os_WriteFile env filename (renderTranscription transcription).

(** [fmt.Sprintf("%.0f", x)]: the nearest integer, ties to even. *)
Definition fmt_f0 (x : Q) : string := fmt_d (Float64.rne x).

(** Lines 382-398 of [main]: one call, or the chunks. *)
Definition transcribeByDuration (env : Env) (mp3File apiKey : string)
    (duration : Q) : M TranscriptionResponse :=
  if Qle_bool duration (inject_Z maxDuration) then
    Println "Transcribing audio with speaker diarization..." ;;
    transcribeAudio env mp3File apiKey
  else
    Print ("Audio is " +:+ fmt_f0 duration +:+ " seconds, splitting into chunks..."
             +:+ newline) ;;
    transcribeAudioInChunks env mp3File apiKey duration.

Definition main (env : Env) (args : list string) : World -> Z * World :=
  match args with
  | _ :: videoFile :: _ =>
      process (
        orExit "Error loading .env file: "
          (match godotenv_Load env with Ok _ => ret tt | Err e => fail e end) ;;
        Println "Converting video to MP3..." ;;
        mp3File <- orExit "Error converting video: " (convertToMP3 env videoFile) ;;
        duration <- orExit "Error getting audio duration: "
                      (getAudioDuration env mp3File) ;;
        let apiKey := os_Getenv env "OPENAI_API_KEY" in
        transcription <-
          orExit "Error transcribing audio: "
            (transcribeByDuration env mp3File apiKey duration) ;;
        let outputFile := trim_ext env videoFile +:+ ".txt" in
        orExit "Error saving transcription: "
          (saveTranscription env outputFile transcription) ;;
        Print ("Transcription saved to: " +:+ outputFile +:+ newline) ;;
        os_Remove mp3File)
  | _ => process (fail ("Usage: transcribe <video-file>" +:+ newline))
  end.

End Chunked.

(* ===================================================================== *)
(** * Properties *)
(* ===================================================================== *)

(** ** Strings *)

Lemma append_nil_l (b : string) : "" +:+ b = b.
Proof. reflexivity. Qed.

Lemma append_cons (c : ascii) (a b : string) :
  String c a +:+ b = String c (a +:+ b).
Proof. reflexivity. Qed.

Lemma append_assoc (a b c : string) : (a +:+ b) +:+ c = a +:+ (b +:+ c).
Proof.
  induction a as [|x a IH]; [reflexivity |].
  now rewrite !append_cons, IH.
Qed.

Lemma append_empty_r (a : string) : a +:+ "" = a.
Proof.
  induction a as [|x a IH]; [reflexivity |].
  now rewrite append_cons, IH.
Qed.

Lemma list_ascii_of_append (a b : string) :
  list_ascii_of_string (a +:+ b) = list_ascii_of_string a ++ list_ascii_of_string b.
Proof.
  induction a as [|x a IH]; [reflexivity |].
  rewrite append_cons. simpl. now rewrite IH.
Qed.

Lemma string_of_list_app (l k : list ascii) :
  string_of_list_ascii (l ++ k) = string_of_list_ascii l +:+ string_of_list_ascii k.
Proof.
  induction l as [|x l IH]; [reflexivity |].
  simpl. now rewrite append_cons, IH.
Qed.

Lemma rev_string_append (a b : string) :
  rev_string (a +:+ b) = rev_string b +:+ rev_string a.
Proof.
  unfold rev_string.
  now rewrite list_ascii_of_append, rev_app_distr, string_of_list_app.
Qed.

Lemma rev_string_involutive (s : string) : rev_string (rev_string s) = s.
Proof.
  unfold rev_string.
  rewrite list_ascii_of_string_of_list_ascii, rev_involutive.
  apply string_of_list_ascii_of_string.
Qed.

Lemma rev_string_single (c : ascii) :
  rev_string (String c EmptyString) = String c EmptyString.
Proof. reflexivity. Qed.

(** Number of line feeds at the end of a text. *)
Fixpoint leading (c : ascii) (s : string) : nat :=
  match s with
  | EmptyString => O
  | String c' r => if Ascii.eqb c' c then S (leading c r) else O
  end.

Definition trailing_newlines (s : string) : nat := leading LF (rev_string s).

Lemma trailing_newlines_snoc (s : string) :
  trailing_newlines (s +:+ newline) = S (trailing_newlines s).
Proof.
  unfold trailing_newlines, newline.
  now rewrite rev_string_append, rev_string_single.
Qed.

(** *** TrimSpace *)

(** Induction following the recursion of [TrimLeft] and [TrimLeftRev]: one,
    two or three bytes are dropped at a time. *)
Lemma string_ind3 (P : string -> Prop) :
  P EmptyString ->
  (forall c0 r0,
      P r0 ->
      (forall c1 r1, r0 = String c1 r1 -> P r1) ->
      (forall c1 c2 r2, r0 = String c1 (String c2 r2) -> P r2) ->
      P (String c0 r0)) ->
  forall s, P s.
Proof.
  intros H0 Hstep.
  assert (H : forall s, P s /\
                        (forall c1 r1, s = String c1 r1 -> P r1) /\
                        (forall c1 c2 r2, s = String c1 (String c2 r2) -> P r2)).
  { induction s as [|c s (IH1 & IH2 & IH3)].
    - split; [assumption | split; intros; discriminate].
    - split; [apply Hstep; assumption |].
      split.
      + intros c1 r1 [= -> ->]. assumption.
      + intros c1 c2 r2 [= -> E]. eapply IH2. exact E. }
  intros s. apply H.
Qed.

(** What is left by the right trimming does not start, read backwards, with
    an ASCII white-space character. *)
Lemma TrimLeftRev_head (s : string) c r :
  TrimLeftRev s = String c r -> asciiSpace c = false.
Proof.
  revert c r. induction s as [|c0 r0 IH0 IH1 IH2] using string_ind3; intros c r.
  - discriminate.
  - simpl. destruct (asciiSpace c0) eqn:Hc0; [apply IH0 |].
    destruct r0 as [|c1 r1]; [intros [= <- <-]; exact Hc0 |].
    destruct (space2 c1 c0); [apply (IH1 c1 r1 eq_refl) |].
    destruct r1 as [|c2 r2]; [intros [= <- <-]; exact Hc0 |].
    destruct (space3 c2 c1 c0); [apply (IH2 c1 c2 r2 eq_refl) |].
    intros [= <- <-]; exact Hc0.
Qed.

(** A trimmed text does not end with a line feed. *)
Lemma TrimSpace_no_trailing_newline (s : string) :
  trailing_newlines (TrimSpace s) = O.
Proof.
  unfold trailing_newlines, TrimSpace, TrimRight.
  rewrite rev_string_involutive.
  destruct (TrimLeftRev (rev_string (TrimLeft s))) as [|c r] eqn:E; [reflexivity |].
  apply TrimLeftRev_head in E. simpl.
  destruct (Ascii.eqb c LF) eqn:Hc; [| reflexivity].
  apply Ascii.eqb_eq in Hc. subst c. discriminate E.
Qed.

Lemma trailing_newlines_append (a b : string) c r :
  rev_string b = String c r -> c <> LF ->
  trailing_newlines (a +:+ b) = O.
Proof.
  intros Hb Hc. unfold trailing_newlines. rewrite rev_string_append, Hb. simpl.
  destruct (Ascii.eqb c LF) eqn:E; [apply Ascii.eqb_eq in E; contradiction | reflexivity].
Qed.

Lemma rev_string_empty (s : string) : rev_string s = EmptyString -> s = EmptyString.
Proof.
  intros H. rewrite <- (rev_string_involutive s), H. reflexivity.
Qed.

Lemma trailing_newlines_append_trimmed (a t : string) :
  TrimSpace t <> EmptyString ->
  trailing_newlines (a +:+ TrimSpace t) = O.
Proof.
  intros Hne.
  destruct (rev_string (TrimSpace t)) as [|c r] eqn:E.
  - apply rev_string_empty in E. contradiction.
  - apply (trailing_newlines_append a _ c r E).
    intros ->.
    pose proof (TrimSpace_no_trailing_newline t) as H.
    unfold trailing_newlines in H. rewrite E in H. discriminate H.
Qed.

(* ===================================================================== *)
(** ** The renderer *)
(* ===================================================================== *)

Section RendererFacts.
Import OpenAI Renderer.

Variable title : string.

(** Concatenation of a list of texts. *)
Definition concat_strings (l : list string) : string :=
  fold_right String.append "" l.

(** The header line of a block and the line of a fragment that continues a
    block, as [saveTranscription] prints them. *)
Definition headerLine (segment : DiarizedSegment) : string :=
  stamp segment +:+ title +:+ speakerOf segment +:+ ":" +:+ newline.

Definition textLine (segment : DiarizedSegment) : string :=
  TrimSpace (Text segment) +:+ newline.

(** What follows in the output once the block of [speaker] is open. *)
Definition continued (speaker : string) (segments : list DiarizedSegment) : string :=
  output (renderLoop title {| output := ""; currentSpeaker := speaker |} segments).

Lemma speakerOf_nonempty (segment : DiarizedSegment) : speakerOf segment <> "".
Proof.
  unfold speakerOf. destruct (String.eqb (Speaker segment) "") eqn:E.
  - discriminate.
  - now apply String.eqb_neq in E.
Qed.

Lemma renderSegment_speaker st segment :
  currentSpeaker (renderSegment title st segment) = speakerOf segment.
Proof.
  unfold renderSegment.
  destruct (String.eqb (speakerOf segment) (currentSpeaker st)) eqn:E; simpl.
  - symmetry. now apply String.eqb_eq.
  - reflexivity.
Qed.

Lemma renderLoop_output out cur segments :
  output (renderLoop title {| output := out; currentSpeaker := cur |} segments)
  = out +:+ continued cur segments.
Proof.
  unfold continued, renderLoop.
  revert out cur. induction segments as [|s rest IH]; intros out cur.
  - simpl. now rewrite append_empty_r.
  - simpl fold_left.
    set (st1 := renderSegment title {| output := out; currentSpeaker := cur |} s).
    set (st2 := renderSegment title {| output := ""; currentSpeaker := cur |} s).
    assert (Hout : output st1 = out +:+ output st2).
    { unfold st1, st2, renderSegment. simpl.
      destruct (negb (String.eqb (speakerOf s) cur)); simpl;
        [destruct (negb (String.eqb cur "")); simpl |];
        rewrite ?append_assoc, ?append_nil_l; reflexivity. }
    assert (Hsp : currentSpeaker st1 = currentSpeaker st2).
    { unfold st1, st2. now rewrite !renderSegment_speaker. }
    destruct st1 as [o1 c1], st2 as [o2 c2]. simpl in Hout, Hsp. subst.
    rewrite (IH (out +:+ o2) c2), (IH o2 c2). apply append_assoc.
Qed.

(** A speaker change, the very first fragment apart, starts with one empty
    line and a header. *)
Lemma render_change out cur s rest :
  cur <> "" -> speakerOf s <> cur ->
  output (renderLoop title {| output := out; currentSpeaker := cur |} (s :: rest))
  = out +:+ newline +:+ headerLine s +:+ textLine s +:+ continued (speakerOf s) rest.
Proof.
  intros Hcur Hne. unfold renderLoop. simpl fold_left.
  pose proof (renderSegment_speaker {| output := out; currentSpeaker := cur |} s) as Hsp.
  destruct (renderSegment title {| output := out; currentSpeaker := cur |} s)
    as [o1 c1] eqn:E1.
  simpl in Hsp. subst c1.
  change (fold_left (renderSegment title) rest ?st) with (renderLoop title st rest).
  rewrite renderLoop_output.
  unfold renderSegment in E1. simpl in E1.
  apply String.eqb_neq in Hne, Hcur. rewrite Hne, Hcur in E1. simpl in E1.
  injection E1 as <-. unfold headerLine, textLine.
  rewrite !append_assoc. reflexivity.
Qed.

(** The first fragment opens a header with nothing before it. *)
Lemma render_first out s rest :
  output (renderLoop title {| output := out; currentSpeaker := "" |} (s :: rest))
  = out +:+ headerLine s +:+ textLine s +:+ continued (speakerOf s) rest.
Proof.
  unfold renderLoop. simpl fold_left.
  pose proof (renderSegment_speaker {| output := out; currentSpeaker := "" |} s) as Hsp.
  destruct (renderSegment title {| output := out; currentSpeaker := "" |} s)
    as [o1 c1] eqn:E1.
  simpl in Hsp. subst c1.
  change (fold_left (renderSegment title) rest ?st) with (renderLoop title st rest).
  rewrite renderLoop_output.
  unfold renderSegment in E1. simpl in E1.
  pose proof (speakerOf_nonempty s) as Hne. apply String.eqb_neq in Hne.
  rewrite Hne in E1. simpl in E1.
  injection E1 as <-. unfold headerLine, textLine.
  rewrite !append_assoc. reflexivity.
Qed.

(** The same speaker again: the time stamp and the text, on one line. *)
Lemma render_same out cur s rest :
  speakerOf s = cur ->
  output (renderLoop title {| output := out; currentSpeaker := cur |} (s :: rest))
  = out +:+ stamp s +:+ textLine s +:+ continued cur rest.
Proof.
  intros Heq. unfold renderLoop. simpl fold_left.
  pose proof (renderSegment_speaker {| output := out; currentSpeaker := cur |} s) as Hsp.
  destruct (renderSegment title {| output := out; currentSpeaker := cur |} s)
    as [o1 c1] eqn:E1.
  simpl in Hsp. subst c1.
  change (fold_left (renderSegment title) rest ?st) with (renderLoop title st rest).
  rewrite renderLoop_output, Heq.
  unfold renderSegment in E1. simpl in E1.
  apply String.eqb_eq in Heq. rewrite Heq in E1. simpl in E1.
  injection E1 as <-. unfold textLine.
  rewrite !append_assoc. reflexivity.
Qed.

Lemma continued_same_speaker cur rest :
  Forall (fun s => speakerOf s = cur) rest ->
  continued cur rest = concat_strings (map (fun s => stamp s +:+ textLine s) rest).
Proof.
  induction 1 as [|s rest Hs Hrest IH].
  - reflexivity.
  - unfold continued. rewrite (render_same "" cur s rest Hs).
    rewrite append_nil_l, IH. simpl. now rewrite append_assoc.
Qed.

Lemma render_nonempty text s rest :
  render title text (s :: rest)
  = headerLine s +:+ textLine s +:+ continued (speakerOf s) rest.
Proof.
  unfold render.
  assert (H : (0 <? Z.of_nat (length (s :: rest))) = true) by reflexivity.
  rewrite H, render_first. apply append_nil_l.
Qed.

End RendererFacts.

(* ===================================================================== *)
(** ** Sample data and a sample environment, for concrete runs *)
(* ===================================================================== *)

Module Demo.
Import OpenAI.

Definition segA : DiarizedSegment :=
  {| Speaker := "A"; Start := 0; End := 3 # 2; Text := " hello " |}.
Definition segA2 : DiarizedSegment :=
  {| Speaker := "A"; Start := 3 # 2; End := 2; Text := "again" |}.
Definition segB : DiarizedSegment :=
  {| Speaker := ""; Start := 2; End := 3; Text := "world" |}.
Definition segBlank : DiarizedSegment :=
  {| Speaker := "A"; Start := 0; End := 1; Text := " " |}.

Definition twoSegments : TranscriptionResponse :=
  {| RText := "hello world"; Segments := [segA; segB] |}.

(** The answers of the services are named; the decoders know the names. *)
Definition decode_openai (body : string) : Result TranscriptionResponse :=
  if String.eqb body "two-segments" then Ok twoSegments
  else if String.eqb body "no-text" then Ok {| RText := ""; Segments := [segA2] |}
  else Err "invalid character".

Definition decode_assembly (body : string) (t : AssemblyAI.TranscriptionResponse)
    : Result AssemblyAI.TranscriptionResponse :=
  let status (s : string) :=
    Ok {| AssemblyAI.ID := "job-1"; AssemblyAI.Status := s;
          AssemblyAI.RText := AssemblyAI.RText t;
          AssemblyAI.Utterances := AssemblyAI.Utterances t;
          AssemblyAI.Error := if String.eqb s "error" then "bad audio" else "" |} in
  if String.eqb body "queued" then status "queued"
  else if String.eqb body "processing" then status "processing"
  else if String.eqb body "completed" then status "completed"
  else if String.eqb body "error" then status "error"
  else if String.eqb body "paused" then status "paused"
  else if String.eqb body "no-status" then Ok t
  else if String.eqb body "queued-odd-id" then
    Ok {| AssemblyAI.ID := "job" +:+ newline; AssemblyAI.Status := "queued";
          AssemblyAI.RText := AssemblyAI.RText t;
          AssemblyAI.Utterances := AssemblyAI.Utterances t;
          AssemblyAI.Error := "" |}
  else Err "invalid character".

(** Building a request fails on a URL that holds a control character, as
    [url.Parse] refuses it. *)
Definition new_request (method url : string) : Result unit :=
  if existsb (fun c => Nat.ltb (nat_of_ascii c) 32 || Nat.eqb (nat_of_ascii c) 127)
       (list_ascii_of_string url)
  then Err "net/url: invalid control character in URL"
  else Ok tt.

(** An environment where files and processes behave, the measured duration
    is [measured] and the services answer by [http]. *)
Definition env (measured : Q) (http : list Event -> Request -> HttpResult) : Env :=
  {| godotenv_Load := Ok tt;
     os_Getenv := fun _ => "secret";
     stat_not_exist := fun _ _ => false;
     create_temp := fun tr pattern =>
       Ok ("/tmp/" +:+ pattern +:+ "." +:+ fmt_d (Z.of_nat (length tr)));
     run_cmd := fun _ _ => {| run_error := None; proc_stdout := ""; proc_stderr := "" |};
     open_file := fun _ _ => Ok tt;
     copy_file := fun _ _ => Ok tt;
     http_do := http;
     http_NewRequest := new_request;
     write_file := fun _ _ _ => Ok tt;
     Sscanf_f := fun _ => Ok measured;
     trim_ext := fun s => s;
     json_openai := decode_openai;
     json_upload := fun body => Ok body;
     json_assembly := decode_assembly |}.

Definition w0 : World := {| files := ∅; trace := [] |}.

(** Number of requests sent so far. *)
Definition sent (tr : list Event) : nat :=
  length (List.filter (fun ev => match ev with EvHTTP _ => true | _ => false end) tr).

End Demo.

(* ===================================================================== *)
(** ** Claims on the renderer *)
(* ===================================================================== *)

(** *** Empty lines of the rendering *)

(** The empty lines of a text: the line feeds at its start or right after
    another line feed.  [fresh] tells whether the text starts a line. *)
Fixpoint emptyLinesFrom (fresh : bool) (s : string) : nat :=
  match s with
  | EmptyString => 0
  | String c r =>
      if Ascii.eqb c LF
      then ((if fresh then 1 else 0) + emptyLinesFrom true r)%nat
      else emptyLinesFrom false r
  end.

Definition emptyLines (s : string) : nat := emptyLinesFrom true s.

(** Whether a line starts after the text. *)
Fixpoint freshAfter (fresh : bool) (s : string) : bool :=
  match s with
  | EmptyString => fresh
  | String c r => freshAfter (Ascii.eqb c LF) r
  end.

(** A text on one line. *)
Fixpoint noLF (s : string) : bool :=
  match s with
  | EmptyString => true
  | String c r => negb (Ascii.eqb c LF) && noLF r
  end.

Lemma emptyLinesFrom_app fresh a b :
  emptyLinesFrom fresh (a +:+ b)
  = (emptyLinesFrom fresh a + emptyLinesFrom (freshAfter fresh a) b)%nat.
Proof.
  revert fresh. induction a as [|c a IH]; intros fresh; simpl.
  - reflexivity.
  - destruct (Ascii.eqb c LF); rewrite IH; lia.
Qed.

Lemma freshAfter_app fresh a b :
  freshAfter fresh (a +:+ b) = freshAfter (freshAfter fresh a) b.
Proof.
  revert fresh. induction a as [|c a IH]; intros fresh; simpl; [reflexivity | apply IH].
Qed.

Lemma noLF_app a b : noLF (a +:+ b) = noLF a && noLF b.
Proof.
  induction a as [|c a IH]; simpl; [reflexivity |].
  rewrite IH. now rewrite andb_assoc.
Qed.

Lemma noLF_lines fresh s :
  noLF s = true ->
  emptyLinesFrom fresh s = 0%nat
  /\ freshAfter fresh s = (if String.eqb s "" then fresh else false).
Proof.
  revert fresh. induction s as [|c s IH]; intros fresh H; simpl in *.
  - split; reflexivity.
  - apply andb_true_iff in H as [Hc Hs]. apply negb_true_iff in Hc. rewrite Hc.
    destruct (IH false Hs) as [E1 E2]. split; [exact E1 |].
    rewrite E2. now destruct (String.eqb s "").
Qed.

Lemma noLF_uint d : noLF (NilEmpty.string_of_uint d) = true.
Proof. induction d; simpl; auto. Qed.

Lemma noLF_decimal n : noLF (decimal n) = true.
Proof.
  unfold decimal, NilZero.string_of_uint.
  destruct (N.to_uint n); try reflexivity; apply (noLF_uint (_ _)).
Qed.

Lemma noLF_fmt_02d z : noLF (fmt_02d z) = true.
Proof.
  unfold fmt_02d. destruct (z <? 0); [| destruct (z <? 10)];
    rewrite ?noLF_app, ?noLF_decimal; try reflexivity; apply noLF_decimal.
Qed.

Lemma noLF_formatTimestamp x : noLF (formatTimestamp x) = true.
Proof.
  unfold formatTimestamp. cbv zeta.
  rewrite !noLF_app, !noLF_fmt_02d. reflexivity.
Qed.

Lemma noLF_stamp s : noLF (Renderer.stamp s) = true /\ Renderer.stamp s <> "".
Proof.
  unfold Renderer.stamp. split; [| discriminate].
  rewrite !noLF_app, !noLF_formatTimestamp. reflexivity.
Qed.

Lemma line_lines fresh p r :
  noLF p = true ->
  emptyLinesFrom fresh (p +:+ newline +:+ r)
  = ((if String.eqb p "" then (if fresh then 1 else 0) else 0) + emptyLinesFrom true r)%nat
  /\ freshAfter fresh (p +:+ newline +:+ r) = freshAfter true r.
Proof.
  intros Hp. rewrite emptyLinesFrom_app, freshAfter_app.
  destruct (noLF_lines fresh p Hp) as [E1 E2]. rewrite E1, E2.
  destruct (String.eqb p ""); simpl; split; reflexivity.
Qed.

Section BlankLines.
Import OpenAI Renderer.

(** The fragments whose speaker is not the one of the fragment before, and
    those of them whose text trims to nothing. *)
Fixpoint speakerChanges (cur : string) (segments : list DiarizedSegment) : nat :=
  match segments with
  | [] => 0
  | s :: rest =>
      ((if String.eqb (speakerOf s) cur then 0 else 1)
       + speakerChanges (speakerOf s) rest)%nat
  end.

Fixpoint blankOpenings (cur : string) (segments : list DiarizedSegment) : nat :=
  match segments with
  | [] => 0
  | s :: rest =>
      ((if String.eqb (speakerOf s) cur then 0
        else if String.eqb (TrimSpace (Text s)) "" then 1 else 0)
       + blankOpenings (speakerOf s) rest)%nat
  end.

(** A fragment whose speaker label and trimmed text hold no line feed. *)
Definition oneLine (s : DiarizedSegment) : Prop :=
  noLF (speakerOf s) = true /\ noLF (TrimSpace (Text s)) = true.

Variable title : string.
Hypothesis title_line : noLF title = true.

Lemma continued_lines segments :
  Forall oneLine segments ->
  forall cur, cur <> "" ->
    emptyLinesFrom true (continued title cur segments)
    = (speakerChanges cur segments + blankOpenings cur segments)%nat
    /\ freshAfter true (continued title cur segments) = true.
Proof.
  induction 1 as [|s rest [Hsp Htx] _ IH]; intros cur Hcur.
  - split; reflexivity.
  - destruct (noLF_stamp s) as [Hst Hne].
    cbn [speakerChanges blankOpenings].
    destruct (IH (speakerOf s) (speakerOf_nonempty s)) as [IH1 IH2].
    destruct (String.eqb (speakerOf s) cur) eqn:E.
    + apply String.eqb_eq in E. unfold continued.
      rewrite (render_same title "" cur s rest E), append_nil_l.
      fold (continued title cur rest). unfold textLine.
      rewrite <- E.
      replace (stamp s +:+ (TrimSpace (Text s) +:+ newline)
               +:+ continued title (speakerOf s) rest)
        with ((stamp s +:+ TrimSpace (Text s)) +:+ newline
              +:+ continued title (speakerOf s) rest)
        by (rewrite !append_assoc; reflexivity).
      destruct (line_lines true (stamp s +:+ TrimSpace (Text s))
                  (continued title (speakerOf s) rest)) as [L1 L2].
      { rewrite noLF_app, Hst, Htx. reflexivity. }
      rewrite L1, L2, IH1, IH2.
      assert (Hn : String.eqb (stamp s +:+ TrimSpace (Text s)) "" = false)
        by reflexivity.
      rewrite Hn. split; [lia | reflexivity].
    + apply String.eqb_neq in E. unfold continued.
      rewrite (render_change title "" cur s rest Hcur E), append_nil_l.
      fold (continued title (speakerOf s) rest). unfold headerLine, textLine.
      set (C := continued title (speakerOf s) rest) in *.
      replace (newline +:+ (stamp s +:+ title +:+ speakerOf s +:+ ":" +:+ newline)
               +:+ (TrimSpace (Text s) +:+ newline) +:+ C)
        with ("" +:+ newline
              +:+ ((stamp s +:+ title +:+ speakerOf s +:+ ":") +:+ newline
                   +:+ (TrimSpace (Text s) +:+ newline +:+ C))).
      2: { rewrite append_nil_l, !append_assoc. reflexivity. }
      destruct (line_lines true "" ((stamp s +:+ title +:+ speakerOf s +:+ ":") +:+ newline
                   +:+ (TrimSpace (Text s) +:+ newline +:+ C)) eq_refl) as [A1 A2].
      destruct (line_lines true (stamp s +:+ title +:+ speakerOf s +:+ ":")
                  (TrimSpace (Text s) +:+ newline +:+ C)) as [B1 B2].
      { rewrite !noLF_app, Hst, title_line, Hsp. reflexivity. }
      destruct (line_lines true (TrimSpace (Text s)) C Htx) as [C1 C2].
      rewrite A1, A2, B1, B2, C1, C2, IH1, IH2.
      assert (Hn : String.eqb (stamp s +:+ title +:+ speakerOf s +:+ ":") "" = false)
        by reflexivity.
      rewrite Hn. cbn [String.eqb].
      split; [| reflexivity].
      destruct (String.eqb (TrimSpace (Text s)) ""); lia.
Qed.

Lemma render_lines text s rest :
  Forall oneLine (s :: rest) ->
  emptyLines (render title text (s :: rest))
  = (speakerChanges (speakerOf s) rest + blankOpenings "" (s :: rest))%nat.
Proof.
  intros Hall. inversion Hall as [|s' rest' [Hsp Htx] Hrest]; subst.
  rewrite render_nonempty. unfold emptyLines, headerLine, textLine.
  destruct (noLF_stamp s) as [Hst Hne].
  destruct (continued_lines rest Hrest (speakerOf s) (speakerOf_nonempty s)) as [IH1 IH2].
  set (C := continued title (speakerOf s) rest) in *.
  replace ((stamp s +:+ title +:+ speakerOf s +:+ ":" +:+ newline)
           +:+ (TrimSpace (Text s) +:+ newline) +:+ C)
    with ((stamp s +:+ title +:+ speakerOf s +:+ ":") +:+ newline
          +:+ (TrimSpace (Text s) +:+ newline +:+ C)).
  2: { rewrite !append_assoc. reflexivity. }
  destruct (line_lines true (stamp s +:+ title +:+ speakerOf s +:+ ":")
              (TrimSpace (Text s) +:+ newline +:+ C)) as [B1 B2].
  { rewrite !noLF_app, Hst, title_line, Hsp. reflexivity. }
  destruct (line_lines true (TrimSpace (Text s)) C Htx) as [C1 C2].
  rewrite B1, C1, IH1.
  assert (Hn : String.eqb (stamp s +:+ title +:+ speakerOf s +:+ ":") "" = false)
    by reflexivity.
  rewrite Hn. cbn [blankOpenings].
  pose proof (speakerOf_nonempty s) as Hs. apply String.eqb_neq in Hs. rewrite Hs.
  destruct (String.eqb (TrimSpace (Text s)) ""); lia.
Qed.

Lemma blankOpenings_none cur segments :
  Forall (fun s => TrimSpace (Text s) <> "") segments ->
  blankOpenings cur segments = 0%nat.
Proof.
  intros Hall. revert cur. induction Hall as [|s rest Hs _ IH]; intros cur.
  - reflexivity.
  - cbn [blankOpenings]. rewrite IH. apply String.eqb_neq in Hs. rewrite Hs.
    now destruct (String.eqb (speakerOf s) cur).
Qed.

Lemma speakerChanges_none cur segments :
  Forall (fun s => speakerOf s = cur) segments ->
  speakerChanges cur segments = 0%nat.
Proof.
  induction 1 as [|s rest Hs _ IH].
  - reflexivity.
  - cbn [speakerChanges]. rewrite Hs, IH, String.eqb_refl. reflexivity.
Qed.

End BlankLines.

(** C5, as stated, fails where the text that opens a block trims to nothing:
    the header is then followed by an empty line.  A run of two fragments of
    one speaker then holds an empty line, and a change of speaker after such
    a block comes with two empty lines. *)
Lemma render_blank_opening_text :
  Renderer.render "" "" [Demo.segBlank; Demo.segA2]
  = "[00:00:00 - 00:00:01] A:" +:+ newline
    +:+ newline
    +:+ "[00:00:01 - 00:00:02] again" +:+ newline
  /\ speakerChanges (Renderer.speakerOf Demo.segBlank) [Demo.segA2] = 0%nat
  /\ emptyLines (Renderer.render "" "" [Demo.segBlank; Demo.segA2]) = 1%nat
  /\ Renderer.render "" "" [Demo.segBlank; Demo.segB]
     = "[00:00:00 - 00:00:01] A:" +:+ newline
       +:+ newline
       +:+ newline
       +:+ "[00:00:02 - 00:00:03] Unknown:" +:+ newline
       +:+ "world" +:+ newline
  /\ speakerChanges (Renderer.speakerOf Demo.segBlank) [Demo.segB] = 1%nat
  /\ emptyLines (Renderer.render "" "" [Demo.segBlank; Demo.segB]) = 2%nat.
Proof. repeat split; vm_compute; reflexivity. Qed.

(** C5, amended.  The renderer walks the fragments in order with the speaker
    of the open block as its state.  The time stamp of a fragment is
    [[start - end] ], both times printed by [formatTimestamp].  The very
    first fragment prints a header [[start - end] speaker:] with nothing
    before it; a fragment of another speaker prints one empty line and then
    its header; a fragment of the same speaker prints only [[start - end] ]
    in front of its text; in each case the trimmed text and a line feed
    follow.  When the title, the speaker labels and the trimmed texts hold
    no line feed, the empty lines of the output are one for every change of
    speaker and one more for every fragment that opens a block with a text
    that trims to nothing.  So, when no text trims to nothing, there is
    exactly one empty line for every change of speaker, and a run of
    fragments of one speaker is one header and one line per fragment, with
    no empty line.  ([title] is empty in the two programs of the synchronous
    service and ["Speaker "] in the asynchronous one.) *)
Theorem render_speaker_blocks (title text out cur : string)
    (s : OpenAI.DiarizedSegment) (rest : list OpenAI.DiarizedSegment) :
  Renderer.stamp s
  = "[" +:+ formatTimestamp (OpenAI.Start s) +:+ " - "
        +:+ formatTimestamp (OpenAI.End s) +:+ "] "
  /\ Renderer.render title text (s :: rest)
     = headerLine title s +:+ textLine s
         +:+ continued title (Renderer.speakerOf s) rest
  /\ (cur <> "" -> Renderer.speakerOf s <> cur ->
      Renderer.output
        (Renderer.renderLoop title
           {| Renderer.output := out; Renderer.currentSpeaker := cur |} (s :: rest))
      = out +:+ newline +:+ headerLine title s +:+ textLine s
          +:+ continued title (Renderer.speakerOf s) rest)
  /\ (Renderer.speakerOf s = cur ->
      Renderer.output
        (Renderer.renderLoop title
           {| Renderer.output := out; Renderer.currentSpeaker := cur |} (s :: rest))
      = out +:+ Renderer.stamp s +:+ textLine s +:+ continued title cur rest)
  /\ (Forall (fun s' => Renderer.speakerOf s' = Renderer.speakerOf s) rest ->
      Renderer.render title text (s :: rest)
      = headerLine title s +:+ textLine s
          +:+ concat_strings (map (fun s' => Renderer.stamp s' +:+ textLine s') rest))
  /\ (noLF title = true -> Forall oneLine (s :: rest) ->
      emptyLines (Renderer.render title text (s :: rest))
      = (speakerChanges (Renderer.speakerOf s) rest
         + blankOpenings "" (s :: rest))%nat)
  /\ (noLF title = true -> Forall oneLine (s :: rest) ->
      Forall (fun s' => TrimSpace (OpenAI.Text s') <> "") (s :: rest) ->
      emptyLines (Renderer.render title text (s :: rest))
      = speakerChanges (Renderer.speakerOf s) rest)
  /\ (noLF title = true -> Forall oneLine (s :: rest) ->
      Forall (fun s' => TrimSpace (OpenAI.Text s') <> "") (s :: rest) ->
      Forall (fun s' => Renderer.speakerOf s' = Renderer.speakerOf s) rest ->
      emptyLines (Renderer.render title text (s :: rest)) = 0%nat).
Proof.
  split; [reflexivity |].
  split; [apply render_nonempty |].
  split; [apply render_change |].
  split; [apply render_same |].
  split.
  { intros Hall. rewrite render_nonempty.
    now rewrite (continued_same_speaker title _ rest Hall). }
  split; [intros Ht Hall; apply render_lines; assumption |].
  split.
  - intros Ht Hall Htext. rewrite render_lines by assumption.
    rewrite blankOpenings_none by assumption. lia.
  - intros Ht Hall Htext Hsame. rewrite render_lines by assumption.
    rewrite blankOpenings_none by assumption.
    rewrite speakerChanges_none by assumption. reflexivity.
Qed.

Lemma render_speaker_blocks_witness :
  emptyLines (Renderer.render "" "" [Demo.segA; Demo.segA2; Demo.segB])
  = speakerChanges (Renderer.speakerOf Demo.segA) [Demo.segA2; Demo.segB].
Proof.
  refine (proj1 (proj2 (proj2 (proj2 (proj2 (proj2 (proj2
            (render_speaker_blocks "" "" "" "A" Demo.segA
               [Demo.segA2; Demo.segB]))))))) _ _ _).
  - reflexivity.
  - repeat constructor.
  - repeat constructor; discriminate.
Defined.

(** The two renderings of the sample segments, in full. *)
Example render_one_speaker :
  Simple.renderTranscription
    {| OpenAI.RText := ""; OpenAI.Segments := [Demo.segA; Demo.segA2] |}
  = "[00:00:00 - 00:00:01] A:" +:+ newline
    +:+ "hello" +:+ newline
    +:+ "[00:00:01 - 00:00:02] again" +:+ newline.
Proof. vm_compute. reflexivity. Qed.

Example render_two_speakers :
  Simple.renderTranscription
    {| OpenAI.RText := ""; OpenAI.Segments := [Demo.segA; Demo.segB] |}
  = "[00:00:00 - 00:00:01] A:" +:+ newline
    +:+ "hello" +:+ newline
    +:+ newline
    +:+ "[00:00:02 - 00:00:03] Unknown:" +:+ newline
    +:+ "world" +:+ newline.
Proof. vm_compute. reflexivity. Qed.

Lemma renderLoop_snoc title st init last :
  Renderer.renderLoop title st (init ++ [last])
  = Renderer.renderSegment title (Renderer.renderLoop title st init) last.
Proof. unfold Renderer.renderLoop. now rewrite fold_left_app. Qed.

Lemma renderSegment_ends title st s :
  exists before,
    Renderer.output (Renderer.renderSegment title st s)
    = (before +:+ TrimSpace (OpenAI.Text s)) +:+ newline.
Proof.
  unfold Renderer.renderSegment. simpl.
  eexists. rewrite append_assoc. reflexivity.
Qed.

(** C10, as stated, fails: the fallback copies a line feed that ends the
    plain text, and a header followed by an empty text line ends in two line
    feeds. *)
Lemma render_two_trailing_newlines :
  trailing_newlines
    (Simple.renderTranscription
       {| OpenAI.RText := "hi" +:+ newline; OpenAI.Segments := [] |}) = 2%nat
  /\ trailing_newlines
       (Simple.renderTranscription
          {| OpenAI.RText := ""; OpenAI.Segments := [Demo.segBlank] |}) = 2%nat.
Proof. split; vm_compute; reflexivity. Qed.

(** C10, amended.  The rendered text always ends with a line feed.  In the
    fallback it is the plain text and one line feed, so the text ends with
    one more line feed than the plain text does.  With fragments, the output
    starts with the bracket of the first header, never with an empty line,
    and it ends with exactly one line feed when the trimmed text of the last
    fragment is not empty. *)
Theorem render_trailing_newline (title text : string)
    (segments : list OpenAI.DiarizedSegment) :
  (1 <= trailing_newlines (Renderer.render title text segments))%nat
  /\ (segments = [] ->
      Renderer.render title text segments = text +:+ newline
      /\ trailing_newlines (Renderer.render title text segments)
         = S (trailing_newlines text))
  /\ (forall s rest, segments = s :: rest ->
      exists tail,
        Renderer.render title text segments
        = String "["%char tail
        /\ Renderer.render title text segments
           = headerLine title s +:+ textLine s
               +:+ continued title (Renderer.speakerOf s) rest)
  /\ (forall init last, segments = init ++ [last] ->
      TrimSpace (OpenAI.Text last) <> "" ->
      trailing_newlines (Renderer.render title text segments) = 1%nat).
Proof.
  assert (Hlast : forall init last,
             segments = init ++ [last] ->
             exists before,
               Renderer.render title text segments
               = (before +:+ TrimSpace (OpenAI.Text last)) +:+ newline).
  { intros init last ->. unfold Renderer.render.
    assert (H : (0 <? Z.of_nat (length (init ++ [last]))) = true).
    { rewrite length_app. simpl. apply Z.ltb_lt. lia. }
    rewrite H, renderLoop_snoc. apply renderSegment_ends. }
  split; [| split; [| split]].
  - destruct segments as [|s rest].
    + unfold Renderer.render. simpl. rewrite trailing_newlines_snoc. lia.
    + destruct (@exists_last _ (s :: rest)) as (init & last & E); [discriminate |].
      destruct (Hlast init last E) as (before & ->).
      rewrite trailing_newlines_snoc. lia.
  - intros ->. split; [reflexivity |].
    unfold Renderer.render. simpl. apply trailing_newlines_snoc.
  - intros s rest ->. rewrite render_nonempty.
    eexists. split; [| reflexivity].
    unfold headerLine, Renderer.stamp.
    rewrite !append_assoc. rewrite append_cons, append_nil_l. reflexivity.
  - intros init last E Hne.
    destruct (Hlast init last E) as (before & ->).
    rewrite trailing_newlines_snoc.
    now rewrite trailing_newlines_append_trimmed.
Qed.

Lemma render_trailing_newline_witness :
  trailing_newlines
    (Renderer.render "" "" ([Demo.segA] ++ [Demo.segB])) = 1%nat.
Proof.
  apply (render_trailing_newline "" "" ([Demo.segA] ++ [Demo.segB])
         : _ /\ _ /\ _ /\ _) with (init := [Demo.segA]) (last := Demo.segB).
  - reflexivity.
  - vm_compute. discriminate.
Defined.

(* ===================================================================== *)
(** ** The polling loop *)
(* ===================================================================== *)

(** The request of one poll. *)
Definition pollRequest (apiKey pollingURL : string) : Request :=
  {| req_method := "GET"; req_url := pollingURL;
     req_authorization := apiKey; req_body := BodyNone |}.

(** The world after an event. *)
Definition after (ev : Event) (w : World) : World :=
  {| files := files w; trace := ev :: trace w |}.

(** C7.  One turn of the polling loop, when the request could be built, the
    exchange succeeded and the answer decoded to [t']: on status completed
    the loop returns [t']; on status error it fails with the message the
    service supplied; on status queued or processing it prints the status,
    sleeps 3 seconds and polls again; on any other status it fails with an
    unexpected-status error.  The four cases are exclusive and cover every
    status, so the loop repeats exactly when the status is queued or
    processing. *)
Theorem poll_loop_turn (env : Env) (apiKey pollingURL : string) (polls : nat)
    (t t' : AssemblyAI.TranscriptionResponse) (w : World)
    (StatusCode : Z) (body : string) :
  http_NewRequest env "GET" pollingURL = Ok tt ->
  http_do env (trace w) (pollRequest apiKey pollingURL) = Response StatusCode body ->
  json_assembly env body t = Ok t' ->
  let w1 := after (EvHTTP (pollRequest apiKey pollingURL)) w in
  let loop := Async.pollLoop env apiKey pollingURL (S polls) t w in
  (AssemblyAI.Status t' = "completed" -> loop = (Ok (Some t'), w1))
  /\ (AssemblyAI.Status t' = "error" ->
      loop = (Err ("transcription failed: " +:+ AssemblyAI.Error t'), w1))
  /\ (AssemblyAI.Status t' = "queued" \/ AssemblyAI.Status t' = "processing" ->
      loop = Async.pollLoop env apiKey pollingURL polls t'
               (after (EvSleep 3)
                  (after (EvStdout ("Status: " +:+ AssemblyAI.Status t'
                                      +:+ "... waiting" +:+ newline)) w1)))
  /\ (AssemblyAI.Status t' <> "completed" -> AssemblyAI.Status t' <> "error" ->
      AssemblyAI.Status t' <> "queued" -> AssemblyAI.Status t' <> "processing" ->
      loop = (Err ("unexpected status: " +:+ AssemblyAI.Status t'), w1)).
Proof.
  intros Hnew Hhttp Hjson w1 loop.
  assert (Hloop : loop =
    (if String.eqb (AssemblyAI.Status t') "completed" then (Ok (Some t'), w1)
     else if String.eqb (AssemblyAI.Status t') "error"
       then (Err ("transcription failed: " +:+ AssemblyAI.Error t'), w1)
     else if String.eqb (AssemblyAI.Status t') "queued"
             || String.eqb (AssemblyAI.Status t') "processing"
       then Async.pollLoop env apiKey pollingURL polls t'
              (after (EvSleep 3)
                 (after (EvStdout ("Status: " +:+ AssemblyAI.Status t'
                                     +:+ "... waiting" +:+ newline)) w1))
     else (Err ("unexpected status: " +:+ AssemblyAI.Status t'), w1))).
  { unfold loop. simpl. unfold Async.pollOnce. rewrite Hnew.
    unfold bind, http_Do, bind, ask, emit, ret.
    fold (pollRequest apiKey pollingURL). rewrite Hhttp, Hjson.
    destruct (String.eqb (AssemblyAI.Status t') "completed"); [reflexivity |].
    destruct (String.eqb (AssemblyAI.Status t') "error"); [reflexivity |].
    destruct (String.eqb (AssemblyAI.Status t') "queued"
              || String.eqb (AssemblyAI.Status t') "processing"); reflexivity. }
  rewrite Hloop. clear Hloop loop.
  split; [| split; [| split]].
  - intros ->. reflexivity.
  - intros ->. reflexivity.
  - intros [-> | ->]; reflexivity.
  - intros H1 H2 H3 H4.
    apply String.eqb_neq in H1, H2, H3, H4. now rewrite H1, H2, H3, H4.
Qed.

(** A service that answers the n-th request with the n-th of [answers], and
    the last of them from then on. *)
Definition scripted (answers : list HttpResult) (tr : list Event) (_ : Request)
    : HttpResult :=
  nth (Nat.min (Demo.sent tr) (length answers - 1)) answers (DoFailed "no answer").

Lemma poll_loop_turn_witness :
  Async.pollLoop (Demo.env 0 (scripted [Response 200 "completed"])) "secret"
    "https://api.assemblyai.com/v2/transcript/job-1" 1 AssemblyAI.zero Demo.w0
  = (Ok (Some {| AssemblyAI.ID := "job-1"; AssemblyAI.Status := "completed";
                 AssemblyAI.RText := ""; AssemblyAI.Utterances := [];
                 AssemblyAI.Error := "" |}),
     after (EvHTTP (pollRequest "secret"
                      "https://api.assemblyai.com/v2/transcript/job-1")) Demo.w0).
Proof.
  apply (poll_loop_turn (Demo.env 0 (scripted [Response 200 "completed"]))
           "secret" "https://api.assemblyai.com/v2/transcript/job-1" 0
           AssemblyAI.zero _ Demo.w0 200 "completed");
    reflexivity.
Defined.

(** Whole runs of [transcribeAudio]: two waits and the result; the message of
    the service on status error; an unknown status ends the loop. *)
Example poll_until_completed :
  let '(r, w) :=
    Async.transcribeAudio
      (Demo.env 0 (scripted [Response 200 "queued"; Response 200 "queued";
                             Response 200 "processing"; Response 200 "completed"]))
      10 "upload-url" "secret" Demo.w0 in
  (exists t, r = Ok (Some t) /\ AssemblyAI.Status t = "completed")
  /\ List.filter (fun ev => match ev with EvSleep _ => true | _ => false end) (trace w)
     = [EvSleep 3; EvSleep 3].
Proof. vm_compute. split; [eexists; split |]; reflexivity. Qed.

Example poll_error_status :
  fst (Async.transcribeAudio
         (Demo.env 0 (scripted [Response 200 "queued"; Response 200 "error"]))
         10 "upload-url" "secret" Demo.w0)
  = Err "transcription failed: bad audio".
Proof. vm_compute. reflexivity. Qed.

Example poll_unknown_status :
  fst (Async.transcribeAudio
         (Demo.env 0 (scripted [Response 200 "queued"; Response 200 "paused"]))
         10 "upload-url" "secret" Demo.w0)
  = Err "unexpected status: paused".
Proof. vm_compute. reflexivity. Qed.

(** C8 fails on the polls: [pollOnce] never looks at the status code.  A poll
    answered 503 with a body that is no JSON document ends the run with the
    decoder's message, which has neither the code nor the body; a poll
    answered 500 with a document that has no status field leaves the status
    of the submission in place, and the loop goes on polling. *)
Lemma poll_ignores_status_code :
  (let '(code, w) :=
     Async.main
       (Demo.env 0 (scripted [Response 200 "upload-url"; Response 200 "queued";
                              Response 503 "Service Unavailable"]))
       10 ["transcribe"; "video.mp4"] Demo.w0 in
   code = Some 1
   /\ hd_error (trace w)
      = Some (EvStdout ("Error transcribing audio: "
                          +:+ "failed to parse polling response: invalid character"
                          +:+ newline)))
  /\ fst (Async.transcribeAudio
            (Demo.env 0 (scripted [Response 200 "queued"; Response 500 "no-status"]))
            10 "upload-url" "secret" Demo.w0)
     = Ok None.
Proof. split; vm_compute; [split |]; reflexivity. Qed.

(* ===================================================================== *)
(** ** What a run leaves in the trace *)
(* ===================================================================== *)

(** The files opened, the commands run, the requests sent and the temporary
    files created, as a list of events records them. *)
Definition opened (evs : list Event) : list string :=
  flat_map (fun ev => match ev with EvOpen path => [path] | _ => [] end) evs.

Definition commands (evs : list Event) : list Command :=
  flat_map (fun ev => match ev with EvRun cmd => [cmd] | _ => [] end) evs.

Definition requests (evs : list Event) : list Request :=
  flat_map (fun ev => match ev with EvHTTP req => [req] | _ => [] end) evs.

Definition temporaries (evs : list Event) : list string :=
  flat_map (fun ev => match ev with EvCreateTemp _ (Ok path) => [path] | _ => [] end) evs.

Definition written (evs : list Event) : list string :=
  flat_map (fun ev => match ev with EvWriteFile path _ => [path] | _ => [] end) evs.

(** One call of the synchronous client opens its audio file once, sends at
    most one request, runs no command and touches no temporary file. *)
Lemma transcribeAudioWith_effects fields env audioFile apiKey w :
  let w' := snd (transcribeAudioWith fields env audioFile apiKey w) in
  files w' = files w
  /\ exists evs, trace w' = evs ++ trace w
                 /\ opened evs = [audioFile]
                 /\ commands evs = []
                 /\ temporaries evs = []
                 /\ written evs = []
                 /\ (length (requests evs) <= 1)%nat.
Proof.
  unfold transcribeAudioWith, bind, ask, emit, http_Do, bind, ask, emit, ret, fail.
  simpl.
  destruct (open_file env (trace w) audioFile); simpl.
  2: { split; [reflexivity |]. exists [EvOpen audioFile]. simpl. repeat split; lia. }
  destruct (copy_file env _ audioFile); simpl.
  2: { split; [reflexivity |]. exists [EvOpen audioFile]. simpl. repeat split; lia. }
  match goal with
  | |- context [http_do env ?tr ?req] =>
      set (rq := req); destruct (http_do env tr rq) as [e | c e | c body]
  end; simpl.
  1,2: split; [reflexivity |]; exists [EvHTTP rq; EvOpen audioFile];
       simpl; repeat split; lia.
  destruct (negb (c =? 200)); simpl.
  { split; [reflexivity |]. exists [EvHTTP rq; EvOpen audioFile].
    simpl. repeat split; lia. }
  destruct (json_openai env body); simpl;
    (split; [reflexivity |]; exists [EvHTTP rq; EvOpen audioFile];
     simpl; repeat split; lia).
Qed.

(** C2.  When the measured duration is at most the threshold, the threshold
    itself included, the orchestrator is one call of the client on the whole
    file: the result, fragments and text, is the client's, nothing is shifted,
    the file is opened once, at most one request is sent, no command is run
    and no temporary file is created.  The chunked path is the other branch:
    it is taken when the duration exceeds the threshold, and only then. *)
Theorem single_call_within_threshold (env : Env) (mp3File apiKey : string)
    (duration : Q) (w : World) :
  ((duration <= inject_Z Chunked.maxDuration)%Q ->
   Chunked.transcribeByDuration env mp3File apiKey duration w
   = Chunked.transcribeAudio env mp3File apiKey
       (after (EvStdout ("Transcribing audio with speaker diarization..." +:+ newline)) w)
   /\ let w' := snd (Chunked.transcribeByDuration env mp3File apiKey duration w) in
      files w' = files w
      /\ exists evs,
           trace w' = evs ++ trace w
           /\ opened evs = [mp3File]
           /\ (length (requests evs) <= 1)%nat
           /\ commands evs = []
           /\ temporaries evs = [])
  /\ ((inject_Z Chunked.maxDuration < duration)%Q ->
      Chunked.transcribeByDuration env mp3File apiKey duration w
      = Chunked.transcribeAudioInChunks env mp3File apiKey duration
          (after (EvStdout ("Audio is " +:+ Chunked.fmt_f0 duration
                              +:+ " seconds, splitting into chunks..." +:+ newline)) w)).
Proof.
  split.
  - intros Hle. apply Qle_bool_iff in Hle.
    assert (E : Chunked.transcribeByDuration env mp3File apiKey duration w
                = Chunked.transcribeAudio env mp3File apiKey
                    (after (EvStdout ("Transcribing audio with speaker diarization..."
                                        +:+ newline)) w)).
    { unfold Chunked.transcribeByDuration. rewrite Hle. reflexivity. }
    split; [exact E |].
    rewrite E. unfold Chunked.transcribeAudio.
    match goal with
    | |- context [transcribeAudioWith ?f env mp3File apiKey ?w0] =>
        destruct (transcribeAudioWith_effects f env mp3File apiKey w0)
          as (Hf & evs & Ht & Ho & Hc & Htmp & Hw & Hr)
    end.
    cbv zeta. split; [rewrite Hf; reflexivity |].
    exists (evs ++ [EvStdout ("Transcribing audio with speaker diarization..." +:+ newline)]).
    rewrite Ht. unfold after. simpl trace.
    rewrite <- app_assoc. split; [reflexivity |].
    unfold opened, commands, temporaries, requests in *.
    rewrite !flat_map_app. simpl. rewrite !app_nil_r.
    repeat split; assumption.
  - intros Hlt.
    unfold Chunked.transcribeByDuration.
    destruct (Qle_bool duration (inject_Z Chunked.maxDuration)) eqn:E.
    + apply Qle_bool_iff in E. exfalso. apply (Qlt_not_le _ _ Hlt E).
    + reflexivity.
Qed.

(** A file of exactly 1400 seconds goes through the single call. *)
Lemma single_call_within_threshold_witness :
  Chunked.transcribeByDuration (Demo.env 1400 (scripted [Response 200 "two-segments"]))
    "audio.mp3" "secret" 1400 Demo.w0
  = Chunked.transcribeAudio (Demo.env 1400 (scripted [Response 200 "two-segments"]))
      "audio.mp3" "secret"
      (after (EvStdout ("Transcribing audio with speaker diarization..." +:+ newline))
         Demo.w0).
Proof.
  apply (single_call_within_threshold
           (Demo.env 1400 (scripted [Response 200 "two-segments"]))
           "audio.mp3" "secret" 1400 Demo.w0).
  vm_compute. discriminate.
Defined.

Example single_call_result :
  fst (Chunked.transcribeByDuration
         (Demo.env 1400 (scripted [Response 200 "two-segments"]))
         "audio.mp3" "secret" 1400 Demo.w0)
  = Ok Demo.twoSegments.
Proof. vm_compute. reflexivity. Qed.

(* ===================================================================== *)
(** ** Temporary chunk files *)
(* ===================================================================== *)

Lemma list_to_set_rev (l : list string) :
  (list_to_set (rev l) : gset string) = list_to_set l.
Proof.
  apply set_eq. intros x.
  rewrite !elem_of_list_to_set, !list_elem_of_In. symmetry. apply in_rev.
Qed.

Lemma remove_all_effects (chunks : list string) (w : World) :
  remove_all chunks w
  = (Ok tt, {| files := files w ∖ list_to_set chunks;
               trace := map EvRemove (rev chunks) ++ trace w |}).
Proof.
  revert w. induction chunks as [|c rest IH]; intros w.
  - unfold remove_all, ret. simpl. f_equal. destruct w as [f t]. simpl.
    f_equal. set_solver.
  - change (remove_all (c :: rest) w) with (remove_all rest (snd (os_Remove c w))).
    rewrite IH. unfold os_Remove. cbn [snd files trace]. f_equal. f_equal.
    + rewrite list_to_set_cons. set_solver.
    + cbn [rev]. rewrite map_app, <- app_assoc. reflexivity.
Qed.

Lemma temporaries_app (evs evs' : list Event) :
  temporaries (evs ++ evs') = temporaries evs ++ temporaries evs'.
Proof. apply flat_map_app. Qed.

Lemma commands_app (evs evs' : list Event) :
  commands (evs ++ evs') = commands evs ++ commands evs'.
Proof. apply flat_map_app. Qed.

Lemma temporaries_removals (l : list string) : temporaries (map EvRemove l) = [].
Proof. induction l as [|x l IH]; [reflexivity | exact IH]. Qed.

Lemma commands_removals (l : list string) : commands (map EvRemove l) = [].
Proof. induction l as [|x l IH]; [reflexivity | exact IH]. Qed.

(** The commands of the chunks [new], the first of them at index [i]. *)
Definition extractions (audioFile : string) (chunkDuration i : Z) (new : list string)
    : list Command :=
  imap (fun k chunkPath =>
          FFmpegExtract audioFile ((i + Z.of_nat k) * chunkDuration) chunkDuration chunkPath)
       new.

Lemma extractions_cons audioFile cd i path new :
  extractions audioFile cd i (path :: new)
  = FFmpegExtract audioFile (i * cd) cd path :: extractions audioFile cd (i + 1) new.
Proof.
  unfold extractions. rewrite imap_cons. f_equal.
  - f_equal. lia.
  - apply imap_ext. intros k x _. simpl. f_equal. lia.
Qed.

(** One turn of the loop of [splitAudioIntoChunks], spelled out. *)
Lemma splitLoop_turn env audioFile cd todo i chunks w :
  Chunked.splitLoop env audioFile cd (S todo) i chunks w
  = let pattern := "chunk-" +:+ fmt_d i +:+ "-*.mp3" in
    match create_temp env (trace w) pattern with
    | Err e =>
        (Err ("failed to create temp chunk file: " +:+ e),
         {| files := files w ∖ list_to_set chunks;
            trace := map EvRemove (rev chunks)
                       ++ EvCreateTemp pattern (Err e) :: trace w |})
    | Ok chunkPath =>
        let w1 := {| files := {[chunkPath]} ∪ files w;
                     trace := EvCreateTemp pattern (Ok chunkPath) :: trace w |} in
        let cmd := FFmpegExtract audioFile (i * cd) cd chunkPath in
        let r := run_cmd env (trace w1) cmd in
        match run_error r with
        | Some e =>
            (Err ("ffmpeg chunk extraction failed: " +:+ e +:+ newline
                    +:+ "Output: " +:+ proc_stderr r),
             {| files := (files w1 ∖ {[chunkPath]}) ∖ list_to_set chunks;
                trace := map EvRemove (rev chunks)
                           ++ EvRemove chunkPath :: EvRun cmd :: trace w1 |})
        | None =>
            Chunked.splitLoop env audioFile cd todo (i + 1) (chunks ++ [chunkPath])
              (after (EvRun cmd) w1)
        end
    end.
Proof.
  cbn [Chunked.splitLoop]. cbv zeta.
  unfold bind at 1. unfold os_CreateTemp at 1.
  destruct (create_temp env (trace w) ("chunk-" +:+ fmt_d i +:+ "-*.mp3"))
    as [chunkPath | e].
  - unfold bind at 1. unfold exec_Run, bind, ask, emit, ret. cbn [fst snd files trace].
    destruct (run_error _); [| reflexivity].
    unfold os_Remove at 1. rewrite remove_all_effects. reflexivity.
  - unfold bind. rewrite remove_all_effects. reflexivity.
Qed.

(** The loop of [splitAudioIntoChunks].  When it returns the chunks, one
    temporary file was created and one extraction run per turn, in order, and
    these files are there; when it fails, every file it created and every
    chunk it was given is removed. *)
Lemma splitLoop_effects env audioFile cd todo :
  forall i chunks w r w',
    Chunked.splitLoop env audioFile cd todo i chunks w = (r, w') ->
    exists evs,
      trace w' = evs ++ trace w
      /\ match r with
         | Ok chunks' =>
             exists new,
               chunks' = chunks ++ new
               /\ length new = todo
               /\ temporaries evs = rev new
               /\ commands evs = rev (extractions audioFile cd i new)
               /\ files w' = files w ∪ list_to_set new
         | Err _ =>
             files w'
             = files w ∖ (list_to_set chunks ∪ list_to_set (temporaries evs))
         end.
Proof.
  induction todo as [|todo IH]; intros i chunks w r w' Hrun.
  - injection Hrun as <- <-. exists []. split; [reflexivity |].
    exists []. rewrite app_nil_r. repeat split. set_solver.
  - rewrite splitLoop_turn in Hrun. cbv zeta in Hrun.
    destruct (create_temp env (trace w) ("chunk-" +:+ fmt_d i +:+ "-*.mp3"))
      as [chunkPath | e].
    + destruct (run_error _) as [e |] in Hrun.
      * injection Hrun as <- <-. cbn [files trace].
        eexists (map EvRemove (rev chunks)
                   ++ [EvRemove chunkPath; EvRun _; EvCreateTemp _ (Ok chunkPath)]).
        split; [rewrite <- app_assoc; reflexivity |].
        rewrite temporaries_app, temporaries_removals. simpl.
        set_solver.
      * apply IH in Hrun. destruct Hrun as (evs & Ht & Hr).
        cbn [after files trace] in Ht, Hr.
        eexists (evs ++ [EvRun _; EvCreateTemp _ (Ok chunkPath)]).
        split; [rewrite Ht, <- app_assoc; reflexivity |].
        destruct r as [chunks' | msg].
        -- destruct Hr as (new & -> & Hlen & Htemps & Hcmds & Hfiles).
           exists (chunkPath :: new).
           split; [now rewrite <- app_assoc |].
           split; [simpl; now rewrite Hlen |].
           rewrite temporaries_app, commands_app, Htemps, Hcmds.
           rewrite extractions_cons. cbn [rev].
           split; [reflexivity |]. split; [reflexivity |].
           rewrite Hfiles, list_to_set_cons. set_solver.
        -- rewrite Hr, temporaries_app. simpl.
           rewrite !list_to_set_app_L. simpl.
           set_solver.
    + injection Hrun as <- <-. cbn [files trace].
      eexists (map EvRemove (rev chunks) ++ [EvCreateTemp _ (Err e)]).
      split; [rewrite <- app_assoc; reflexivity |].
      rewrite temporaries_app, temporaries_removals. simpl.
      set_solver.
Qed.

Lemma getAudioDuration_run env audioFile w :
  Chunked.getAudioDuration env audioFile w
  = let r := run_cmd env (trace w) (FFprobeDuration audioFile) in
    let w1 := after (EvRun (FFprobeDuration audioFile)) w in
    match run_error r with
    | Some e => (Err ("ffprobe failed: " +:+ e), w1)
    | None =>
        match Sscanf_f env (TrimSpace (proc_stdout r)) with
        | Err e => (Err ("failed to parse duration: " +:+ e), w1)
        | Ok duration => (Ok duration, w1)
        end
    end.
Proof.
  unfold Chunked.getAudioDuration, exec_Run, bind, ask, emit, ret, fail.
  cbn [fst snd files trace]. cbv zeta.
  destruct (run_error _); [reflexivity |].
  destruct (Sscanf_f env _); reflexivity.
Qed.

(** One turn of the loop over the chunks, spelled out. *)
Lemma transcribeLoop_turn env apiKey total i chunk rest st w :
  Chunked.transcribeLoop env apiKey total i (chunk :: rest) st w
  = let w1 := after (EvStdout ("Transcribing chunk " +:+ fmt_d (i + 1) +:+ "/"
                                 +:+ fmt_d (Z.of_nat total) +:+ "..." +:+ newline)) w in
    match Chunked.transcribeAudio env chunk apiKey w1 with
    | (Err e, w2) =>
        (Err ("failed to transcribe chunk " +:+ fmt_d i +:+ ": " +:+ e), w2)
    | (Ok transcription, w2) =>
        Chunked.transcribeLoop env apiKey total (i + 1) rest
          (Chunked.mergeChunk st transcription) w2
    end.
Proof.
  cbn [Chunked.transcribeLoop]. unfold bind, attempt, Print, emit.
  cbn [fst snd files trace]. cbv zeta. unfold after.
  destruct (Chunked.transcribeAudio env chunk apiKey _) as [[t | e] w2]; reflexivity.
Qed.

(** The loop over the chunks creates and removes no file and runs no command;
    when it fails, the message names the chunk that failed. *)
Lemma transcribeLoop_effects env apiKey total chunks :
  forall i st w r w',
    Chunked.transcribeLoop env apiKey total i chunks st w = (r, w') ->
    files w' = files w
    /\ (exists evs, trace w' = evs ++ trace w
                    /\ temporaries evs = [] /\ commands evs = [])
    /\ match r with
       | Ok _ => True
       | Err msg =>
           exists (k : nat) (e : string),
             (k < length chunks)%nat
             /\ msg = "failed to transcribe chunk " +:+ fmt_d (i + Z.of_nat k)
                        +:+ ": " +:+ e
       end.
Proof.
  induction chunks as [|chunk rest IH]; intros i st w r w' Hrun.
  - injection Hrun as <- <-. split; [reflexivity |].
    split; [exists []; repeat split | exact I].
  - rewrite transcribeLoop_turn in Hrun. cbv zeta in Hrun.
    unfold Chunked.transcribeAudio in Hrun.
    match type of Hrun with
    | context [transcribeAudioWith ?f env chunk apiKey ?w1] =>
        pose proof (transcribeAudioWith_effects f env chunk apiKey w1) as Heff;
        destruct (transcribeAudioWith f env chunk apiKey w1) as [[t | e] w2]
    end;
      cbv zeta in Heff; cbn [snd after files trace] in Heff;
      destruct Heff as (Hf & evs & Ht & _ & Hc & Htmp & _).
    + apply IH in Hrun. destruct Hrun as (Hf' & (evs' & Ht' & Htmp' & Hc') & Hr).
      split; [congruence |].
      split.
      * exists (evs' ++ evs ++ [EvStdout ("Transcribing chunk " +:+ fmt_d (i + 1) +:+ "/"
                                     +:+ fmt_d (Z.of_nat total) +:+ "..." +:+ newline)]).
        rewrite Ht', Ht, <- !app_assoc. split; [reflexivity |].
        rewrite !temporaries_app, !commands_app, Htmp, Htmp', Hc, Hc'. split; reflexivity.
      * destruct r as [| msg]; [exact I |].
        destruct Hr as (k & e & Hk & ->). exists (S k), e.
        split; [simpl; lia |]. do 3 f_equal. lia.
    + injection Hrun as <- <-. split; [exact Hf |].
      split.
      * exists (evs ++ [EvStdout ("Transcribing chunk " +:+ fmt_d (i + 1) +:+ "/"
                                     +:+ fmt_d (Z.of_nat total) +:+ "..." +:+ newline)]).
        rewrite Ht, <- app_assoc. split; [reflexivity |].
        rewrite temporaries_app, commands_app, Htmp, Hc. split; reflexivity.
      * exists O, e. split; [simpl; lia |]. do 3 f_equal. lia.
Qed.

(** [transcribeAudioInChunks], spelled out: the split, then the loop with the
    deferred removal of the chunks. *)
Lemma transcribeAudioInChunks_run env audioFile apiKey duration w :
  Chunked.transcribeAudioInChunks env audioFile apiKey duration w
  = match Chunked.splitAudioIntoChunks env audioFile Chunked.chunkDuration w with
    | (Err e, w1) => (Err e, w1)
    | (Ok chunks, w1) =>
        let w2 := after (EvStdout ("Split into " +:+ fmt_d (Z.of_nat (length chunks))
                                     +:+ " chunks" +:+ newline)) w1 in
        match Chunked.transcribeLoop env apiKey (length chunks) 0 chunks
                {| Chunked.chunkSegments := []; Chunked.allSegments := [];
                   Chunked.fullText := ""; Chunked.timeOffset := 0 |} w2 with
        | (r, w3) =>
            (match r with
             | Ok st => Ok {| OpenAI.RText := TrimSpace (Chunked.fullText st);
                              OpenAI.Segments := Chunked.allSegments st |}
             | Err e => Err e
             end,
             {| files := files w3 ∖ list_to_set chunks;
                trace := map EvRemove (rev chunks) ++ trace w3 |})
        end
    end.
Proof.
  unfold Chunked.transcribeAudioInChunks. unfold bind at 1.
  destruct (Chunked.splitAudioIntoChunks env audioFile Chunked.chunkDuration w)
    as [[chunks | e] w1]; [| reflexivity].
  unfold defer, bind, Print, emit, ret. cbn [fst snd files trace]. cbv zeta. unfold after.
  destruct (Chunked.transcribeLoop env apiKey (length chunks) 0 chunks _ _)
    as [[st | e] w3]; rewrite remove_all_effects; reflexivity.
Qed.

(** C9.  Whatever [transcribeAudioInChunks] returns, every temporary file
    created during the call has been removed when it returns: the files left
    are the files there were before, less the created ones.  This covers the
    success, the failure to create or extract a chunk (the chunk at hand and
    the earlier ones are removed) and the failure of one transcription (the
    deferred removal runs).  In the last case the message names the chunk:
    an error is either the error of the split or
    [failed to transcribe chunk k: ...]. *)
Theorem chunk_files_removed (env : Env) (audioFile apiKey : string)
    (duration : Q) (w : World) :
  let '(r, w') := Chunked.transcribeAudioInChunks env audioFile apiKey duration w in
  exists evs,
    trace w' = evs ++ trace w
    /\ files w' = files w ∖ list_to_set (temporaries evs)
    /\ (forall path, path ∈ temporaries evs -> path ∉ files w')
    /\ match r with
       | Ok _ => True
       | Err msg =>
           fst (Chunked.splitAudioIntoChunks env audioFile Chunked.chunkDuration w)
             = Err msg
           \/ exists (k : nat) (e : string),
                msg = "failed to transcribe chunk " +:+ fmt_d (Z.of_nat k) +:+ ": " +:+ e
       end.
Proof.
  rewrite transcribeAudioInChunks_run.
  assert (Hin : forall (evs : list Event) (f f' : gset string),
             f' = f ∖ list_to_set (temporaries evs) ->
             forall path, path ∈ temporaries evs -> path ∉ f').
  { intros evs f f' -> path Hp. set_solver. }
  unfold Chunked.splitAudioIntoChunks, bind.
  rewrite getAudioDuration_run. cbv zeta.
  destruct (run_error _) as [e |].
  { exists [EvRun (FFprobeDuration audioFile)]. cbn.
    split; [reflexivity |]. split; [set_solver |]. split; [set_solver |].
    left. reflexivity. }
  destruct (Sscanf_f env _) as [measured | e].
  2: { exists [EvRun (FFprobeDuration audioFile)]. cbn.
       split; [reflexivity |]. split; [set_solver |]. split; [set_solver |].
       left. reflexivity. }
  unfold Chunked.splitChunks.
  destruct (Chunked.splitLoop env audioFile Chunked.chunkDuration _ 0 [] _)
    as [[chunks | e] w1] eqn:Hsplit;
    apply splitLoop_effects in Hsplit; destruct Hsplit as (evs1 & Ht1 & Hr1);
    cbn [after files trace] in Ht1, Hr1.
  - destruct Hr1 as (new & Hnew & _ & Htemps & _ & Hfiles). simpl in Hnew. subst new.
    cbv zeta.
    destruct (Chunked.transcribeLoop env apiKey (length chunks) 0 chunks _ _)
      as [r w3] eqn:Hloop.
    apply transcribeLoop_effects in Hloop.
    destruct Hloop as (Hf3 & (evs3 & Ht3 & Htmp3 & _) & Hr3).
    cbn [after files trace] in Hf3, Ht3.
    exists (map EvRemove (rev chunks) ++ evs3
              ++ [EvStdout ("Split into " +:+ fmt_d (Z.of_nat (length chunks))
                              +:+ " chunks" +:+ newline)]
              ++ evs1 ++ [EvRun (FFprobeDuration audioFile)]).
    cbn [files trace].
    assert (Htemps_all :
              temporaries
                (map EvRemove (rev chunks) ++ evs3
                   ++ [EvStdout ("Split into " +:+ fmt_d (Z.of_nat (length chunks))
                                   +:+ " chunks" +:+ newline)]
                   ++ evs1 ++ [EvRun (FFprobeDuration audioFile)])
              = rev chunks).
    { rewrite !temporaries_app, temporaries_removals, Htmp3, Htemps. simpl.
      now rewrite app_nil_r. }
    assert (Hfiles_all :
              files w3 ∖ list_to_set chunks
              = files w ∖ list_to_set (rev chunks)).
    { rewrite Hf3, Hfiles, list_to_set_rev. set_solver. }
    split; [rewrite Ht3, Ht1, <- !app_assoc; reflexivity |].
    rewrite Htemps_all.
    split; [exact Hfiles_all |].
    split; [intros path Hp; rewrite Hfiles_all; set_solver |].
    destruct r as [st | msg]; [exact I |].
    right. destruct Hr3 as (k & e & _ & ->). exists k, e. reflexivity.
  - exists (evs1 ++ [EvRun (FFprobeDuration audioFile)]).
    split; [rewrite Ht1, <- app_assoc; reflexivity |].
    rewrite temporaries_app. simpl. rewrite app_nil_r.
    assert (Hfiles : files w1 = files w ∖ list_to_set (temporaries evs1)).
    { rewrite Hr1. set_solver. }
    split; [exact Hfiles |].
    split; [intros path Hp; rewrite Hfiles; set_solver |].
    left. reflexivity.
Qed.

Example chunk_failure_mid_loop :
  let '(r, w') :=
    Chunked.transcribeAudioInChunks
      (Demo.env (5001 # 2) (scripted [Response 200 "two-segments"; Response 500 "overloaded"]))
      "audio.mp3" "secret" (5001 # 2) Demo.w0 in
  r = Err "failed to transcribe chunk 1: API request failed with status 500: overloaded"
  /\ elements (files w') = []
  /\ length (temporaries (trace w')) = 3%nat.
Proof. vm_compute. repeat split. Qed.

(* ===================================================================== *)
(** ** Integers of floats *)
(* ===================================================================== *)

Lemma Qfloor_unique (x : Q) (q : Z) :
  (inject_Z q <= x)%Q -> (x < inject_Z (q + 1))%Q -> Qfloor x = q.
Proof.
  intros Hle Hlt.
  apply Z.le_antisymm.
  - assert (H : (inject_Z (Qfloor x) < inject_Z (q + 1))%Q).
    { eapply Qle_lt_trans; [apply Qfloor_le | exact Hlt]. }
    rewrite <- Zlt_Qlt in H. lia.
  - rewrite <- (Qfloor_Z q). now apply Qfloor_resp_le.
Qed.

Lemma Qfloor_nonneg (x : Q) : (0 <= x)%Q -> 0 <= Qfloor x.
Proof. intros H. rewrite <- (Qfloor_Z 0). now apply Qfloor_resp_le. Qed.

Lemma trunc_nonneg (x : Q) : (0 <= x)%Q -> Float64.trunc x = Qfloor x.
Proof. intros H. unfold Float64.trunc. apply Qle_bool_iff in H. now rewrite H. Qed.

(** Within the range of int64 the conversion is the truncation. *)
Lemma to_int_nonneg (x : Q) :
  (0 <= x)%Q -> (x < inject_Z (2 ^ 63))%Q -> Float64.to_int x = Qfloor x.
Proof.
  intros H0 H1. unfold Float64.to_int. rewrite trunc_nonneg by assumption.
  pose proof (Qfloor_nonneg x H0) as Hlo.
  assert (Hhi : Qfloor x < 2 ^ 63).
  { rewrite Zlt_Qlt. eapply Qle_lt_trans; [apply Qfloor_le | exact H1]. }
  destruct (Z.leb_spec (- 2 ^ 63) (Qfloor x)); [| lia].
  destruct (Z.ltb_spec (Qfloor x) (2 ^ 63)); [| lia]. reflexivity.
Qed.

(** The whole part of a quotient by a positive integer is the quotient of the
    whole part. *)
Lemma Qfloor_div_pos (x : Q) (c : Z) :
  0 < c -> Qfloor (x / inject_Z c) = Qfloor x / c.
Proof.
  intros Hc.
  assert (Hcq : (0 < inject_Z c)%Q) by (change 0%Q with (inject_Z 0); now rewrite <- Zlt_Qlt).
  assert (Hcne : ~ (inject_Z c == 0)%Q) by (intros E; rewrite E in Hcq; discriminate).
  pose proof (Z.div_mod (Qfloor x) c ltac:(lia)) as Hdm.
  pose proof (Z.mod_pos_bound (Qfloor x) c Hc) as Hmod.
  set (q := Qfloor x / c) in *.
  pose proof (Qfloor_le x) as Hfl. pose proof (Qlt_floor x) as Hfu.
  apply Qfloor_unique.
  - apply Qle_shift_div_l; [exact Hcq |].
    rewrite <- inject_Z_mult. eapply Qle_trans; [| exact Hfl].
    rewrite <- Zle_Qle. lia.
  - apply Qlt_shift_div_r; [exact Hcq |].
    rewrite <- inject_Z_mult. eapply Qlt_le_trans; [exact Hfu |].
    rewrite <- Zle_Qle. lia.
Qed.

(* ===================================================================== *)
(** ** The chunk plan *)
(* ===================================================================== *)

(** The plan: start and nominal length, in seconds, of every chunk the loop
    of [splitAudioIntoChunks] asks for. *)
Definition chunkPlan (duration : Q) : list (Z * Z) :=
  map (fun i => (i * Chunked.chunkDuration, Chunked.chunkDuration))
      (seqZ 0 (Chunked.numChunksOf duration Chunked.chunkDuration)).

(** The start and length of the extractions in a list of commands. *)
Definition planOf (cmds : list Command) : list (Z * Z) :=
  flat_map (fun cmd => match cmd with
                       | FFmpegExtract _ startTime duration _ => [(startTime, duration)]
                       | _ => []
                       end) cmds.

Lemma planOf_extractions audioFile cd new :
  forall i,
    planOf (extractions audioFile cd i new)
    = map (fun k => (k * cd, cd)) (seqZ i (Z.of_nat (length new))).
Proof.
  induction new as [|path new IH]; intros i.
  - reflexivity.
  - rewrite extractions_cons. cbn [planOf flat_map app]. fold (planOf (extractions audioFile cd (i + 1) new)).
    rewrite IH, (seqZ_cons i) by (simpl; lia).
    cbn [map]. do 3 f_equal; simpl; lia.
Qed.

Lemma numChunks_floor (duration : Q) :
  (0 <= duration)%Q -> (duration < inject_Z (2 ^ 63))%Q ->
  Chunked.numChunksOf duration Chunked.chunkDuration
  = Qfloor (duration / inject_Z Chunked.chunkDuration) + 1.
Proof.
  intros H0 H1. unfold Chunked.numChunksOf.
  rewrite to_int_nonneg by assumption.
  rewrite Qfloor_div_pos by reflexivity.
  rewrite Z.quot_div_nonneg; [reflexivity | now apply Qfloor_nonneg | reflexivity].
Qed.

(** Bounds of a quotient by the chunk length. *)
Lemma floor_chunk_bounds (t : Q) :
  let q := Qfloor (t / inject_Z Chunked.chunkDuration) in
  (inject_Z (q * Chunked.chunkDuration) <= t)%Q
  /\ (t < inject_Z ((q + 1) * Chunked.chunkDuration))%Q.
Proof.
  cbv zeta. unfold Chunked.chunkDuration.
  pose proof (Qfloor_le (t / inject_Z 1200)) as Hl.
  pose proof (Qlt_floor (t / inject_Z 1200)) as Hu.
  set (q := Qfloor (t / inject_Z 1200)) in *.
  rewrite !inject_Z_mult, inject_Z_plus in *.
  assert (E : (t == (t / inject_Z 1200) * inject_Z 1200)%Q) by (field; discriminate).
  change (inject_Z 1200) with (1200 # 1)%Q in *. change (inject_Z 1) with 1%Q in *.
  split; lra.
Qed.

(** When temporary files can be created and the commands succeed, the loop
    of [splitAudioIntoChunks] returns its chunks. *)
Lemma splitLoop_succeeds env audioFile cd :
  (forall tr pattern, exists path, create_temp env tr pattern = Ok path) ->
  (forall tr cmd, run_error (run_cmd env tr cmd) = None) ->
  forall todo i chunks w,
    exists chunks' w',
      Chunked.splitLoop env audioFile cd todo i chunks w = (Ok chunks', w').
Proof.
  intros Hcreate Hrun. induction todo as [|todo IH]; intros i chunks w.
  - exists chunks, w. reflexivity.
  - rewrite splitLoop_turn. cbv zeta.
    destruct (Hcreate (trace w) ("chunk-" +:+ fmt_d i +:+ "-*.mp3")) as [path ->].
    rewrite Hrun. apply IH.
Qed.

(** The extractions the loop has asked for when it stops: those of the first
    [k] turns, all of them when it returns the chunks. *)
Lemma splitLoop_asked env audioFile cd todo :
  forall i chunks w r w',
    Chunked.splitLoop env audioFile cd todo i chunks w = (r, w') ->
    exists evs (k : nat),
      trace w' = evs ++ trace w
      /\ (k <= todo)%nat
      /\ planOf (rev (commands evs)) = map (fun j => (j * cd, cd)) (seqZ i (Z.of_nat k))
      /\ match r with
         | Ok chunks' => k = todo /\ length chunks' = (length chunks + todo)%nat
         | Err _ => True
         end.
Proof.
  induction todo as [|todo IH]; intros i chunks w r w' Hrun.
  - injection Hrun as <- <-. exists [], 0%nat. repeat split; try reflexivity; lia.
  - rewrite splitLoop_turn in Hrun. cbv zeta in Hrun.
    destruct (create_temp env (trace w) ("chunk-" +:+ fmt_d i +:+ "-*.mp3"))
      as [chunkPath | e].
    + destruct (run_error _) as [e |] in Hrun.
      * injection Hrun as <- <-. cbn [files trace].
        eexists (map EvRemove (rev chunks)
                   ++ [EvRemove chunkPath; EvRun _; EvCreateTemp _ (Ok chunkPath)]),
                1%nat.
        split; [rewrite <- app_assoc; reflexivity |].
        split; [lia |]. split; [| exact I].
        rewrite commands_app, commands_removals. reflexivity.
      * apply IH in Hrun. destruct Hrun as (evs & k & Ht & Hk & Hplan & Hr).
        cbn [after files trace] in Ht.
        eexists (evs ++ [EvRun _; EvCreateTemp _ (Ok chunkPath)]), (S k).
        split; [rewrite Ht, <- app_assoc; reflexivity |].
        split; [lia |]. split.
        -- rewrite commands_app, rev_app_distr. cbn [commands flat_map app rev planOf].
           fold (planOf (rev (commands evs))). rewrite Hplan.
           rewrite (seqZ_cons i) by lia. cbn [map].
           do 3 f_equal; lia.
        -- destruct r as [chunks' | msg]; [| exact I].
           destruct Hr as [-> Hlen]. split; [reflexivity |].
           rewrite Hlen, length_app. simpl. lia.
    + injection Hrun as <- <-. cbn [files trace].
      eexists (map EvRemove (rev chunks) ++ [EvCreateTemp _ (Err e)]), 0%nat.
      split; [rewrite <- app_assoc; reflexivity |].
      split; [lia |]. split; [| exact I].
      rewrite commands_app, commands_removals. reflexivity.
Qed.

Lemma splitAudioIntoChunks_measured env audioFile cd duration w :
  run_error (run_cmd env (trace w) (FFprobeDuration audioFile)) = None ->
  Sscanf_f env (TrimSpace (proc_stdout (run_cmd env (trace w) (FFprobeDuration audioFile))))
  = Ok duration ->
  Chunked.splitAudioIntoChunks env audioFile cd w
  = Chunked.splitChunks env audioFile cd duration
      (after (EvRun (FFprobeDuration audioFile)) w).
Proof.
  intros Hrun Hscan. unfold Chunked.splitAudioIntoChunks. unfold bind at 1.
  rewrite getAudioDuration_run. cbv zeta. rewrite Hrun, Hscan. reflexivity.
Qed.

Lemma take_seqZ_prefix (k : nat) (m n : Z) :
  Z.of_nat k <= n -> take k (seqZ m n) = seqZ m (Z.of_nat k).
Proof.
  intros H. replace n with (Z.of_nat k + (n - Z.of_nat k)) by lia.
  rewrite seqZ_app by lia. apply take_app_length'. rewrite length_seqZ. lia.
Qed.

(** C1, as stated, fails for a duration beyond the range of int: the
    conversion [int(duration)] then gives the least integer, the count is
    negative, the loop does not run and [splitAudioIntoChunks] returns no
    chunk at all, without an error.  And the length the code asks for is the
    chunk length for every chunk, the last one too: the code never computes
    what is left of the file. *)
Lemma chunk_plan_out_of_range :
  (inject_Z Chunked.maxDuration < inject_Z (10 ^ 19))%Q
  /\ Qfloor (inject_Z (10 ^ 19) / inject_Z Chunked.chunkDuration) + 1 = 8333333333333334
  /\ Chunked.numChunksOf (inject_Z (10 ^ 19)) Chunked.chunkDuration = -7686143364045645
  /\ chunkPlan (inject_Z (10 ^ 19)) = []
  /\ fst (Chunked.splitChunks (Demo.env (inject_Z (10 ^ 19)) (scripted [])) "audio.mp3"
            Chunked.chunkDuration (inject_Z (10 ^ 19)) Demo.w0) = Ok []
  /\ fst (Chunked.splitAudioIntoChunks (Demo.env (inject_Z (10 ^ 19)) (scripted []))
            "audio.mp3" Chunked.chunkDuration Demo.w0) = Ok []
  /\ last (chunkPlan (5001 # 2)) = Some (2400, 1200).
Proof. repeat split; vm_compute; reflexivity. Qed.

(** C1, amended.  For a duration above the threshold and below 2^63, the
    count [numChunks] is floor(D / chunkLength) + 1, at least 2, and the plan
    has that many entries; entry i asks for the range that starts at
    i * chunkLength, of nominal length chunkLength, the last entry too.  So
    each range ends where the next one starts, the first starts at 0, the
    last starts at or before D and would end after D: every instant of
    [0, D] lies in exactly one of the ranges, and what the file holds from
    the last start on is D - (count - 1) * chunkLength, less than a chunk
    length.  Whatever happens, the loop of [splitAudioIntoChunks] has asked
    for the first entries of the plan, in order, and for nothing else; when
    it returns, it has asked for all of them and returns as many chunks; it
    does return when the temporary files can be created and the commands
    succeed.  [splitAudioIntoChunks] is that loop for the duration it has
    measured. *)
Theorem chunk_plan_covers (duration : Q) :
  (inject_Z Chunked.maxDuration < duration)%Q ->
  (duration < inject_Z (2 ^ 63))%Q ->
  let L := Chunked.chunkDuration in
  let n := Qfloor (duration / inject_Z L) + 1 in
  let plan := chunkPlan duration in
  Chunked.numChunksOf duration L = n
  /\ 2 <= n
  /\ Z.of_nat (length plan) = n
  /\ (forall i, 0 <= i < n -> plan !! Z.to_nat i = Some (i * L, L))
  /\ (forall i a b, 0 <= i < n - 1 ->
        plan !! Z.to_nat i = Some a -> plan !! Z.to_nat (i + 1) = Some b ->
        fst a + snd a = fst b)
  /\ head plan = Some (0, L)
  /\ last plan = Some ((n - 1) * L, L)
  /\ (inject_Z ((n - 1) * L) <= duration < inject_Z ((n - 1) * L + L))%Q
  /\ (forall t : Q, (0 <= t <= duration)%Q ->
        exists i, 0 <= i < n
                  /\ plan !! Z.to_nat i = Some (i * L, L)
                  /\ (inject_Z (i * L) <= t < inject_Z (i * L + L))%Q
                  /\ forall j, (inject_Z (j * L) <= t < inject_Z (j * L + L))%Q -> j = i)
  /\ (forall env audioFile w,
        (let '(r, w') := Chunked.splitChunks env audioFile L duration w in
         exists evs (k : nat),
           trace w' = evs ++ trace w
           /\ planOf (rev (commands evs)) = take k plan
           /\ match r with
              | Ok chunks => Z.of_nat (length chunks) = n /\ take k plan = plan
              | Err _ => True
              end)
        /\ ((forall tr pattern, exists path, create_temp env tr pattern = Ok path) ->
            (forall tr cmd, run_error (run_cmd env tr cmd) = None) ->
            exists chunks w',
              Chunked.splitChunks env audioFile L duration w = (Ok chunks, w')
              /\ Z.of_nat (length chunks) = n)
        /\ (run_error (run_cmd env (trace w) (FFprobeDuration audioFile)) = None ->
            Sscanf_f env
              (TrimSpace (proc_stdout (run_cmd env (trace w) (FFprobeDuration audioFile))))
            = Ok duration ->
            Chunked.splitAudioIntoChunks env audioFile L w
            = Chunked.splitChunks env audioFile L duration
                (after (EvRun (FFprobeDuration audioFile)) w))).
Proof.
  intros Hmin Hmax L n plan.
  assert (H0 : (0 <= duration)%Q).
  { apply Qlt_le_weak. eapply Qle_lt_trans; [| exact Hmin]. discriminate. }
  pose proof (numChunks_floor duration H0 Hmax) as Hn. fold L n in Hn.
  destruct (floor_chunk_bounds duration) as [Hlo Hhi]. fold L in Hlo, Hhi.
  replace (Qfloor (duration / inject_Z L)) with (n - 1) in Hlo, Hhi
    by (unfold n; lia).
  assert (Hn2 : 2 <= n).
  { assert (H : 1 <= Qfloor (duration / inject_Z L)); [| unfold n; lia].
    rewrite <- (Qfloor_Z 1). apply Qfloor_resp_le.
    apply Qle_shift_div_l; [reflexivity |].
    apply Qlt_le_weak. eapply Qle_lt_trans; [| exact Hmin]. discriminate. }
  assert (Hlen : Z.of_nat (length plan) = n).
  { unfold plan, chunkPlan. fold L. rewrite length_map, length_seqZ, Hn. lia. }
  assert (Hlook : forall i, 0 <= i < n -> plan !! Z.to_nat i = Some (i * L, L)).
  { intros i Hi. unfold plan, chunkPlan. fold L.
    rewrite list_lookup_fmap, lookup_seqZ_lt by (rewrite Hn; lia).
    simpl. do 3 f_equal; lia. }
  split; [exact Hn |]. split; [exact Hn2 |]. split; [exact Hlen |].
  split; [exact Hlook |].
  split.
  { intros i a b Hi Ha Hb.
    rewrite Hlook in Ha by lia. rewrite Hlook in Hb by lia.
    injection Ha as <-. injection Hb as <-. simpl. lia. }
  split.
  { rewrite head_lookup. apply (Hlook 0). lia. }
  split.
  { rewrite last_lookup.
    replace (Nat.pred (length plan)) with (Z.to_nat (n - 1)) by lia.
    apply Hlook. lia. }
  split.
  { split; [exact Hlo |].
    replace ((n - 1) * L + L) with ((n - 1 + 1) * L) by lia. exact Hhi. }
  split.
  { intros t [Ht0 HtD].
    destruct (floor_chunk_bounds t) as [Htl Htu]. fold L in Htl, Htu.
    set (i := Qfloor (t / inject_Z L)) in *.
    assert (Hi0 : 0 <= i).
    { apply Qfloor_nonneg. apply Qle_shift_div_l; [reflexivity |]. now rewrite Qmult_0_l. }
    assert (Hin : i < n).
    { assert (H : (inject_Z (i * L) < inject_Z ((n - 1 + 1) * L))%Q)
        by (eapply Qle_lt_trans; [exact Htl |]; eapply Qle_lt_trans; eassumption).
      rewrite <- Zlt_Qlt in H. unfold L, Chunked.chunkDuration in H. lia. }
    exists i. split; [lia |]. split; [apply Hlook; lia |].
    replace (i * L + L) with ((i + 1) * L) by lia.
    split; [split; assumption |].
    intros j [Hjl Hju].
    assert (H1 : (inject_Z (j * L) < inject_Z ((i + 1) * L))%Q)
      by (eapply Qle_lt_trans; eassumption).
    assert (H2 : (inject_Z (i * L) < inject_Z (j * L + L))%Q)
      by (eapply Qle_lt_trans; eassumption).
    rewrite <- Zlt_Qlt in H1, H2. unfold L, Chunked.chunkDuration in H1, H2. lia. }
  intros env audioFile w.
  split; [| split].
  - unfold Chunked.splitChunks.
    destruct (Chunked.splitLoop env audioFile L _ 0 [] w) as [r w'] eqn:Hrun.
    apply splitLoop_asked in Hrun. destruct Hrun as (evs & k & Ht & Hk & Hplan & Hr).
    exists evs, k. split; [exact Ht |].
    assert (Htake : take k plan = map (fun j => (j * L, L)) (seqZ 0 (Z.of_nat k))).
    { unfold plan, chunkPlan. fold L. rewrite <- fmap_take.
      f_equal. apply take_seqZ_prefix. rewrite Hn. lia. }
    split; [rewrite Htake; exact Hplan |].
    destruct r as [chunks | msg]; [| exact I].
    destruct Hr as [-> Hl]. split; [rewrite Hl; simpl; lia |].
    apply take_ge. lia.
  - intros Hcreate Hrun. unfold Chunked.splitChunks.
    destruct (splitLoop_succeeds env audioFile L Hcreate Hrun
                (Z.to_nat (Chunked.numChunksOf duration L)) 0 [] w)
      as (chunks & w' & Hloop).
    exists chunks, w'. split; [exact Hloop |].
    apply splitLoop_asked in Hloop. destruct Hloop as (_ & k & _ & _ & _ & _ & Hl).
    rewrite Hl. simpl. lia.
  - apply splitAudioIntoChunks_measured.
Qed.

Lemma chunk_plan_covers_witness :
  chunkPlan (5001 # 2) = [(0, 1200); (1200, 1200); (2400, 1200)]
  /\ exists chunks w',
       Chunked.splitChunks (Demo.env (5001 # 2) (scripted [])) "audio.mp3"
         Chunked.chunkDuration (5001 # 2) Demo.w0 = (Ok chunks, w')
       /\ Z.of_nat (length chunks) = 3.
Proof.
  split; [reflexivity |].
  refine (proj1 (proj2 (proj2 (proj2 (proj2 (proj2 (proj2 (proj2 (proj2 (proj2 (proj2
            (chunk_plan_covers (5001 # 2) _ _)))))))))
            (Demo.env (5001 # 2) (scripted [])) "audio.mp3" Demo.w0)) _ _).
  - reflexivity.
  - reflexivity.
  - intros tr pattern. eexists. reflexivity.
  - intros tr cmd. reflexivity.
Defined.

(** A file of exactly two chunk lengths gets a third chunk, asked for at its
    very end. *)
Example chunk_plan_exact_multiple :
  chunkPlan 2400 = [(0, 1200); (1200, 1200); (2400, 1200)].
Proof. reflexivity. Qed.

(* ===================================================================== *)
(** ** Rounding to binary64 *)
(* ===================================================================== *)

Section Float64Facts.
Import Float64.
Local Open Scope Q_scope.

Lemma P2_pos e : 0 < P2 e.
Proof. apply Qpower_0_lt. reflexivity. Qed.

Lemma P2_add a b : P2 (a + b) == P2 a * P2 b.
Proof. apply Qpower_plus. discriminate. Qed.

Lemma P2_le a b : (a <= b)%Z -> P2 a <= P2 b.
Proof. intros H. apply Qpower_le_compat_l; [exact H | discriminate]. Qed.

Lemma P2_lt a b : (a < b)%Z -> P2 a < P2 b.
Proof. intros H. apply Qpower_lt_compat_l; [exact H | reflexivity]. Qed.

Lemma P2_Z e : (0 <= e)%Z -> P2 e == inject_Z (2 ^ e).
Proof. intros H. symmetry. apply (Zpower_Qpower 2 e H). Qed.

(** Scaling by a power of two keeps the order. *)
Lemma scale_le a b e : a <= b -> a * P2 e <= b * P2 e.
Proof. intros H. apply Qmult_le_compat_r; [exact H | apply Qlt_le_weak, P2_pos]. Qed.

Lemma unscale_le a b e : a * P2 e <= b -> a <= b / P2 e.
Proof. intros H. apply Qle_shift_div_l; [apply P2_pos | exact H]. Qed.

Lemma unscale_ge a b e : b <= a * P2 e -> b / P2 e <= a.
Proof. intros H. apply Qle_shift_div_r; [apply P2_pos | exact H]. Qed.

Lemma scaled_back x e : x / P2 e * P2 e == x.
Proof. field. intros E. pose proof (P2_pos e) as H. rewrite E in H. discriminate. Qed.

Lemma ilog2_spec x : 0 < x -> P2 (ilog2 x) <= x /\ x < P2 (ilog2 x + 1).
Proof.
  intros Hx. destruct x as [a b].
  assert (Ha : (0 < a)%Z).
  { unfold Qlt in Hx. simpl in Hx. lia. }
  unfold ilog2. cbn [Qnum Qden].
  set (la := Z.log2 a). set (lb := Z.log2 (Z.pos b)).
  destruct (Z.log2_spec a Ha) as [Ha1 Ha2]. fold la in Ha1, Ha2.
  destruct (Z.log2_spec (Z.pos b) ltac:(lia)) as [Hb1 Hb2]. fold lb in Hb1, Hb2.
  pose proof (Z.log2_nonneg a) as Hla. fold la in Hla.
  pose proof (Z.log2_nonneg (Z.pos b)) as Hlb. fold lb in Hlb.
  assert (Hbq : 0 < inject_Z (Z.pos b)) by reflexivity.
  assert (Hx_eq : a # b == inject_Z a / inject_Z (Z.pos b)) by apply Qmake_Qdiv.
  (* x < 2^(la-lb+1) *)
  assert (Hup : a # b < P2 (la - lb + 1)).
  { rewrite Hx_eq. apply Qlt_shift_div_r; [exact Hbq |].
    apply Qlt_le_trans with (P2 (la + 1)).
    - rewrite P2_Z by lia. rewrite <- Zlt_Qlt. replace (la + 1)%Z with (Z.succ la) by lia. exact Ha2.
    - replace (la + 1)%Z with ((la - lb + 1) + lb)%Z by lia. rewrite P2_add.
      apply Qmult_le_l; [apply P2_pos |].
      rewrite P2_Z by lia. rewrite <- Zle_Qle. exact Hb1. }
  assert (Hlow : P2 (la - lb - 1) < a # b).
  { rewrite Hx_eq. apply Qlt_shift_div_l; [exact Hbq |].
    apply Qlt_le_trans with (P2 la).
    - replace la with ((la - lb - 1) + (lb + 1))%Z at 2 by lia. rewrite P2_add.
      apply Qmult_lt_l; [apply P2_pos |].
      rewrite P2_Z by lia. rewrite <- Zlt_Qlt. replace (lb + 1)%Z with (Z.succ lb) by lia. exact Hb2.
    - rewrite P2_Z by lia. rewrite <- Zle_Qle. exact Ha1. }
  destruct (Qle_bool (P2 (la - lb)) (a # b)) eqn:E.
  - apply Qle_bool_iff in E. split; assumption.
  - split; [apply Qlt_le_weak; exact Hlow |].
    replace (la - lb - 1 + 1)%Z with (la - lb)%Z by lia.
    apply Qnot_le_lt. intros H. apply Qle_bool_iff in H. congruence.
Qed.

Lemma Qabs_pos_eq x : 0 < x -> Qabs x = x.
Proof.
  destruct x as [a b]. intros H. unfold Qlt in H. simpl in H.
  unfold Qabs. f_equal. apply Z.abs_eq. lia.
Qed.

Lemma fexp_spec x :
  0 < x ->
  (-1074 <= fexp x)%Z
  /\ x < P2 (fexp x + 53)
  /\ ((-1074 < fexp x)%Z -> P2 (fexp x + 52) <= x).
Proof.
  intros Hx. unfold fexp. rewrite (Qabs_pos_eq x Hx).
  destruct (ilog2_spec x Hx) as [Hl Hu].
  split; [lia |]. split.
  - eapply Qlt_le_trans; [exact Hu |]. apply P2_le. lia.
  - intros H. replace (Z.max (ilog2 x - 52) (-1074)) with (ilog2 x - 52)%Z in * by lia.
    replace (ilog2 x - 52 + 52)%Z with (ilog2 x) by lia. exact Hl.
Qed.

(** *** Nearest integer *)

Lemma rne_proper x y : x == y -> rne x = rne y.
Proof.
  intros E. unfold rne. rewrite (Qfloor_comp _ _ E).
  assert (E' : x - inject_Z (Qfloor y) == y - inject_Z (Qfloor y)) by (rewrite E; reflexivity).
  rewrite (Qcompare_comp _ _ E' (1#2) (1#2) (Qeq_refl _)). reflexivity.
Qed.

Lemma rne_floor y : (Qfloor y <= rne y <= Qfloor y + 1)%Z.
Proof.
  unfold rne. destruct (y - inject_Z (Qfloor y) ?= 1 # 2); [destruct (Z.even _) | |]; lia.
Qed.

Lemma rne_ge y k : inject_Z k <= y -> (k <= rne y)%Z.
Proof.
  intros H. pose proof (rne_floor y). apply Qfloor_resp_le in H.
  rewrite Qfloor_Z in H. lia.
Qed.

Lemma rne_le y k : y <= inject_Z k -> (rne y <= k)%Z.
Proof.
  intros H. pose proof (Qfloor_le y) as Hf.
  assert (Hfk : (Qfloor y <= k)%Z).
  { rewrite Zle_Qle. lra. }
  unfold rne. destruct (Qcompare_spec (y - inject_Z (Qfloor y)) (1 # 2)) as [E | E | E].
  - assert (Hlt : (Qfloor y < k)%Z) by (rewrite Zlt_Qlt; lra).
    destruct (Z.even _); lia.
  - exact Hfk.
  - assert (Hlt : (Qfloor y < k)%Z) by (rewrite Zlt_Qlt; lra). lia.
Qed.

Lemma rne_near y : y - (1 # 2) <= inject_Z (rne y) <= y + (1 # 2).
Proof.
  pose proof (Qfloor_le y) as Hf. pose proof (Qlt_floor y) as Hc.
  rewrite inject_Z_plus in Hc. change (inject_Z 1) with 1 in Hc.
  unfold rne. destruct (Qcompare_spec (y - inject_Z (Qfloor y)) (1 # 2)) as [E | E | E].
  - destruct (Z.even _); [| rewrite inject_Z_plus; change (inject_Z 1) with 1]; lra.
  - lra.
  - rewrite inject_Z_plus; change (inject_Z 1) with 1. lra.
Qed.

(** *** Rounding *)

Lemma round64_proper x y : x == y -> round64 x = round64 y.
Proof. intros E. unfold round64. now rewrite (Qred_complete _ _ E). Qed.

Lemma round64_pos x :
  0 < x ->
  round64 x == inject_Z (rne (x / P2 (fexp (Qred x)))) * P2 (fexp (Qred x)).
Proof.
  intros Hx. unfold round64.
  destruct (Qeq_bool (Qred x) 0) eqn:E.
  - apply Qeq_bool_eq in E. pose proof (Qred_correct x) as E'. lra.
  - etransitivity; [apply Qred_correct |].
    rewrite (rne_proper (Qred x / P2 (fexp (Qred x))) (x / P2 (fexp (Qred x)))).
    + reflexivity.
    + apply Qdiv_comp; [apply Qred_correct | reflexivity].
Qed.

Lemma round64_zero x : x == 0 -> round64 x = 0.
Proof.
  intros E. unfold round64.
  assert (H : Qeq_bool (Qred x) 0 = true).
  { apply Qeq_bool_iff. pose proof (Qred_correct x) as E'. lra. }
  now rewrite H.
Qed.

(** The exponent of the format at [x], for positive [x]. *)
Lemma fexp_red_spec x :
  0 < x ->
  let e := fexp (Qred x) in
  (-1074 <= e)%Z /\ x < P2 (e + 53) /\ ((-1074 < e)%Z -> P2 (e + 52) <= x).
Proof.
  intros Hx.
  pose proof (Qred_correct x) as E.
  assert (Hx' : 0 < Qred x) by lra.
  destruct (fexp_spec (Qred x) Hx') as (H1 & H2 & H3).
  cbv zeta. split; [exact H1 |]. split; [lra |].
  intros H. specialize (H3 H). lra.
Qed.

(** The numbers [n * 2^c] with [0 <= n <= 2^53] and [c >= -1074]: the
    non-negative values of the format (overflow apart). *)
Definition representable (r : Q) : Prop :=
  exists n c : Z, r == inject_Z n * P2 c /\ (0 <= n <= 2 ^ 53)%Z /\ (-1074 <= c)%Z.

(** A representable number, on the grid of an exponent below its own. *)
Lemma on_grid n c e :
  (e <= c)%Z -> inject_Z n * P2 c == inject_Z (n * 2 ^ (c - e)) * P2 e.
Proof.
  intros H. replace c with ((c - e) + e)%Z at 1 by lia.
  rewrite P2_add, P2_Z by lia. rewrite inject_Z_mult. ring.
Qed.

Lemma representable_below n c e :
  (0 <= n <= 2 ^ 53)%Z -> (c < e)%Z -> inject_Z n * P2 c <= P2 (e + 52).
Proof.
  intros Hn Hc.
  apply Qle_trans with (inject_Z (2 ^ 53) * P2 c).
  - apply Qmult_le_compat_r; [rewrite <- Zle_Qle; lia | apply Qlt_le_weak, P2_pos].
  - rewrite <- (P2_Z 53) by lia. rewrite <- P2_add. apply P2_le. lia.
Qed.

Lemma round64_ge x r :
  0 < x -> representable r -> r <= x -> r <= round64 x.
Proof.
  intros Hx (n & c & Er & Hn & Hc) Hrx.
  rewrite (round64_pos x Hx).
  destruct (fexp_red_spec x Hx) as (He & Hup & Hlow).
  set (e := fexp (Qred x)) in *.
  destruct (Z_le_gt_dec e c) as [Hec | Hec].
  - rewrite Er, (on_grid n c e Hec). apply scale_le. rewrite <- Zle_Qle.
    apply rne_ge. apply unscale_le. rewrite <- (on_grid n c e Hec), <- Er. exact Hrx.
  - apply Qle_trans with (P2 (e + 52)).
    + rewrite Er. apply representable_below; [exact Hn | lia].
    + rewrite Z.add_comm, P2_add, (P2_Z 52) by lia. apply scale_le. rewrite <- Zle_Qle.
      apply rne_ge. apply unscale_le.
      rewrite <- (P2_Z 52), <- P2_add, Z.add_comm by lia. apply Hlow. lia.
Qed.

Lemma round64_le x r :
  0 < x -> representable r -> x <= r -> round64 x <= r.
Proof.
  intros Hx (n & c & Er & Hn & Hc) Hxr.
  rewrite (round64_pos x Hx).
  destruct (fexp_red_spec x Hx) as (He & Hup & Hlow).
  set (e := fexp (Qred x)) in *.
  destruct (Z_le_gt_dec e c) as [Hec | Hec].
  - rewrite Er, (on_grid n c e Hec). apply scale_le. rewrite <- Zle_Qle.
    apply rne_le. apply unscale_ge. rewrite <- (on_grid n c e Hec), <- Er. exact Hxr.
  - assert (Hr : r <= P2 (e + 52)).
    { rewrite Er. apply representable_below; [exact Hn | lia]. }
    specialize (Hlow ltac:(lia)).
    apply Qle_trans with (P2 (e + 52)); [| lra].
    rewrite Z.add_comm, P2_add, (P2_Z 52) by lia. apply scale_le. rewrite <- Zle_Qle.
    apply rne_le. apply unscale_ge.
    rewrite <- (P2_Z 52), <- P2_add, Z.add_comm by lia. lra.
Qed.

Lemma round64_id r : representable r -> round64 r == r.
Proof.
  intros Hr.
  assert (H0 : 0 <= r).
  { destruct Hr as (n & c & Er & Hn & Hc). rewrite Er.
    apply Qmult_le_0_compat; [change 0 with (inject_Z 0); rewrite <- Zle_Qle; lia
                             | apply Qlt_le_weak, P2_pos]. }
  destruct (Qlt_le_dec 0 r) as [Hpos | Hle].
  - apply Qle_antisym.
    + apply round64_le; [exact Hpos | exact Hr | apply Qle_refl].
    + apply round64_ge; [exact Hpos | exact Hr | apply Qle_refl].
  - assert (E : r == 0) by lra. rewrite (round64_zero r E). symmetry. exact E.
Qed.

Lemma round64_near x :
  0 < x ->
  x - P2 (fexp (Qred x)) / 2 <= round64 x <= x + P2 (fexp (Qred x)) / 2.
Proof.
  intros Hx. rewrite (round64_pos x Hx).
  set (e := fexp (Qred x)).
  pose proof (rne_near (x / P2 e)) as [Hl Hu].
  pose proof (P2_pos e) as Hp.
  pose proof (scaled_back x e) as Hback.
  apply (scale_le _ _ e) in Hl. apply (scale_le _ _ e) in Hu.
  set (y := x / P2 e) in *. set (p := P2 e) in *.
  set (m := inject_Z (rne y)) in *.
  assert (E1 : (y - (1 # 2)) * p == x - p / 2) by (rewrite <- Hback; field).
  assert (E2 : (y + (1 # 2)) * p == x + p / 2) by (rewrite <- Hback; field).
  rewrite E1 in Hl. rewrite E2 in Hu. split; assumption.
Qed.

Lemma round64_canonical x : Qred (round64 x) = round64 x.
Proof.
  unfold round64. destruct (Qeq_bool (Qred x) 0); [reflexivity |].
  apply Qred_complete. apply Qred_correct.
Qed.

Lemma representable_Z z : (0 <= z <= 2 ^ 53)%Z -> representable (inject_Z z).
Proof.
  intros H. exists z, 0%Z. split; [| split; [exact H | lia]].
  change (P2 0) with 1. ring.
Qed.

Lemma Qred_inject_Z z : Qred (inject_Z z) = inject_Z z.
Proof.
  unfold inject_Z, Qred.
  pose proof (Z.ggcd_gcd z 1) as Hg.
  pose proof (Z.ggcd_correct_divisors z 1) as Hd.
  destruct (Z.ggcd z 1) as (g & a & b). simpl in Hg. destruct Hd as [Ha Hb].
  rewrite Z.gcd_1_r in Hg. subst g.
  f_equal; [lia | ]. replace b with 1%Z by lia. reflexivity.
Qed.

(** Integers up to 2^53 are values of the format, as written. *)
Lemma round64_Z z : (0 <= z <= 2 ^ 53)%Z -> round64 (inject_Z z) = inject_Z z.
Proof.
  intros H. rewrite <- round64_canonical.
  rewrite (Qred_complete _ _ (round64_id _ (representable_Z z H))).
  apply Qred_inject_Z.
Qed.

End Float64Facts.

(* ===================================================================== *)
(** ** Merging the chunks *)
(* ===================================================================== *)

Section MergeFacts.
Import OpenAI Chunked.

(** A copy of a segment, moved by [offset] seconds: the additions are those
    of float64. *)
Definition shiftSegment (offset : Q) (segment : DiarizedSegment) : DiarizedSegment :=
  {| Speaker := Speaker segment;
     Start := Float64.fadd (Start segment) offset;
     End := Float64.fadd (End segment) offset;
     Text := Text segment |}.

(** The variables before the first chunk. *)
Definition mergeStart : MergeState :=
  {| chunkSegments := []; allSegments := []; fullText := ""; timeOffset := 0 |}.


(** What a chunk adds to the text builder. *)
Definition textPiece (transcription : TranscriptionResponse) : string :=
  if negb (String.eqb (RText transcription) "") then RText transcription +:+ " " else "".

(** The transcript [transcribeAudioInChunks] builds from the answers to the
    chunks. *)
Definition mergeAll (rs : list TranscriptionResponse) : TranscriptionResponse :=
  let st := fold_left mergeChunk rs mergeStart in
  {| RText := TrimSpace (fullText st); Segments := allSegments st |}.



Lemma shiftTurn_fold segments all text offset (k : nat) :
  (k <= length segments)%nat ->
  fold_left shiftTurn (seq 0 k)
    {| chunkSegments := segments; allSegments := all;
       fullText := text; timeOffset := offset |}
  = {| chunkSegments := segments;
       allSegments := all ++ map (shiftSegment offset) (take k segments);
       fullText := text; timeOffset := offset |}.
Proof.
  induction k as [|k IH]; intros Hk.
  - simpl. now rewrite app_nil_r.
  - rewrite seq_S, fold_left_app, IH by lia. cbn [fold_left Nat.add].
    unfold shiftTurn. cbn [chunkSegments allSegments fullText timeOffset].
    destruct (lookup_lt_is_Some_2 segments k ltac:(lia)) as [segment Hs].
    rewrite Hs, (take_S_r _ _ _ Hs), map_app, app_assoc. reflexivity.
Qed.

Lemma mergeChunk_eq st transcription :
  mergeChunk st transcription
  = {| chunkSegments := Segments transcription;
       allSegments := allSegments st
                        ++ map (shiftSegment (timeOffset st)) (Segments transcription);
       fullText := fullText st +:+ textPiece transcription;
       timeOffset := Float64.fadd (timeOffset st) (Float64.of_int chunkDuration) |}.
Proof.
  unfold mergeChunk. rewrite shiftTurn_fold by lia.
  rewrite firstn_all. cbn [chunkSegments allSegments fullText timeOffset].
  unfold textPiece. destruct (negb (String.eqb (RText transcription) "")).
  - reflexivity.
  - now rewrite append_empty_r.
Qed.

Lemma fold_mergeChunk rs :
  forall st,
    allSegments (fold_left mergeChunk rs st)
    = allSegments st
        ++ concat (imap (fun k r =>
                           map (shiftSegment
                                  (Nat.iter k (fun t => Float64.fadd t
                                                  (Float64.of_int chunkDuration))
                                     (timeOffset st)))
                               (Segments r)) rs)
    /\ fullText (fold_left mergeChunk rs st)
       = fullText st +:+ concat_strings (map textPiece rs)
    /\ timeOffset (fold_left mergeChunk rs st)
       = Nat.iter (length rs)
           (fun t => Float64.fadd t (Float64.of_int chunkDuration)) (timeOffset st).
Proof.
  induction rs as [|r rs IH]; intros st.
  - simpl. now rewrite app_nil_r, append_empty_r.
  - cbn [fold_left]. destruct (IH (mergeChunk st r)) as (Ha & Hf & Ho).
    rewrite Ha, Hf, Ho, mergeChunk_eq.
    cbn [chunkSegments allSegments fullText timeOffset].
    split; [| split].
    + rewrite imap_cons. cbn [concat]. rewrite <- app_assoc.
      f_equal. f_equal. apply (f_equal (@concat _)).
      apply imap_ext. intros k x _. unfold compose.
      now rewrite Nat.iter_succ_r.
    + cbn [map concat_strings fold_right]. now rewrite append_assoc.
    + cbn [length]. now rewrite Nat.iter_succ_r.
Qed.


End MergeFacts.




(** The second chunk of the sample: 1200 seconds later. *)
Example merged_second_chunk :
  OpenAI.Segments (mergeAll [Demo.twoSegments; Demo.twoSegments])
  = [Demo.segA; Demo.segB;
     {| OpenAI.Speaker := "A"; OpenAI.Start := 1200; OpenAI.End := 2403 # 2;
        OpenAI.Text := " hello " |};
     {| OpenAI.Speaker := ""; OpenAI.Start := 1202; OpenAI.End := 1203;
        OpenAI.Text := "world" |}].
Proof. vm_compute. reflexivity. Qed.

(* ===================================================================== *)
(** ** The merged plain text *)
(* ===================================================================== *)

Lemma space2_space c0 : space2 c0 " " = false.
Proof. unfold space2. destruct (byte_is 194 c0); reflexivity. Qed.

Lemma space3_space c0 c1 : space3 c0 c1 " " = false.
Proof.
  unfold space3.
  destruct (byte_is 225 c0), (byte_is 154 c1), (byte_is 226 c0), (byte_is 128 c1),
    (byte_is 129 c1), (byte_is 227 c0); reflexivity.
Qed.

(** A space after the text changes nothing on the left, unless the text is
    white space only. *)
Lemma TrimLeft_space_after (s : string) :
  TrimLeft (s +:+ " ")
  = match TrimLeft s with
    | EmptyString => EmptyString
    | String c r => String c r +:+ " "
    end.
Proof.
  induction s as [|c0 r0 IH0 IH1 IH2] using string_ind3.
  - reflexivity.
  - rewrite append_cons. cbn [TrimLeft].
    destruct (asciiSpace c0) eqn:Hc0; [exact IH0 |].
    destruct r0 as [|c1 r1].
    + rewrite append_nil_l. rewrite space2_space. reflexivity.
    + rewrite append_cons.
      destruct (space2 c0 c1); [exact (IH1 c1 r1 eq_refl) |].
      destruct r1 as [|c2 r2].
      * rewrite append_nil_l. rewrite space3_space. reflexivity.
      * rewrite append_cons.
        destruct (space3 c0 c1 c2); [exact (IH2 c1 c2 r2 eq_refl) |].
        reflexivity.
Qed.

Lemma TrimRight_space_after (s : string) : TrimRight (s +:+ " ") = TrimRight s.
Proof.
  unfold TrimRight. rewrite rev_string_append.
  change (rev_string " ") with " ". rewrite append_cons, append_nil_l.
  reflexivity.
Qed.

Lemma TrimSpace_space_after (s : string) : TrimSpace (s +:+ " ") = TrimSpace s.
Proof.
  unfold TrimSpace. rewrite TrimLeft_space_after.
  destruct (TrimLeft s) as [|c r]; [reflexivity |].
  apply TrimRight_space_after.
Qed.

(** The texts that count: the non-empty ones. *)
Definition nonEmptyTexts (rs : list OpenAI.TranscriptionResponse) : list string :=
  List.filter (fun t => negb (String.eqb t "")) (map OpenAI.RText rs).

Lemma concat_textPiece rs :
  concat_strings (map textPiece rs)
  = concat_strings (map (fun t => t +:+ " ") (nonEmptyTexts rs)).
Proof.
  unfold nonEmptyTexts.
  induction rs as [|r rs IH]; [reflexivity |].
  cbn [map List.filter concat_strings fold_right]. unfold textPiece at 1.
  destruct (negb (String.eqb (OpenAI.RText r) "")).
  - cbn [map fold_right]. f_equal. exact IH.
  - rewrite append_nil_l. exact IH.
Qed.

Lemma joined_with_spaces (l : list string) :
  concat_strings (map (fun t => t +:+ " ") l)
  = match l with
    | [] => ""
    | _ => String.concat " " l +:+ " "
    end.
Proof.
  induction l as [|t l IH]; [reflexivity |].
  cbn [map concat_strings fold_right]. fold (concat_strings (map (fun t => t +:+ " ") l)).
  rewrite IH. destruct l as [|t' l].
  - cbn [String.concat]. now rewrite append_empty_r.
  - cbn [String.concat]. now rewrite !append_assoc.
Qed.

(** C4, as stated, fails when a chunk in the middle has no text: the code
    skips it, separator included, where the join of all the texts has two
    spaces. *)
Lemma merged_text_skips_empty :
  let a := {| OpenAI.RText := "a"; OpenAI.Segments := [] |} in
  let empty := {| OpenAI.RText := ""; OpenAI.Segments := [] |} in
  let b := {| OpenAI.RText := "b"; OpenAI.Segments := [] |} in
  OpenAI.RText (mergeAll [a; empty; b]) = "a b"
  /\ TrimSpace (String.concat " " (map OpenAI.RText [a; empty; b])) = "a  b"
  /\ OpenAI.RText (mergeAll [a; empty; b])
     <> TrimSpace (String.concat " " (map OpenAI.RText [a; empty; b])).
Proof. vm_compute. repeat split. discriminate. Qed.

(** C4, amended.  The merged plain text is the non-empty plain texts of the
    chunks, in order, joined by one space, with the white space around the
    whole removed; a chunk without text adds nothing, no separator either. *)
Theorem merged_text_joined (rs : list OpenAI.TranscriptionResponse) :
  OpenAI.RText (mergeAll rs) = TrimSpace (String.concat " " (nonEmptyTexts rs))
  /\ OpenAI.RText (mergeAll rs)
     = TrimSpace (concat_strings
                    (map (fun r => if String.eqb (OpenAI.RText r) "" then ""
                                   else OpenAI.RText r +:+ " ") rs)).
Proof.
  unfold mergeAll. cbn [OpenAI.RText].
  destruct (fold_mergeChunk rs mergeStart) as (_ & -> & _).
  cbn [mergeStart Chunked.fullText]. rewrite append_nil_l.
  split.
  - rewrite concat_textPiece, joined_with_spaces.
    destruct (nonEmptyTexts rs) as [|t l]; [reflexivity |].
    apply TrimSpace_space_after.
  - f_equal. f_equal. apply map_ext. intros r. unfold textPiece.
    destruct (String.eqb (OpenAI.RText r) ""); reflexivity.
Qed.

(* ===================================================================== *)
(** ** formatTimestamp *)
(* ===================================================================== *)

Section TimestampFacts.
Import Float64.
Local Open Scope Q_scope.

Lemma round64_nonneg x : 0 <= x -> 0 <= round64 x.
Proof.
  intros H. destruct (Qlt_le_dec 0 x) as [Hpos | Hle].
  - apply round64_ge; [exact Hpos | | exact H].
    exists 0%Z, 0%Z. split; [reflexivity | split; lia].
  - assert (E : x == 0) by lra. rewrite (round64_zero x E). apply Qle_refl.
Qed.

(** The values of the format are representable. *)
Lemma is_float64_representable s : 0 <= s -> is_float64 s -> representable s.
Proof.
  intros H0 Hs. unfold is_float64 in Hs.
  destruct (Qlt_le_dec 0 s) as [Hpos | Hle].
  - destruct (fexp_red_spec s Hpos) as (He & Hup & _).
    pose proof (round64_pos s Hpos) as Hr.
    set (e := fexp (Qred s)) in *.
    exists (rne (s / P2 e)), e. split; [rewrite <- Hr, Hs; reflexivity |].
    split; [| exact He]. split.
    + apply rne_ge. apply unscale_le. rewrite Qmult_0_l. exact H0.
    + apply rne_le. apply unscale_ge. rewrite <- (P2_Z 53) by lia.
      rewrite <- P2_add. rewrite Z.add_comm. apply Qlt_le_weak. exact Hup.
  - exists 0%Z, 0%Z. split; [| split; lia]. rewrite Qmult_0_l. lra.
Qed.

Lemma to_int_floor x q :
  (0 <= q)%Z -> (q < 2 ^ 62)%Z -> inject_Z q <= x -> x < inject_Z (q + 1) ->
  to_int x = q.
Proof.
  intros Hq0 Hq Hl Hu.
  assert (H0 : 0 <= x).
  { eapply Qle_trans; [| exact Hl]. change 0 with (inject_Z 0). rewrite <- Zle_Qle. lia. }
  rewrite to_int_nonneg; [apply Qfloor_unique; assumption | exact H0 |].
  eapply Qlt_le_trans; [exact Hu |]. rewrite <- Zle_Qle. lia.
Qed.

(** [float64(q) + float64(n) / U] truncates to [q] when [n < U <= 2^b] and
    the sum has room for [b] fractional bits. *)
Lemma whole_part_of_sum (q n U b : Z) :
  (0 <= q)%Z -> (0 <= n < U)%Z -> (U <= 2 ^ b)%Z -> (0 <= b)%Z ->
  ((q + 1) * 2 ^ b <= 2 ^ 53)%Z ->
  to_int (fadd (of_int q) (fdiv (of_int n) (inject_Z U))) = q.
Proof.
  intros Hq Hn HU Hb Hroom.
  assert (Hpow : (0 < 2 ^ b)%Z) by (apply Z.pow_pos_nonneg; lia).
  assert (Hq53 : (q + 1 <= 2 ^ 53)%Z) by nia.
  assert (Hb53 : (2 ^ b <= 2 ^ 53)%Z) by nia.
  assert (Hb' : (b <= 53)%Z).
  { destruct (Z_le_gt_dec b 53) as [H | H]; [exact H |].
    assert (2 ^ 53 < 2 ^ b)%Z by (apply Z.pow_lt_mono_r; lia). lia. }
  unfold fadd, fdiv, of_int.
  rewrite (round64_Z q) by lia. rewrite (round64_Z n) by lia.
  set (t := inject_Z n / inject_Z U).
  set (f := round64 t).
  assert (HUq : 0 < inject_Z U) by (change 0 with (inject_Z 0); rewrite <- Zlt_Qlt; lia).
  assert (Hquot0 : 0 <= t).
  { unfold t. apply Qle_shift_div_l; [exact HUq |]. rewrite Qmult_0_l.
    change 0 with (inject_Z 0). rewrite <- Zle_Qle. lia. }
  assert (Hf0 : 0 <= f) by (apply round64_nonneg; exact Hquot0).
  assert (Hp : P2 (- b) * inject_Z (2 ^ b) == 1).
  { rewrite <- (P2_Z b) by lia. rewrite <- P2_add.
    replace (- b + b)%Z with 0%Z by lia. reflexivity. }
  assert (Hpp : 0 < P2 (- b)) by apply P2_pos.
  assert (Hquot1 : t <= 1 - P2 (- b)).
  { unfold t. apply Qle_shift_div_r; [exact HUq |].
    assert (H1 : inject_Z n <= inject_Z U - 1).
    { change 1 with (inject_Z 1). unfold Qminus. rewrite <- inject_Z_opp, <- inject_Z_plus.
      rewrite <- Zle_Qle. lia. }
    assert (H2 : P2 (- b) * inject_Z U <= 1).
    { rewrite <- Hp. apply Qmult_le_l; [exact Hpp |]. rewrite <- Zle_Qle. exact HU. }
    lra. }
  assert (Hrep1 : representable (1 - P2 (- b))).
  { exists (2 ^ b - 1)%Z, (- b)%Z. split; [| split; lia].
    unfold Z.sub. rewrite inject_Z_plus, inject_Z_opp. change (inject_Z 1) with 1.
    transitivity (P2 (- b) * inject_Z (2 ^ b) - P2 (- b)); [| ring].
    rewrite Hp. reflexivity. }
  assert (Hf1 : f <= 1 - P2 (- b)).
  { destruct (Qlt_le_dec 0 t) as [Hpos | Hle].
    - apply round64_le; assumption.
    - assert (E : t == 0) by lra. unfold f. rewrite (round64_zero t E). lra. }
  apply to_int_floor; [lia | | |].
  - assert (2 ^ 53 < 2 ^ 62)%Z by (apply Z.pow_lt_mono_r; lia). lia.
  - destruct (Qlt_le_dec 0 (inject_Z q + f)) as [Hpos | Hle].
    + apply round64_ge; [exact Hpos | apply representable_Z; lia | lra].
    + assert (Hq0 : inject_Z q <= 0) by lra.
      assert (E : inject_Z q + f == 0).
      { assert (0 <= inject_Z q) by (change 0 with (inject_Z 0); rewrite <- Zle_Qle; lia).
        lra. }
      rewrite (round64_zero _ E). exact Hq0.
  - rewrite inject_Z_plus. change (inject_Z 1) with 1.
    apply Qle_lt_trans with (inject_Z q + 1 - P2 (- b)); [| lra].
    assert (Hrep : representable (inject_Z q + 1 - P2 (- b))).
    { exists ((q + 1) * 2 ^ b - 1)%Z, (- b)%Z. split; [| split; lia].
      unfold Z.sub. rewrite inject_Z_plus, inject_Z_opp, inject_Z_mult, inject_Z_plus.
      change (inject_Z 1) with 1.
      transitivity ((inject_Z q + 1) * (P2 (- b) * inject_Z (2 ^ b)) - P2 (- b)); [| ring].
      rewrite Hp. ring. }
    destruct (Qlt_le_dec 0 (inject_Z q + f)) as [Hpos | Hle].
    + apply round64_le; [exact Hpos | exact Hrep | lra].
    + assert (Hq0 : 0 <= inject_Z q) by (change 0 with (inject_Z 0); rewrite <- Zle_Qle; lia).
      assert (E : inject_Z q + f == 0) by lra.
      rewrite (round64_zero _ E).
      assert (P2 (- b) <= 1).
      { rewrite <- Hp. rewrite <- (Qmult_1_r (P2 (- b))) at 1.
        apply Qmult_le_l; [exact Hpp |]. change 1 with (inject_Z 1). rewrite <- Zle_Qle. lia. }
      lra.
Qed.


(** The nanoseconds [formatTimestamp] computes from a float64 number of
    seconds lie in the second of its whole part, as long as the product
    stays below 2^53 nanoseconds. *)
Lemma nanoseconds_of_seconds s :
  is_float64 s -> 0 <= s -> ((Qfloor s + 1) * 10 ^ 9 <= 2 ^ 53)%Z ->
  let d := to_int (fmul s (of_int Duration.Second)) in
  (Qfloor s * 10 ^ 9 <= d < (Qfloor s + 1) * 10 ^ 9)%Z.
Proof.
  intros Hfloat H0 Hrange. cbv zeta.
  unfold fmul, of_int, Duration.Second.
  rewrite (round64_Z 1000000000) by lia.
  set (S := Qfloor s) in *.
  assert (HS0 : (0 <= S)%Z) by (apply Qfloor_nonneg; exact H0).
  pose proof (Qfloor_le s) as HSl. pose proof (Qlt_floor s) as HSu. fold S in HSl, HSu.
  set (x := s * inject_Z 1000000000).
  assert (Hlow : inject_Z (S * 10 ^ 9) <= x).
  { unfold x. rewrite inject_Z_mult. change (inject_Z (10 ^ 9)) with (inject_Z 1000000000).
    apply Qmult_le_compat_r; [exact HSl | discriminate]. }
  assert (Hbounds : inject_Z (S * 10 ^ 9) <= round64 x /\ round64 x < inject_Z ((S + 1) * 10 ^ 9)).
  { destruct (Qlt_le_dec 0 s) as [Hpos | Hle].
    2: { assert (Es : s == 0) by lra.
         assert (Ex : x == 0) by (unfold x; rewrite Es; ring).
         assert (ES : S = 0%Z) by (unfold S; rewrite (Qfloor_comp _ _ Es); reflexivity).
         rewrite (round64_zero x Ex), ES. split; [apply Qle_refl | reflexivity]. }
    assert (Hx : 0 < x).
    { unfold x. apply Qmult_lt_0_compat; [exact Hpos | reflexivity]. }
    split.
    - apply round64_ge; [exact Hx | apply representable_Z; lia | exact Hlow].
    - destruct (is_float64_representable s H0 Hfloat) as (n & c & Es & Hn & Hc).
      destruct (Z_le_gt_dec 0 c) as [Hc0 | Hc0].
      + (* s is an integer *)
        assert (Es' : s == inject_Z (n * 2 ^ c)).
        { rewrite Es, inject_Z_mult, (P2_Z c Hc0). reflexivity. }
        assert (ES : S = (n * 2 ^ c)%Z).
        { unfold S. rewrite (Qfloor_comp _ _ Es'). apply Qfloor_Z. }
        assert (Ex : x == inject_Z (S * 10 ^ 9)).
        { unfold x. rewrite Es', <- ES, inject_Z_mult. reflexivity. }
        assert (Hrep : representable x).
        { exists (S * 10 ^ 9)%Z, 0%Z. split; [| split; lia].
          rewrite Ex. change (P2 0) with 1. ring. }
        rewrite (round64_id x Hrep), Ex. rewrite <- Zlt_Qlt. lia.
      + (* s is on the grid of 2^c, below the next integer by 2^c at least *)
        set (g := P2 c) in *.
        assert (Hg : 0 < g) by apply P2_pos.
        assert (Hgrid : inject_Z (S + 1) == inject_Z ((S + 1) * 2 ^ (0 - c)) * g).
        { transitivity (inject_Z (S + 1) * P2 0); [change (P2 0) with 1; ring |].
          apply on_grid. lia. }
        assert (Hstep : s + g <= inject_Z (S + 1)).
        { rewrite Hgrid, Es.
          assert (E : inject_Z n * g + g == inject_Z (n + 1) * g)
            by (rewrite inject_Z_plus; change (inject_Z 1) with 1; ring).
          rewrite E.
          apply Qmult_le_compat_r; [| apply Qlt_le_weak, Hg].
          rewrite <- Zle_Qle.
          assert (Hlt : inject_Z n * g < inject_Z ((S + 1) * 2 ^ (0 - c)) * g).
          { rewrite <- Es, <- Hgrid. exact HSu. }
          apply Qmult_lt_r in Hlt; [| exact Hg]. rewrite <- Zlt_Qlt in Hlt. lia. }
        destruct (fexp_red_spec x Hx) as (He & Hup & Hlo).
        pose proof (round64_near x Hx) as [_ Hnear].
        set (e := fexp (Qred x)) in *.
        assert (Hxg : x < P2 (c + 83)).
        { unfold x. rewrite Es.
          apply Qle_lt_trans with (inject_Z (2 ^ 53) * g * inject_Z 1000000000).
          - apply Qmult_le_compat_r; [| discriminate].
            apply Qmult_le_compat_r; [rewrite <- Zle_Qle; lia | apply Qlt_le_weak, Hg].
          - replace (c + 83)%Z with (53 + c + 30)%Z by lia.
            rewrite !P2_add, (P2_Z 53), (P2_Z 30) by lia. fold g.
            apply Qmult_lt_l; [| reflexivity].
            apply Qmult_lt_0_compat; [reflexivity | exact Hg]. }
        assert (Hec : (e <= c + 30)%Z).
        { destruct (Z_le_gt_dec e (c + 30)) as [H | H]; [exact H |].
          exfalso. specialize (Hlo ltac:(lia)).
          assert (Hle : P2 (c + 83) <= P2 (e + 52)) by (apply P2_le; lia).
          lra. }
        assert (Hulp : P2 e <= inject_Z (2 ^ 30) * g).
        { rewrite <- (P2_Z 30) by lia. unfold g. rewrite <- P2_add.
          apply P2_le. lia. }
        apply Qle_lt_trans with (x + P2 e / 2); [exact Hnear |].
        apply Qlt_le_trans with ((s + g) * inject_Z 1000000000).
        * unfold x. change (inject_Z (2 ^ 30)) with (1073741824 # 1) in Hulp.
          change (inject_Z 1000000000) with (1000000000 # 1).
          set (pe := P2 e) in *. 
          assert (E : (s + g) * (1000000000 # 1) == s * (1000000000 # 1) + (1000000000 # 1) * g) by ring.
          rewrite E.
          assert (L : forall a b u : Q,
                     0 < b -> u <= (1073741824 # 1) * b ->
                     a + u / 2 < a + (1000000000 # 1) * b)
            by (intros; unfold Qdiv; change (/ 2) with (1 # 2); lra).
          apply L; assumption.
        * rewrite inject_Z_mult. change (inject_Z (10 ^ 9)) with (inject_Z 1000000000).
          apply Qmult_le_compat_r; [exact Hstep | discriminate]. }
  destruct Hbounds as [Hl Hu].
  assert (Hfloor : (S * 10 ^ 9 <= Qfloor (round64 x) < (S + 1) * 10 ^ 9)%Z).
  { split.
    - rewrite <- (Qfloor_Z (S * 10 ^ 9)). apply Qfloor_resp_le. exact Hl.
    - rewrite Zlt_Qlt. eapply Qle_lt_trans; [apply Qfloor_le | exact Hu]. }
  rewrite to_int_nonneg; [exact Hfloor | |].
  - eapply Qle_trans; [| exact Hl]. change 0 with (inject_Z 0). rewrite <- Zle_Qle. lia.
  - eapply Qlt_le_trans; [exact Hu |]. rewrite <- Zle_Qle.
    assert (2 ^ 53 < 2 ^ 63)%Z by (apply Z.pow_lt_mono_r; lia). lia.
Qed.


Lemma hours_whole d :
  (0 <= d < 2048 * Duration.Hour)%Z ->
  to_int (Duration.Hours d) = (d / Duration.Hour)%Z.
Proof.
  intros Hd. unfold Duration.Hours. cbv zeta.
  rewrite Z.quot_div_nonneg, Z.rem_mod_nonneg by (unfold Duration.Hour, Duration.Minute, Duration.Second; lia).
  change (60 * 60 * 10 ^ 9)%Z with Duration.Hour.
  assert (Hq : (0 <= d / Duration.Hour < 2048)%Z).
  { split; [apply Z.div_pos; [lia | reflexivity] |].
    apply Z.div_lt_upper_bound; [reflexivity | lia]. }
  apply (whole_part_of_sum _ _ _ 42).
  - lia.
  - apply Z.mod_pos_bound. reflexivity.
  - vm_compute. discriminate.
  - lia.
  - change (2 ^ 53)%Z with (2048 * 2 ^ 42)%Z. nia.
Qed.

Lemma minutes_whole d :
  (0 <= d < 2048 * Duration.Hour)%Z ->
  to_int (Duration.Minutes d) = (d / Duration.Minute)%Z.
Proof.
  intros Hd. unfold Duration.Minutes. cbv zeta.
  rewrite Z.quot_div_nonneg, Z.rem_mod_nonneg by (unfold Duration.Hour, Duration.Minute, Duration.Second in *; lia).
  change (60 * 10 ^ 9)%Z with Duration.Minute.
  assert (Hq : (0 <= d / Duration.Minute < 2 ^ 17)%Z).
  { split; [apply Z.div_pos; [lia | reflexivity] |].
    apply Z.div_lt_upper_bound; [reflexivity |].
    unfold Duration.Hour in Hd. change (2 ^ 17)%Z with 131072%Z. lia. }
  apply (whole_part_of_sum _ _ _ 36).
  - lia.
  - apply Z.mod_pos_bound. reflexivity.
  - vm_compute. discriminate.
  - lia.
  - change (2 ^ 53)%Z with (2 ^ 17 * 2 ^ 36)%Z. nia.
Qed.

Lemma seconds_whole d :
  (0 <= d < 2048 * Duration.Hour)%Z ->
  to_int (Duration.Seconds d) = (d / Duration.Second)%Z.
Proof.
  intros Hd. unfold Duration.Seconds. cbv zeta.
  rewrite Z.quot_div_nonneg, Z.rem_mod_nonneg by (unfold Duration.Hour, Duration.Minute, Duration.Second in *; lia).
  change (10 ^ 9)%Z with Duration.Second.
  assert (Hq : (0 <= d / Duration.Second < 2 ^ 23)%Z).
  { split; [apply Z.div_pos; [lia | reflexivity] |].
    apply Z.div_lt_upper_bound; [reflexivity |].
    unfold Duration.Hour, Duration.Minute in Hd. change (2 ^ 23)%Z with 8388608%Z. lia. }
  apply (whole_part_of_sum _ _ _ 30).
  - lia.
  - apply Z.mod_pos_bound. reflexivity.
  - vm_compute. discriminate.
  - lia.
  - change (2 ^ 53)%Z with (2 ^ 23 * 2 ^ 30)%Z. nia.
Qed.

End TimestampFacts.

(** The timestamp in the words of the specification: hours =
    floor(seconds/3600), minutes = floor(seconds/60) mod 60, seconds =
    floor(seconds) mod 60, each printed on two digits at least. *)
Definition truncatedTimestamp (seconds : Q) : string :=
  fmt_02d (Qfloor (seconds / inject_Z 3600)) +:+ ":"
  +:+ fmt_02d (Qfloor (seconds / inject_Z 60) mod 60) +:+ ":"
  +:+ fmt_02d (Qfloor seconds mod 60).

(** C6, as stated, does not hold: 8000000001 seconds is a float64, its
    product with 1e9 is not (it is half way between two float64 and rounds to
    the even one, 512 ns below), so the code prints one second less than
    floor(seconds) mod 60; and 1e10 seconds do not fit the 64-bit count of
    nanoseconds. *)
Lemma timestamp_beyond_2p53_ns :
  Float64.is_float64 (inject_Z 8000000001)
  /\ (0 <= inject_Z 8000000001)%Q
  /\ formatTimestamp (inject_Z 8000000001) = "2222222:13:20"
  /\ truncatedTimestamp (inject_Z 8000000001) = "2222222:13:21"
  /\ formatTimestamp (inject_Z 8000000001) <> truncatedTimestamp (inject_Z 8000000001)
  /\ formatTimestamp (inject_Z 10000000000) = "-2562047:-47:-16".
Proof. vm_compute. repeat split; discriminate. Qed.

(** C6, amended.  For every float64 number of seconds from 0 up to 2048
    hours (7,372,800 s), [formatTimestamp] prints floor(seconds/3600),
    floor(seconds/60) mod 60 and floor(seconds) mod 60, zero-padded to two
    digits and separated by colons; 0 gives 00:00:00, 3661.9 gives 01:01:01
    and 59.999 gives 00:00:59. *)
Theorem timestamp_truncates (seconds : Q) :
  Float64.is_float64 seconds ->
  (0 <= seconds)%Q -> (seconds < inject_Z 7372800)%Q ->
  formatTimestamp seconds = truncatedTimestamp seconds.
Proof.
  intros Hfloat H0 Hlt.
  set (S := Qfloor seconds).
  assert (HS0 : 0 <= S) by (apply Qfloor_nonneg; exact H0).
  assert (HS1 : S < 7372800).
  { rewrite Zlt_Qlt. eapply Qle_lt_trans; [apply Qfloor_le | exact Hlt]. }
  pose proof (nanoseconds_of_seconds seconds Hfloat H0) as Hd. fold S in Hd.
  specialize (Hd ltac:(change (2 ^ 53) with 9007199254740992; lia)).
  cbv zeta in Hd.
  unfold formatTimestamp, truncatedTimestamp. cbv zeta.
  set (d := Float64.to_int (Float64.fmul seconds (Float64.of_int Duration.Second))) in *.
  assert (Hrange : 0 <= d < 2048 * Duration.Hour).
  { unfold Duration.Hour, Duration.Minute, Duration.Second.
    change (10 ^ 9) with 1000000000 in Hd. lia. }
  rewrite (hours_whole d Hrange), (minutes_whole d Hrange), (seconds_whole d Hrange).
  assert (Esec : d / Duration.Second = S).
  { unfold Duration.Second. change (10 ^ 9) with 1000000000 in Hd.
    symmetry. apply (Z.div_unique_pos d 1000000000 S (d - 1000000000 * S)); lia. }
  assert (Emin : d / Duration.Minute = S / 60).
  { unfold Duration.Minute. rewrite (Z.mul_comm 60), <- Z.div_div by (unfold Duration.Second; lia).
    rewrite Esec. reflexivity. }
  assert (Ehour : d / Duration.Hour = S / 3600).
  { unfold Duration.Hour. rewrite (Z.mul_comm 60), <- Z.div_div by (unfold Duration.Minute, Duration.Second; lia).
    rewrite Emin, Z.div_div by lia. reflexivity. }
  rewrite Esec, Emin, Ehour.
  rewrite !Z.rem_mod_nonneg by (try apply Z.div_pos; lia).
  rewrite !Qfloor_div_pos by lia. reflexivity.
Qed.

Lemma timestamp_truncates_witness :
  formatTimestamp (Float64.round64 (36619 # 10))
  = truncatedTimestamp (Float64.round64 (36619 # 10)).
Proof.
  apply (timestamp_truncates (Float64.round64 (36619 # 10))).
  - vm_compute. reflexivity.
  - vm_compute. discriminate.
  - vm_compute. reflexivity.
Defined.

(** The three timestamps the specification gives, by evaluation; 3661.9 and
    59.999 are the float64 nearest to these decimals. *)
Lemma timestamp_examples :
  formatTimestamp 0 = "00:00:00"
  /\ formatTimestamp (Float64.round64 (36619 # 10)) = "01:01:01"
  /\ formatTimestamp (Float64.round64 (59999 # 1000)) = "00:00:59".
Proof. vm_compute. repeat split. Qed.

(* ===================================================================== *)
(** * Further properties of the code *)
(* ===================================================================== *)

(** ** Timestamps of the asynchronous program *)

Section UtteranceTimes.
Import Float64.
Local Open Scope Q_scope.

(** The result of a rounding is a value of the format. *)
Lemma round64_representable x : 0 <= x -> representable (round64 x).
Proof.
  intros H0. destruct (Qlt_le_dec 0 x) as [Hpos | Hle].
  - destruct (fexp_red_spec x Hpos) as (He & Hup & _).
    pose proof (round64_pos x Hpos) as Hr.
    set (e := fexp (Qred x)) in *.
    exists (rne (x / P2 e)), e. split; [exact Hr |].
    split; [| exact He]. split.
    + apply rne_ge. apply unscale_le. rewrite Qmult_0_l. exact H0.
    + apply rne_le. apply unscale_ge. rewrite <- (P2_Z 53) by lia.
      rewrite <- P2_add. rewrite Z.add_comm. apply Qlt_le_weak. exact Hup.
  - assert (E : x == 0) by lra. rewrite (round64_zero x E).
    exists 0%Z, 0%Z. split; [reflexivity | split; lia].
Qed.

Lemma round64_is_float64 x : 0 <= x -> is_float64 (round64 x).
Proof. intros H. apply round64_id, round64_representable, H. Qed.

(** [formatTimestamp] by the whole seconds of its argument. *)
Lemma formatTimestamp_whole (seconds : Q) :
  is_float64 seconds -> 0 <= seconds -> seconds < inject_Z 7372800 ->
  let S := Qfloor seconds in
  formatTimestamp seconds
  = fmt_02d (S / 3600) +:+ ":" +:+ fmt_02d ((S / 60) mod 60) +:+ ":"
      +:+ fmt_02d (S mod 60).
Proof.
  intros Hfloat H0 Hlt S.
  assert (HS0 : (0 <= S)%Z) by (apply Qfloor_nonneg; exact H0).
  assert (HS1 : (S < 7372800)%Z).
  { rewrite Zlt_Qlt. eapply Qle_lt_trans; [apply Qfloor_le | exact Hlt]. }
  pose proof (nanoseconds_of_seconds seconds Hfloat H0) as Hd. fold S in Hd.
  specialize (Hd ltac:(change (2 ^ 53)%Z with 9007199254740992%Z; lia)).
  cbv zeta in Hd.
  unfold formatTimestamp. cbv zeta.
  set (d := to_int (fmul seconds (of_int Duration.Second))) in *.
  assert (Hrange : (0 <= d < 2048 * Duration.Hour)%Z).
  { unfold Duration.Hour, Duration.Minute, Duration.Second.
    change (10 ^ 9)%Z with 1000000000%Z in Hd. lia. }
  rewrite (hours_whole d Hrange), (minutes_whole d Hrange), (seconds_whole d Hrange).
  assert (Esec : (d / Duration.Second)%Z = S).
  { unfold Duration.Second. change (10 ^ 9)%Z with 1000000000%Z in Hd.
    symmetry. apply (Z.div_unique_pos d 1000000000 S (d - 1000000000 * S)); lia. }
  assert (Emin : (d / Duration.Minute)%Z = (S / 60)%Z).
  { unfold Duration.Minute.
    rewrite (Z.mul_comm 60), <- Z.div_div by (unfold Duration.Second; lia).
    rewrite Esec. reflexivity. }
  assert (Ehour : (d / Duration.Hour)%Z = (S / 3600)%Z).
  { unfold Duration.Hour.
    rewrite (Z.mul_comm 60), <- Z.div_div by (unfold Duration.Minute, Duration.Second; lia).
    rewrite Emin, Z.div_div by lia. reflexivity. }
  rewrite Esec, Emin, Ehour.
  rewrite !Z.rem_mod_nonneg by (try apply Z.div_pos; lia).
  reflexivity.
Qed.

(** [float64(ms) / 1000.0] has the whole seconds of [ms]. *)
Lemma seconds_of_milliseconds (ms : Z) :
  (0 <= ms < 7372800000)%Z ->
  let s := fdiv (of_int ms) (inject_Z 1000) in
  is_float64 s /\ 0 <= s /\ s < inject_Z 7372800 /\ Qfloor s = (ms / 1000)%Z.
Proof.
  intros Hms s.
  assert (H53 : (2 ^ 53 = 9007199254740992)%Z) by reflexivity.
  unfold s, fdiv, of_int. rewrite (round64_Z ms) by lia.
  set (x := inject_Z ms / inject_Z 1000).
  set (k := (ms / 1000)%Z).
  assert (Hk : (0 <= k < 7372800)%Z).
  { unfold k. split; [apply Z.div_pos; lia | apply Z.div_lt_upper_bound; lia]. }
  pose proof (Z.div_mod ms 1000 ltac:(lia)) as Hdm.
  pose proof (Z.mod_pos_bound ms 1000 ltac:(lia)) as Hmod.
  fold k in Hdm.
  assert (Hx0 : 0 <= x).
  { unfold x. apply Qle_shift_div_l; [reflexivity |]. rewrite Qmult_0_l.
    change 0 with (inject_Z 0). rewrite <- Zle_Qle. lia. }
  assert (Hxl : inject_Z k <= x).
  { unfold x. apply Qle_shift_div_l; [reflexivity |].
    rewrite <- inject_Z_mult, <- Zle_Qle. lia. }
  assert (Hp : P2 (-10) * inject_Z 1024 == 1) by reflexivity.
  assert (Hxu : x <= inject_Z (k + 1) - P2 (-10)).
  { unfold x. apply Qle_shift_div_r; [reflexivity |].
    assert (H1 : inject_Z ms <= inject_Z (k + 1) * inject_Z 1000 - 1).
    { assert (E : inject_Z ((k + 1) * 1000 - 1) == inject_Z (k + 1) * inject_Z 1000 - 1).
      { replace ((k + 1) * 1000 - 1)%Z with ((k + 1) * 1000 + -1)%Z by lia.
        rewrite (inject_Z_plus ((k + 1) * 1000) (-1)), (inject_Z_mult (k + 1) 1000).
        reflexivity. }
      rewrite <- E, <- Zle_Qle. lia. }
    assert (H2 : P2 (-10) * inject_Z 1000 <= 1) by (vm_compute; discriminate).
    eapply Qle_trans; [exact H1 |].
    assert (E : (inject_Z (k + 1) - P2 (-10)) * inject_Z 1000
                == inject_Z (k + 1) * inject_Z 1000 - P2 (-10) * inject_Z 1000) by ring.
    rewrite E. set (a := inject_Z (k + 1) * inject_Z 1000) in *.
    set (b := P2 (-10) * inject_Z 1000) in *. clearbody a b. lra. }
  assert (Hrep : representable (inject_Z (k + 1) - P2 (-10))).
  { exists ((k + 1) * 1024 - 1)%Z, (-10)%Z. split; [| split; lia].
    replace ((k + 1) * 1024 - 1)%Z with ((k + 1) * 1024 + -1)%Z by lia.
    rewrite (inject_Z_plus ((k + 1) * 1024) (-1)), (inject_Z_mult (k + 1) 1024).
    change (inject_Z (-1)) with (- (1)).
    transitivity (inject_Z (k + 1) * (P2 (-10) * inject_Z 1024) - P2 (-10)); [| ring].
    rewrite Hp. ring. }
  assert (Hpp : 0 < P2 (-10)) by apply P2_pos.
  assert (Hbounds : inject_Z k <= round64 x /\ round64 x <= inject_Z (k + 1) - P2 (-10)).
  { destruct (Qlt_le_dec 0 x) as [Hpos | Hle].
    - split; [apply round64_ge; [exact Hpos | apply representable_Z; lia | exact Hxl] |].
      apply round64_le; assumption.
    - assert (E : x == 0) by lra. rewrite (round64_zero x E).
      split; [lra |]. lra. }
  destruct Hbounds as [Hl Hu].
  assert (Hk0 : 0 <= inject_Z k) by (change 0 with (inject_Z 0); rewrite <- Zle_Qle; lia).
  split; [apply round64_is_float64; exact Hx0 |].
  split; [lra |].
  assert (Hlt : round64 x < inject_Z (k + 1)) by lra.
  split.
  - eapply Qlt_le_trans; [exact Hlt |]. rewrite <- Zle_Qle. lia.
  - apply Qfloor_unique; assumption.
Qed.

End UtteranceTimes.

(** A number of milliseconds as HH:MM:SS, by integer division. *)
Definition millisecondsHMS (ms : Z) : string :=
  fmt_02d (ms / 3600000) +:+ ":" +:+ fmt_02d (ms / 60000 mod 60) +:+ ":"
    +:+ fmt_02d (ms / 1000 mod 60).

(** X1.  The asynchronous program stamps an utterance with the whole seconds of
    its start and end, given in milliseconds: [float64(ms) / 1000.0] and the
    float64 steps of [formatTimestamp] lose nothing below 2048 hours. *)
Theorem utterance_stamp (utterance : AssemblyAI.Utterance) :
  0 <= AssemblyAI.Start utterance < 7372800000 ->
  0 <= AssemblyAI.End utterance < 7372800000 ->
  Renderer.stamp (Async.utteranceSegment utterance)
  = "[" +:+ millisecondsHMS (AssemblyAI.Start utterance) +:+ " - "
        +:+ millisecondsHMS (AssemblyAI.End utterance) +:+ "] ".
Proof.
  assert (H : forall ms, 0 <= ms < 7372800000 ->
              formatTimestamp (Float64.fdiv (Float64.of_int ms) (inject_Z 1000))
              = millisecondsHMS ms).
  { intros ms Hms.
    destruct (seconds_of_milliseconds ms Hms) as (Hf & H0 & Hlt & Hfloor).
    rewrite (formatTimestamp_whole _ Hf H0 Hlt). cbv zeta. rewrite Hfloor.
    unfold millisecondsHMS. rewrite !Z.div_div by lia. reflexivity. }
  intros Hs He. unfold Renderer.stamp, Async.utteranceSegment. cbn [OpenAI.Start OpenAI.End].
  rewrite (H _ Hs), (H _ He). reflexivity.
Qed.

Lemma utterance_stamp_witness :
  Renderer.stamp
    (Async.utteranceSegment
       {| AssemblyAI.Speaker := "A"; AssemblyAI.Start := 3661900;
          AssemblyAI.End := 3725999; AssemblyAI.Text := "hello";
          AssemblyAI.Confidence := 9 # 10 |})
  = "[01:01:01 - 01:02:05] ".
Proof.
  rewrite utterance_stamp.
  - vm_compute. reflexivity.
  - cbn. lia.
  - cbn. lia.
Defined.

(** ** The width of a timestamp *)

Lemma length_append (a b : string) :
  String.length (a +:+ b) = (String.length a + String.length b)%nat.
Proof.
  induction a as [|c a IH]; [now rewrite append_nil_l |].
  rewrite append_cons. simpl. now rewrite IH.
Qed.

(** The digits of [%02d] for the hours that can occur and for minutes and
    seconds. *)
Lemma fmt_02d_width (z : Z) :
  0 <= z < 2048 ->
  String.length (fmt_02d z)
  = if z <? 100 then 2%nat else if z <? 1000 then 3%nat else 4%nat.
Proof.
  intros Hz.
  assert (Hall : forallb (fun n => Nat.eqb (String.length (fmt_02d (Z.of_nat n)))
                                     (if Z.of_nat n <? 100 then 2%nat
                                      else if Z.of_nat n <? 1000 then 3%nat else 4%nat))
                   (seq 0 2048) = true) by (vm_compute; reflexivity).
  rewrite forallb_forall in Hall.
  specialize (Hall (Z.to_nat z)). rewrite Z2Nat.id in Hall by lia.
  apply Nat.eqb_eq, Hall. apply in_seq. lia.
Qed.

(** X2.  A timestamp is [HH:MM:SS] on 8 characters below 100 hours; minutes and
    seconds always take two digits, and the hours are never cut: from 100
    hours on the field widens. *)
Theorem timestamp_width (seconds : Q) :
  Float64.is_float64 seconds ->
  (0 <= seconds)%Q -> (seconds < inject_Z 7372800)%Q ->
  String.length (formatTimestamp seconds)
  = if Qfloor seconds <? 360000 then 8%nat
    else if Qfloor seconds <? 3600000 then 9%nat else 10%nat.
Proof.
  intros Hfloat H0 Hlt.
  rewrite (formatTimestamp_whole seconds Hfloat H0 Hlt). cbv zeta.
  set (S := Qfloor seconds).
  assert (HS0 : 0 <= S) by (apply Qfloor_nonneg; exact H0).
  assert (HS1 : S < 7372800).
  { rewrite Zlt_Qlt. eapply Qle_lt_trans; [apply Qfloor_le | exact Hlt]. }
  rewrite !length_append.
  pose proof (Z.mod_pos_bound (S / 60) 60 ltac:(lia)) as Hm.
  pose proof (Z.mod_pos_bound S 60 ltac:(lia)) as Hs.
  assert (Hh : 0 <= S / 3600 < 2048).
  { split; [apply Z.div_pos; lia | apply Z.div_lt_upper_bound; lia]. }
  rewrite (fmt_02d_width (S / 3600)), (fmt_02d_width ((S / 60) mod 60)),
    (fmt_02d_width (S mod 60)) by lia.
  replace ((S / 60) mod 60 <? 100) with true by (symmetry; apply Z.ltb_lt; lia).
  replace (S mod 60 <? 100) with true by (symmetry; apply Z.ltb_lt; lia).
  assert (E1 : (S / 3600 <? 100) = (S <? 360000)).
  { destruct (S <? 360000) eqn:E.
    - apply Z.ltb_lt in E. apply Z.ltb_lt. apply Z.div_lt_upper_bound; lia.
    - apply Z.ltb_ge in E. apply Z.ltb_ge.
      apply Z.div_le_lower_bound; lia. }
  assert (E2 : (S / 3600 <? 1000) = (S <? 3600000)).
  { destruct (S <? 3600000) eqn:E.
    - apply Z.ltb_lt in E. apply Z.ltb_lt. apply Z.div_lt_upper_bound; lia.
    - apply Z.ltb_ge in E. apply Z.ltb_ge.
      apply Z.div_le_lower_bound; lia. }
  rewrite E1, E2.
  destruct (S <? 360000); [reflexivity |]. destruct (S <? 3600000); reflexivity.
Qed.

Lemma timestamp_width_witness :
  String.length (formatTimestamp (Float64.round64 (36619 # 10))) = 8%nat.
Proof.
  rewrite (timestamp_width (Float64.round64 (36619 # 10))).
  - vm_compute. reflexivity.
  - vm_compute. reflexivity.
  - vm_compute. discriminate.
  - vm_compute. reflexivity.
Defined.

(** ** Timestamps of the merged chunks *)

(** Whole seconds as [HH:MM:SS]. *)
Definition secondsHMS (S : Z) : string :=
  fmt_02d (S / 3600) +:+ ":" +:+ fmt_02d ((S / 60) mod 60) +:+ ":" +:+ fmt_02d (S mod 60).

(** X3.  The merge adds the offset of the chunk in float64, and the sum is
    rounded.  A shifted time is therefore printed as the whole seconds of
    the time in the chunk plus the offset, or as one second more: one second
    more when the sum rounds up to the next whole second, never less. *)
Theorem shifted_stamp (seconds : Q) (offset : Z) :
  (0 <= seconds)%Q -> 0 <= offset ->
  Qfloor seconds + offset + 1 < 7372800 ->
  let shifted := Float64.fadd seconds (inject_Z offset) in
  (formatTimestamp shifted = secondsHMS (Qfloor seconds + offset)
   /\ (shifted < inject_Z (Qfloor seconds + offset + 1))%Q)
  \/ (formatTimestamp shifted = secondsHMS (Qfloor seconds + offset + 1)
      /\ (shifted == inject_Z (Qfloor seconds + offset + 1))%Q).
Proof.
  intros H0 Hoff Hrange shifted.
  set (S := Qfloor seconds) in *.
  assert (HS0 : 0 <= S) by (apply Qfloor_nonneg; exact H0).
  pose proof (Qfloor_le seconds) as HSl. pose proof (Qlt_floor seconds) as HSu.
  fold S in HSl, HSu.
  set (x := (seconds + inject_Z offset)%Q).
  assert (H53 : 2 ^ 53 = 9007199254740992) by reflexivity.
  assert (Hoffq : (0 <= inject_Z offset)%Q).
  { change 0%Q with (inject_Z 0). rewrite <- Zle_Qle. exact Hoff. }
  assert (Hx0 : (0 <= x)%Q) by (unfold x; lra).
  assert (Hxl : (inject_Z (S + offset) <= x)%Q).
  { unfold x. rewrite inject_Z_plus. lra. }
  assert (Hxu : (x <= inject_Z (S + offset + 1))%Q).
  { unfold x. rewrite (inject_Z_plus (S + offset) 1), (inject_Z_plus S offset).
    rewrite inject_Z_plus in HSu. lra. }
  assert (Hbounds : (inject_Z (S + offset) <= shifted)%Q
                    /\ (shifted <= inject_Z (S + offset + 1))%Q).
  { unfold shifted, Float64.fadd. fold x.
    destruct (Qlt_le_dec 0 x) as [Hpos | Hle].
    - split; [apply round64_ge | apply round64_le];
        try assumption; apply representable_Z; lia.
    - assert (E : (x == 0)%Q) by lra. rewrite (round64_zero x E). lra. }
  destruct Hbounds as [Hl Hu].
  assert (Hfloat : Float64.is_float64 shifted).
  { apply round64_is_float64. exact Hx0. }
  assert (Hs0 : (0 <= shifted)%Q).
  { eapply Qle_trans; [| exact Hl]. change 0%Q with (inject_Z 0).
    rewrite <- Zle_Qle. lia. }
  assert (Hslt : (shifted < inject_Z 7372800)%Q).
  { eapply Qle_lt_trans; [exact Hu |]. rewrite <- Zlt_Qlt. lia. }
  rewrite (formatTimestamp_whole shifted Hfloat Hs0 Hslt). cbv zeta.
  destruct (Qlt_le_dec shifted (inject_Z (S + offset + 1))) as [Hlt | Hge].
  - left. split; [| exact Hlt].
    rewrite (Qfloor_unique shifted (S + offset) Hl Hlt). reflexivity.
  - right. assert (E : (shifted == inject_Z (S + offset + 1))%Q) by lra.
    split; [| exact E].
    rewrite (Qfloor_comp _ _ E), Qfloor_Z. reflexivity.
Qed.

Lemma shifted_stamp_witness :
  formatTimestamp (Float64.fadd (3 # 2) (inject_Z 1200)) = "00:20:01".
Proof.
  destruct (shifted_stamp (3 # 2) 1200) as [[H _] | [_ E]].
  - discriminate.
  - lia.
  - vm_compute. reflexivity.
  - rewrite H. vm_compute. reflexivity.
  - exfalso. revert E. vm_compute. discriminate.
Defined.

(** Both cases occur: the float64 just below one second stays in second 0 on
    its own, and lands on 00:20:01 once 1200 is added. *)
Example shifted_stamp_rounds_up :
  let seconds := Float64.round64 (1 - Float64.P2 (-53))%Q in
  Float64.is_float64 seconds
  /\ formatTimestamp seconds = "00:00:00"
  /\ formatTimestamp (Float64.fadd seconds (inject_Z 1200)) = "00:20:01"
  /\ formatTimestamp (Float64.fadd (3 # 2) (inject_Z 1200)) = "00:20:01".
Proof. vm_compute. repeat split. Qed.

(** ** Blank speakers *)

(** The segment with its speaker label as the renderer reads it. *)
Definition labelled (segment : OpenAI.DiarizedSegment) : OpenAI.DiarizedSegment :=
  {| OpenAI.Speaker := Renderer.speakerOf segment;
     OpenAI.Start := OpenAI.Start segment;
     OpenAI.End := OpenAI.End segment;
     OpenAI.Text := OpenAI.Text segment |}.

Lemma renderSegment_labelled title st segment :
  Renderer.renderSegment title st (labelled segment)
  = Renderer.renderSegment title st segment.
Proof.
  assert (E : Renderer.speakerOf (labelled segment) = Renderer.speakerOf segment).
  { unfold Renderer.speakerOf at 1. unfold labelled. cbn [OpenAI.Speaker].
    destruct (String.eqb (Renderer.speakerOf segment) "") eqn:Hs; [| reflexivity].
    apply String.eqb_eq in Hs. destruct (speakerOf_nonempty segment Hs). }
  unfold Renderer.renderSegment. rewrite E. reflexivity.
Qed.

(** X4.  The renderer does not tell a missing speaker from a speaker called
    Unknown: writing Unknown for every blank label changes nothing in the
    output, so a fragment without speaker continues the block of a speaker
    called Unknown. *)
Theorem render_blank_speaker (title text : string)
    (segments : list OpenAI.DiarizedSegment) :
  Renderer.render title text (map labelled segments)
  = Renderer.render title text segments.
Proof.
  unfold Renderer.render. rewrite length_map.
  destruct (0 <? Z.of_nat (length segments)); [| reflexivity].
  f_equal. unfold Renderer.renderLoop.
  generalize {| Renderer.output := ""; Renderer.currentSpeaker := "" |}.
  induction segments as [|s rest IH]; intros st; [reflexivity |].
  cbn [map fold_left]. rewrite renderSegment_labelled. apply IH.
Qed.

(** ** Events and requests *)

(** The pauses a list of events records, in seconds. *)
Definition sleeps (evs : list Event) : list Z :=
  flat_map (fun ev => match ev with EvSleep seconds => [seconds] | _ => [] end) evs.

Lemma requests_app (evs evs' : list Event) :
  requests (evs ++ evs') = requests evs ++ requests evs'.
Proof. apply flat_map_app. Qed.

Lemma written_app (evs evs' : list Event) :
  written (evs ++ evs') = written evs ++ written evs'.
Proof. apply flat_map_app. Qed.

Lemma sleeps_app (evs evs' : list Event) :
  sleeps (evs ++ evs') = sleeps evs ++ sleeps evs'.
Proof. apply flat_map_app. Qed.

Lemma opened_app (evs evs' : list Event) :
  opened (evs ++ evs') = opened evs ++ opened evs'.
Proof. apply flat_map_app. Qed.

Lemma repeat_snoc {A} (x : A) (n : nat) : repeat x n ++ [x] = x :: repeat x n.
Proof. induction n as [|n IH]; [reflexivity |]. simpl. now rewrite IH. Qed.

(** Two ways to split a trace at the same old events give the same new
    events. *)
Lemma new_events_unique (evs evs' old : list Event) :
  evs ++ old = evs' ++ old -> evs = evs'.
Proof. apply app_inv_tail. Qed.

(** A trace is the new events in front of the old ones. *)
Ltac trace_shape :=
  cbn [after trace]; repeat (cbn [app]; rewrite <- app_assoc); cbn [app]; reflexivity.

(** The request that submits a job. *)
Definition submitRequest (audioURL apiKey : string) : Request :=
  {| req_method := "POST";
     req_url := AssemblyAI.assemblyAIBaseURL +:+ "/transcript";
     req_authorization := apiKey;
     req_body := BodyJSON {| AssemblyAI.AudioURL := audioURL;
                             AssemblyAI.SpeakerLabels := true |} |}.

(** The request that uploads a file. *)
Definition uploadRequest (audioFile apiKey : string) : Request :=
  {| req_method := "POST";
     req_url := AssemblyAI.assemblyAIBaseURL +:+ "/upload";
     req_authorization := apiKey;
     req_body := BodyFile audioFile |}.

(** The request of the synchronous client. *)
Definition formRequest (fields : list (string * string)) (audioFile apiKey : string)
    : Request :=
  {| req_method := "POST";
     req_url := OpenAI.openAIAPIURL;
     req_authorization := "Bearer " +:+ apiKey;
     req_body := BodyMultipart audioFile fields |}.

(** What one call of the synchronous client leaves in the trace. *)
Lemma transcribeAudioWith_trace fields env audioFile apiKey w :
  let '(r, w') := transcribeAudioWith fields env audioFile apiKey w in
  files w' = files w
  /\ exists evs,
       trace w' = evs ++ trace w
       /\ opened evs = [audioFile]
       /\ commands evs = [] /\ temporaries evs = [] /\ written evs = []
       /\ sleeps evs = []
       /\ match r with
          | Ok _ => requests evs = [formRequest fields audioFile apiKey]
          | Err _ =>
              requests evs = []
              \/ requests evs = [formRequest fields audioFile apiKey]
          end.
Proof.
  unfold transcribeAudioWith, bind, ask, emit, http_Do, bind, ask, emit, ret, fail.
  cbn [fst snd files trace]. fold (formRequest fields audioFile apiKey).
  destruct (open_file env (trace w) audioFile).
  2: { split; [reflexivity |]. exists [EvOpen audioFile]. cbn. repeat split. now left. }
  destruct (copy_file env _ audioFile).
  2: { split; [reflexivity |]. exists [EvOpen audioFile]. cbn. repeat split. now left. }
  set (rq := formRequest fields audioFile apiKey).
  assert (H : forall (r : Result OpenAI.TranscriptionResponse),
             files w = files w
             /\ exists evs,
                  EvHTTP rq :: EvOpen audioFile :: trace w = evs ++ trace w
                  /\ opened evs = [audioFile]
                  /\ commands evs = [] /\ temporaries evs = [] /\ written evs = []
                  /\ sleeps evs = []
                  /\ match r with
                     | Ok _ => requests evs = [rq]
                     | Err _ => requests evs = [] \/ requests evs = [rq]
                     end).
  { intros r. split; [reflexivity |]. exists [EvHTTP rq; EvOpen audioFile].
    cbn. repeat split. destruct r; [reflexivity | now right]. }
  destruct (http_do env _ rq) as [e | c e | c body];
    [apply (H (Err e)) | apply (H (Err e)) |].
  destruct (negb (c =? 200)); [apply (H (Err "")) |].
  destruct (json_openai env body) as [t | e]; [apply (H (Ok t)) | apply (H (Err e))].
Qed.

(** The request of the program of [src/main.go]. *)
Definition simpleRequest (apiKey audioFile : string) : Request :=
  formRequest [("model", OpenAI.model); ("response_format", "verbose_json");
               ("timestamp_granularities[]", "segment")] audioFile apiKey.

(** The requests of the chunked program. *)
Definition chunkRequest (apiKey chunk : string) : Request :=
  formRequest [("model", OpenAI.model); ("response_format", "diarized_json");
               ("chunking_strategy", "auto")] chunk apiKey.


(** ** The polling loop, as a whole *)

(** One turn of the polling loop, spelled out. *)
Lemma pollOnce_run env apiKey pollingURL t w :
  Async.pollOnce env apiKey pollingURL t w
  = match http_NewRequest env "GET" pollingURL with
    | Err e => (Err ("failed to create polling request: " +:+ e), w)
    | Ok _ =>
        let w1 := after (EvHTTP (pollRequest apiKey pollingURL)) w in
        match http_do env (trace w) (pollRequest apiKey pollingURL) with
        | DoFailed e => (Err ("failed to poll: " +:+ e), w1)
        | ReadFailed _ e => (Err ("failed to read polling response: " +:+ e), w1)
        | Response _ body =>
            match json_assembly env body t with
            | Err e => (Err ("failed to parse polling response: " +:+ e), w1)
            | Ok t' =>
                if String.eqb (AssemblyAI.Status t') "completed"
                then (Ok (Async.Done t'), w1)
                else if String.eqb (AssemblyAI.Status t') "error"
                  then (Err ("transcription failed: " +:+ AssemblyAI.Error t'), w1)
                else if String.eqb (AssemblyAI.Status t') "queued"
                        || String.eqb (AssemblyAI.Status t') "processing"
                  then (Ok (Async.Wait t'),
                        after (EvSleep 3)
                          (after (EvStdout ("Status: " +:+ AssemblyAI.Status t'
                                              +:+ "... waiting" +:+ newline)) w1))
                else (Err ("unexpected status: " +:+ AssemblyAI.Status t'), w1)
            end
        end
    end.
Proof.
  unfold Async.pollOnce.
  destruct (http_NewRequest env "GET" pollingURL) as [[] | e]; [| reflexivity].
  unfold bind, http_Do, bind, ask, emit, ret, fail, Print, time_Sleep, emit.
  cbn [fst snd files trace]. cbv zeta. fold (pollRequest apiKey pollingURL). unfold after.
  destruct (http_do env (trace w) (pollRequest apiKey pollingURL)) as [e | c e | c body];
    [reflexivity | reflexivity |].
  destruct (json_assembly env body t) as [t' | e]; [| reflexivity].
  destruct (String.eqb (AssemblyAI.Status t') "completed"); [reflexivity |].
  destruct (String.eqb (AssemblyAI.Status t') "error"); [reflexivity |].
  destruct (String.eqb (AssemblyAI.Status t') "queued"
            || String.eqb (AssemblyAI.Status t') "processing"); reflexivity.
Qed.

(** What the loop has done when it stops, by its result; [k] is the number
    of requests sent. *)
Definition pollOutcome (env : Env) (pollingURL : string) (polls k : nat)
    (evs : list Event) (r : Result (option AssemblyAI.TranscriptionResponse)) : Prop :=
  match r with
  | Ok (Some t') =>
      AssemblyAI.Status t' = "completed"
      /\ (1 <= k)%nat /\ sleeps evs = repeat 3 (k - 1)
  | Ok None => k = polls /\ sleeps evs = repeat 3 polls
  | Err msg =>
      ((1 <= k)%nat /\ sleeps evs = repeat 3 (k - 1))
      \/ (evs = []
          /\ exists e, http_NewRequest env "GET" pollingURL = Err e
                       /\ msg = "failed to create polling request: " +:+ e)
  end.

Lemma pollLoop_effects env apiKey pollingURL polls :
  forall t w r w',
    Async.pollLoop env apiKey pollingURL polls t w = (r, w') ->
    files w' = files w
    /\ exists evs (k : nat),
         trace w' = evs ++ trace w
         /\ (k <= polls)%nat
         /\ requests evs = repeat (pollRequest apiKey pollingURL) k
         /\ written evs = [] /\ commands evs = [] /\ temporaries evs = []
         /\ opened evs = []
         /\ pollOutcome env pollingURL polls k evs r.
Proof.
  induction polls as [|polls IH]; intros t w r w' Hrun.
  - injection Hrun as <- <-. split; [reflexivity |].
    exists [], 0%nat. repeat split; reflexivity.
  - cbn [Async.pollLoop] in Hrun. unfold bind at 1 in Hrun.
    rewrite pollOnce_run in Hrun.
    destruct (http_NewRequest env "GET" pollingURL) as [[] | e0] eqn:Hnew.
    2: { injection Hrun as <- <-. split; [reflexivity |].
         exists [], 0%nat. cbn. repeat split; try lia.
         right. split; [reflexivity |]. exists e0. split; [exact Hnew | reflexivity]. }
    cbv zeta in Hrun.
    set (rq := pollRequest apiKey pollingURL) in *.
    assert (Hstop : forall (e : string),
               (Err e : Result (option AssemblyAI.TranscriptionResponse),
                after (EvHTTP rq) w) = (r, w') ->
               files w' = files w
               /\ exists evs (k : nat),
                    trace w' = evs ++ trace w
                    /\ (k <= S polls)%nat
                    /\ requests evs = repeat rq k
                    /\ written evs = [] /\ commands evs = [] /\ temporaries evs = []
                    /\ opened evs = []
                    /\ pollOutcome env pollingURL (S polls) k evs r).
    { intros e H. injection H as <- <-. split; [reflexivity |].
      exists [EvHTTP rq], 1%nat. cbn. repeat split; try lia.
      left. split; [lia | reflexivity]. }
    destruct (http_do env (trace w) rq) as [e | c e | c body];
      [apply (Hstop _ Hrun) | apply (Hstop _ Hrun) |].
    destruct (json_assembly env body t) as [t' | e]; [| apply (Hstop _ Hrun)].
    destruct (String.eqb (AssemblyAI.Status t') "completed") eqn:Hc.
    { injection Hrun as <- <-. split; [reflexivity |].
      exists [EvHTTP rq], 1%nat. cbn. apply String.eqb_eq in Hc.
      repeat split; try lia; assumption. }
    destruct (String.eqb (AssemblyAI.Status t') "error"); [apply (Hstop _ Hrun) |].
    destruct (String.eqb (AssemblyAI.Status t') "queued"
              || String.eqb (AssemblyAI.Status t') "processing");
      [| apply (Hstop _ Hrun)].
    apply IH in Hrun.
    destruct Hrun as (Hf & evs & k & Ht & Hk & Hrq & Hw & Hcm & Htmp & Hop & Hr).
    cbn [after files trace] in Hf, Ht.
    split; [exact Hf |].
    set (turn := [EvSleep 3;
                  EvStdout ("Status: " +:+ AssemblyAI.Status t' +:+ "... waiting" +:+ newline);
                  EvHTTP rq]).
    assert (Hturn : sleeps turn = [3] /\ requests turn = [rq] /\ written turn = []
                    /\ commands turn = [] /\ temporaries turn = [] /\ opened turn = [])
      by (repeat split; reflexivity).
    destruct Hturn as (Hs1 & Hr1 & Hw1 & Hc1 & Ht1 & Ho1).
    exists (evs ++ turn), (S k).
    split; [rewrite Ht, <- app_assoc; reflexivity |].
    split; [lia |].
    rewrite requests_app, written_app, commands_app, temporaries_app,
      opened_app, Hrq, Hw, Hcm, Htmp, Hop, Hr1, Hw1, Hc1, Ht1, Ho1.
    split; [simpl; apply repeat_snoc |].
    split; [reflexivity |]. split; [reflexivity |]. split; [reflexivity |].
    split; [reflexivity |].
    unfold pollOutcome in *. rewrite sleeps_app, Hs1.
    destruct r as [[t'' |] | msg].
    + destruct Hr as (Hs & Hk1 & Hsl). split; [exact Hs |]. split; [lia |].
      rewrite Hsl, repeat_snoc. destruct k; [lia |]. simpl. now rewrite Nat.sub_0_r.
    + destruct Hr as (-> & Hsl). split; [reflexivity |]. rewrite Hsl. apply repeat_snoc.
    + left. split; [lia |].
      destruct Hr as [(Hk1 & Hsl) | (_ & e & He & _)]; [| congruence].
      rewrite Hsl, repeat_snoc. destruct k; [lia |]. simpl. now rewrite Nat.sub_0_r.
Qed.

(** X5.  The polling loop builds the same GET request at every turn: the
    polling URL, authorised by the key, no body.  If the request cannot be
    built, the URL being what the id of the job made it, the loop fails
    with [failed to create polling request] before it sends anything.
    Otherwise, whatever the service answers, every turn sends that request
    once; the loop changes no file, writes nothing and runs no command; it
    pauses 3 seconds after every answer that says queued or processing and
    never after its last request; and a transcription it returns has the
    status completed. *)
Theorem poll_loop_discipline (env : Env) (apiKey pollingURL : string) (polls : nat)
    (t : AssemblyAI.TranscriptionResponse) (w : World) :
  let '(r, w') := Async.pollLoop env apiKey pollingURL polls t w in
  files w' = files w
  /\ exists evs (k : nat),
       trace w' = evs ++ trace w
       /\ (k <= polls)%nat
       /\ requests evs = repeat (pollRequest apiKey pollingURL) k
       /\ written evs = [] /\ commands evs = [] /\ temporaries evs = []
       /\ match r with
          | Ok (Some t') =>
              AssemblyAI.Status t' = "completed"
              /\ (1 <= k)%nat /\ sleeps evs = repeat 3 (k - 1)
          | Ok None => k = polls /\ sleeps evs = repeat 3 polls
          | Err msg =>
              ((1 <= k)%nat /\ sleeps evs = repeat 3 (k - 1))
              \/ (evs = []
                  /\ exists e, http_NewRequest env "GET" pollingURL = Err e
                               /\ msg = "failed to create polling request: " +:+ e)
          end
       /\ (forall e, http_NewRequest env "GET" pollingURL = Err e ->
           evs = []
           /\ r = match polls with
                  | O => Ok None
                  | S _ => Err ("failed to create polling request: " +:+ e)
                  end).
Proof.
  destruct (Async.pollLoop env apiKey pollingURL polls t w) as [r w'] eqn:Hrun.
  destruct (pollLoop_effects env apiKey pollingURL polls t w r w' Hrun)
    as (Hf & evs & k & Ht & Hk & Hrq & Hw & Hcm & Htmp & _ & Hr).
  split; [exact Hf |]. exists evs, k.
  split; [exact Ht |]. split; [exact Hk |]. split; [exact Hrq |].
  split; [exact Hw |]. split; [exact Hcm |]. split; [exact Htmp |].
  split; [exact Hr |].
  intros e He. destruct polls as [|polls].
  - injection Hrun as <- <-. split; [| reflexivity].
    apply (app_inv_tail (trace w)). rewrite <- Ht. reflexivity.
  - cbn [Async.pollLoop] in Hrun. unfold bind at 1 in Hrun.
    rewrite pollOnce_run, He in Hrun. injection Hrun as <- <-.
    split; [| reflexivity].
    apply (app_inv_tail (trace w)). rewrite <- Ht. reflexivity.
Qed.

(** A submission answered with an id that holds a line feed: the request of
    the first poll cannot be built, and nothing is sent after the
    submission. *)
Example poll_request_not_built :
  let '(r, w) :=
    Async.transcribeAudio (Demo.env 0 (scripted [Response 200 "queued-odd-id"]))
      10 "upload-url" "secret" Demo.w0 in
  r = Err "failed to create polling request: net/url: invalid control character in URL"
  /\ requests (trace w) = [submitRequest "upload-url" "secret"]
  /\ sleeps (trace w) = [].
Proof. vm_compute. repeat split; reflexivity. Qed.

(** ** Submission and upload *)

(** [transcribeAudio] of the asynchronous client, spelled out. *)
Lemma Async_transcribeAudio_run env polls audioURL apiKey w :
  Async.transcribeAudio env polls audioURL apiKey w
  = let w1 := after (EvHTTP (submitRequest audioURL apiKey)) w in
    match http_do env (trace w) (submitRequest audioURL apiKey) with
    | DoFailed e => (Err ("failed to send request: " +:+ e), w1)
    | ReadFailed _ e => (Err ("failed to read response: " +:+ e), w1)
    | Response StatusCode body =>
        if negb (StatusCode =? 200) then
          (Err ("transcription request failed with status " +:+ fmt_d StatusCode
                  +:+ ": " +:+ body), w1)
        else
          match json_assembly env body AssemblyAI.zero with
          | Err e => (Err ("failed to parse response: " +:+ e), w1)
          | Ok transcription =>
              Async.pollLoop env apiKey
                (AssemblyAI.assemblyAIBaseURL +:+ "/transcript/"
                   +:+ AssemblyAI.ID transcription)
                polls transcription w1
          end
    end.
Proof.
  unfold Async.transcribeAudio. unfold bind at 1. unfold http_Do, bind, ask, emit, ret.
  cbn [fst snd files trace]. fold (submitRequest audioURL apiKey). cbv zeta. unfold after.
  destruct (http_do env (trace w) (submitRequest audioURL apiKey)) as [e | c e | c body];
    [reflexivity | reflexivity |].
  destruct (negb (c =? 200)); [reflexivity |].
  destruct (json_assembly env body AssemblyAI.zero); reflexivity.
Qed.

Lemma Async_transcribeAudio_effects env polls audioURL apiKey w :
  let '(r, w') := Async.transcribeAudio env polls audioURL apiKey w in
  files w' = files w
  /\ exists evs before,
       trace w' = evs ++ trace w
       /\ evs = before ++ [EvHTTP (submitRequest audioURL apiKey)]
       /\ written evs = [] /\ commands evs = [] /\ temporaries evs = []
       /\ opened evs = []
       /\ (length (requests evs) <= S polls)%nat
       /\ match r with
          | Ok (Some t') => AssemblyAI.Status t' = "completed"
          | Ok None => sleeps evs = repeat 3 polls
          | Err _ => True
          end
       /\ match http_do env (trace w) (submitRequest audioURL apiKey) with
          | Response StatusCode body =>
              if StatusCode =? 200 then
                match json_assembly env body AssemblyAI.zero with
                | Ok job =>
                    exists k : nat,
                      (k <= polls)%nat
                      /\ requests before
                         = repeat (pollRequest apiKey
                                     (AssemblyAI.assemblyAIBaseURL +:+ "/transcript/"
                                        +:+ AssemblyAI.ID job)) k
                | Err e => before = [] /\ r = Err ("failed to parse response: " +:+ e)
                end
              else
                before = []
                /\ r = Err ("transcription request failed with status "
                              +:+ fmt_d StatusCode +:+ ": " +:+ body)
          | DoFailed e => before = [] /\ r = Err ("failed to send request: " +:+ e)
          | ReadFailed _ e => before = [] /\ r = Err ("failed to read response: " +:+ e)
          end.
Proof.
  rewrite Async_transcribeAudio_run. cbv zeta.
  set (rq := submitRequest audioURL apiKey).
  assert (Hstop : forall (msg : string),
             files (after (EvHTTP rq) w) = files w
             /\ exists evs before,
                  trace (after (EvHTTP rq) w) = evs ++ trace w
                  /\ evs = before ++ [EvHTTP rq]
                  /\ written evs = [] /\ commands evs = [] /\ temporaries evs = []
                  /\ opened evs = []
                  /\ (length (requests evs) <= S polls)%nat
                  /\ True /\ before = [] /\ Err msg = Err msg :> Result (option AssemblyAI.TranscriptionResponse)).
  { intros msg. split; [reflexivity |]. exists [EvHTTP rq], [].
    cbn. repeat split; lia. }
  destruct (http_do env (trace w) rq) as [e | c e | c body].
  1,2: match goal with |- context [Err ?m] => destruct (Hstop m) as (Hf & evs & before & H) end;
       split; [exact Hf |]; exists evs, before; tauto.
  destruct (c =? 200) eqn:Hc; cbn [negb].
  2: { match goal with |- context [Err ?m] => destruct (Hstop m) as (Hf & evs & before & H) end.
       split; [exact Hf |]. exists evs, before. tauto. }
  destruct (json_assembly env body AssemblyAI.zero) as [job | e].
  2: { match goal with |- context [Err ?m] => destruct (Hstop m) as (Hf & evs & before & H) end.
       split; [exact Hf |]. exists evs, before. tauto. }
  destruct (Async.pollLoop env apiKey _ polls job _) as [r w'] eqn:Hloop.
  apply pollLoop_effects in Hloop.
  destruct Hloop as (Hf & evs & k & Ht & Hk & Hrq & Hw & Hcm & Htmp & Hop & Hr).
  cbn [after files trace] in Hf, Ht. unfold pollOutcome in Hr.
  split; [exact Hf |]. exists (evs ++ [EvHTTP rq]), evs.
  split; [rewrite Ht, <- app_assoc; reflexivity |]. split; [reflexivity |].
  rewrite written_app, commands_app, temporaries_app, opened_app, requests_app, sleeps_app,
    Hw, Hcm, Htmp, Hop, Hrq.
  cbn. rewrite !app_nil_r.
  split; [reflexivity |]. split; [reflexivity |]. split; [reflexivity |].
  split; [reflexivity |].
  split; [rewrite length_app, repeat_length; simpl; lia |].
  split.
  - destruct r as [[t' |] | msg]; [tauto | tauto | exact I].
  - exists k. split; [exact Hk | reflexivity].
Qed.


(** X6.  The asynchronous [transcribeAudio] first submits the job, and polls only
    if the submission is answered 200 with a document that decodes.  Every
    poll is then the GET of [/transcript/<id>] for the id of the submission's
    answer, whatever ids later answers carry, authorised by the same key.  A
    submission answered with another status fails with the status code and
    the body, with no poll.  Nothing is written, no command is run; a
    transcription that is returned has the status completed. *)
Theorem submit_then_poll (env : Env) (polls : nat) (audioURL apiKey : string)
    (w : World) :
  let '(r, w') := Async.transcribeAudio env polls audioURL apiKey w in
  files w' = files w
  /\ exists evs polled,
       trace w' = evs ++ trace w
       /\ evs = polled ++ [EvHTTP (submitRequest audioURL apiKey)]
       /\ written evs = [] /\ commands evs = []
       /\ match r with
          | Ok (Some t') => AssemblyAI.Status t' = "completed"
          | _ => True
          end
       /\ match http_do env (trace w) (submitRequest audioURL apiKey) with
          | Response StatusCode body =>
              if StatusCode =? 200 then
                match json_assembly env body AssemblyAI.zero with
                | Ok job =>
                    exists k : nat,
                      (k <= polls)%nat
                      /\ requests polled
                         = repeat (pollRequest apiKey
                                     (AssemblyAI.assemblyAIBaseURL +:+ "/transcript/"
                                        +:+ AssemblyAI.ID job)) k
                | Err e => polled = [] /\ r = Err ("failed to parse response: " +:+ e)
                end
              else
                polled = []
                /\ r = Err ("transcription request failed with status "
                              +:+ fmt_d StatusCode +:+ ": " +:+ body)
          | DoFailed e => polled = [] /\ r = Err ("failed to send request: " +:+ e)
          | ReadFailed _ e => polled = [] /\ r = Err ("failed to read response: " +:+ e)
          end.
Proof.
  pose proof (Async_transcribeAudio_effects env polls audioURL apiKey w) as H.
  destruct (Async.transcribeAudio env polls audioURL apiKey w) as [r w'].
  destruct H as (Hf & evs & before & Ht & He & Hw & Hc & _ & _ & _ & Hr & Hshape).
  split; [exact Hf |]. exists evs, before.
  split; [exact Ht |]. split; [exact He |]. split; [exact Hw |]. split; [exact Hc |].
  split; [| exact Hshape].
  destruct r as [[t' |] | msg]; [exact Hr | exact I | exact I].
Qed.

(** [uploadAudio], spelled out. *)
Lemma uploadAudio_run env audioFile apiKey w :
  Async.uploadAudio env audioFile apiKey w
  = let w1 := after (EvOpen audioFile) w in
    match open_file env (trace w) audioFile with
    | Err e => (Err ("failed to open audio file: " +:+ e), w1)
    | Ok _ =>
        let w2 := after (EvHTTP (uploadRequest audioFile apiKey)) w1 in
        match http_do env (trace w1) (uploadRequest audioFile apiKey) with
        | DoFailed e => (Err ("failed to send request: " +:+ e), w2)
        | ReadFailed _ e => (Err ("failed to read response: " +:+ e), w2)
        | Response StatusCode body =>
            if negb (StatusCode =? 200) then
              (Err ("upload failed with status " +:+ fmt_d StatusCode +:+ ": " +:+ body), w2)
            else
              match json_upload env body with
              | Err e => (Err ("failed to parse response: " +:+ e), w2)
              | Ok UploadURL => (Ok UploadURL, w2)
              end
        end
    end.
Proof.
  unfold Async.uploadAudio, bind, ask, emit, http_Do, bind, ask, emit, ret, fail.
  cbn [fst snd files trace]. fold (uploadRequest audioFile apiKey). cbv zeta. unfold after.
  cbn [files trace].
  destruct (open_file env (trace w) audioFile); [| reflexivity].
  destruct (http_do env _ (uploadRequest audioFile apiKey)) as [e | c e | c body];
    [reflexivity | reflexivity |].
  destruct (negb (c =? 200)); [reflexivity |].
  destruct (json_upload env body); reflexivity.
Qed.


(** ** Answers with another status than 200 *)

(** X7.  When the service answers a request with a status other than 200, each of
    the three calls that check the status fails with a message that has the
    status code and the body as they came, and does nothing more: the
    synchronous [transcribeAudio] of both programs, [uploadAudio], and the
    submission of the asynchronous [transcribeAudio], which then sends no
    poll. *)
Theorem status_errors (env : Env) (StatusCode : Z) (body : string) :
  StatusCode <> 200 ->
  (forall tr req, http_do env tr req = Response StatusCode body) ->
  (forall tr path, open_file env tr path = Ok tt) ->
  (forall tr path, copy_file env tr path = Ok tt) ->
  (forall audioFile apiKey w,
     Simple.transcribeAudio env audioFile apiKey w
     = (Err ("API request failed with status " +:+ fmt_d StatusCode +:+ ": " +:+ body),
        after (EvHTTP (formRequest
                         [("model", OpenAI.model); ("response_format", "verbose_json");
                          ("timestamp_granularities[]", "segment")] audioFile apiKey))
          (after (EvOpen audioFile) w)))
  /\ (forall audioFile apiKey w,
        Chunked.transcribeAudio env audioFile apiKey w
        = (Err ("API request failed with status " +:+ fmt_d StatusCode +:+ ": " +:+ body),
           after (EvHTTP (formRequest
                            [("model", OpenAI.model); ("response_format", "diarized_json");
                             ("chunking_strategy", "auto")] audioFile apiKey))
             (after (EvOpen audioFile) w)))
  /\ (forall audioFile apiKey w,
        Async.uploadAudio env audioFile apiKey w
        = (Err ("upload failed with status " +:+ fmt_d StatusCode +:+ ": " +:+ body),
           after (EvHTTP (uploadRequest audioFile apiKey)) (after (EvOpen audioFile) w)))
  /\ (forall polls audioURL apiKey w,
        Async.transcribeAudio env polls audioURL apiKey w
        = (Err ("transcription request failed with status " +:+ fmt_d StatusCode
                  +:+ ": " +:+ body),
           after (EvHTTP (submitRequest audioURL apiKey)) w)).
Proof.
  intros Hc Hhttp Hopen Hcopy.
  assert (Hneq : negb (StatusCode =? 200) = true).
  { apply negb_true_iff, Z.eqb_neq, Hc. }
  assert (Hform : forall fields audioFile apiKey w,
             transcribeAudioWith fields env audioFile apiKey w
             = (Err ("API request failed with status " +:+ fmt_d StatusCode
                       +:+ ": " +:+ body),
                after (EvHTTP (formRequest fields audioFile apiKey))
                  (after (EvOpen audioFile) w))).
  { intros fields audioFile apiKey w.
    unfold transcribeAudioWith, bind, ask, emit, http_Do, bind, ask, emit, ret, fail.
    cbn [fst snd files trace]. rewrite Hopen, Hcopy.
    fold (formRequest fields audioFile apiKey). rewrite Hhttp, Hneq. reflexivity. }
  split; [intros; apply Hform |]. split; [intros; apply Hform |]. split.
  - intros audioFile apiKey w. rewrite uploadAudio_run. cbv zeta.
    rewrite Hopen, Hhttp, Hneq. reflexivity.
  - intros polls audioURL apiKey w. rewrite Async_transcribeAudio_run. cbv zeta.
    rewrite Hhttp, Hneq. reflexivity.
Qed.

Lemma status_errors_witness :
  Async.transcribeAudio
    (Demo.env 0 (fun _ _ => Response 503 "Service Unavailable"))
    3 "upload-url" "secret" Demo.w0
  = (Err "transcription request failed with status 503: Service Unavailable",
     after (EvHTTP (submitRequest "upload-url" "secret")) Demo.w0).
Proof.
  assert (H := status_errors
                 (Demo.env 0 (fun _ _ => Response 503 "Service Unavailable"))
                 503 "Service Unavailable").
  destruct H as (_ & _ & _ & H).
  - discriminate.
  - reflexivity.
  - reflexivity.
  - reflexivity.
  - apply H.
Defined.

(** ** The conversion to MP3 *)

(** [convertToMP3], spelled out. *)
Lemma convertToMP3_run env videoFile w :
  convertToMP3 env videoFile w
  = let w1 := after (EvStat videoFile) w in
    if stat_not_exist env (trace w) videoFile
    then (Err ("video file does not exist: " +:+ videoFile), w1)
    else
      match create_temp env (trace w1) "transcribe-*.mp3" with
      | Err e =>
          (Err ("failed to create temp file: " +:+ e),
           after (EvCreateTemp "transcribe-*.mp3" (Err e)) w1)
      | Ok mp3Path =>
          let w2 := {| files := {[mp3Path]} ∪ files w;
                       trace := EvCreateTemp "transcribe-*.mp3" (Ok mp3Path) :: trace w1 |} in
          let cmd := FFmpegToMP3 videoFile mp3Path in
          let r := run_cmd env (trace w2) cmd in
          match run_error r with
          | Some e =>
              (Err ("ffmpeg failed: " +:+ e +:+ newline +:+ "Output: " +:+ proc_stderr r),
               {| files := ({[mp3Path]} ∪ files w) ∖ {[mp3Path]};
                  trace := EvRemove mp3Path :: EvRun cmd :: trace w2 |})
          | None => (Ok mp3Path, after (EvRun cmd) w2)
          end
      end.
Proof.
  unfold convertToMP3, bind, ask, emit, os_CreateTemp, exec_Run, bind, ask, emit,
    os_Remove, ret, fail.
  cbn [fst snd files trace]. cbv zeta. unfold after. cbn [files trace].
  destruct (stat_not_exist env (trace w) videoFile); [reflexivity |].
  destruct (create_temp env _ "transcribe-*.mp3") as [mp3Path | e]; [| reflexivity].
  cbn [files trace].
  destruct (run_error _); reflexivity.
Qed.

(** What a call of [convertToMP3] does and leaves. *)
Lemma convertToMP3_effects (env : Env) (videoFile : string) (w : World) :
  let '(r, w') := convertToMP3 env videoFile w in
  exists evs,
    trace w' = evs ++ trace w
    /\ requests evs = [] /\ written evs = [] /\ opened evs = [] /\ sleeps evs = []
    /\ (stat_not_exist env (trace w) videoFile = true ->
        r = Err ("video file does not exist: " +:+ videoFile)
        /\ evs = [EvStat videoFile] /\ files w' = files w)
    /\ match r with
       | Ok mp3Path =>
           temporaries evs = [mp3Path]
           /\ commands evs = [FFmpegToMP3 videoFile mp3Path]
           /\ files w' = {[mp3Path]} ∪ files w
       | Err msg =>
           files w' = files w ∖ list_to_set (temporaries evs)
           /\ ((commands evs = [] /\ temporaries evs = []
                /\ (msg = "video file does not exist: " +:+ videoFile
                    \/ exists e, msg = "failed to create temp file: " +:+ e))
               \/ exists mp3Path e output,
                    commands evs = [FFmpegToMP3 videoFile mp3Path]
                    /\ temporaries evs = [mp3Path]
                    /\ hd_error evs = Some (EvRemove mp3Path)
                    /\ msg = "ffmpeg failed: " +:+ e +:+ newline
                              +:+ "Output: " +:+ output)
       end.
Proof.
  rewrite convertToMP3_run. cbv zeta.
  destruct (stat_not_exist env (trace w) videoFile) eqn:Hstat.
  { exists [EvStat videoFile]. cbn. repeat split; try reflexivity.
    - set_solver.
    - left. repeat split. left. reflexivity. }
  destruct (create_temp env _ "transcribe-*.mp3") as [mp3Path | e] eqn:Htmp.
  2: { exists [EvCreateTemp "transcribe-*.mp3" (Err e); EvStat videoFile]. cbn.
       repeat split; try reflexivity; try discriminate.
       - set_solver.
       - left. repeat split. right. exists e. reflexivity. }
  cbn [after trace] in *.
  destruct (run_error _) as [e |] eqn:Hrun.
  - exists [EvRemove mp3Path; EvRun (FFmpegToMP3 videoFile mp3Path);
            EvCreateTemp "transcribe-*.mp3" (Ok mp3Path); EvStat videoFile].
    cbn. repeat split; try reflexivity; try discriminate.
    + set_solver.
    + right. eexists mp3Path, e, _. repeat split.
  - exists [EvRun (FFmpegToMP3 videoFile mp3Path);
            EvCreateTemp "transcribe-*.mp3" (Ok mp3Path); EvStat videoFile].
    cbn. repeat split; try reflexivity; try discriminate.
Qed.


(** ** The program of [src/main.go] *)


(** The line [main] prints before [os.Exit(1)], by the step that failed. *)
Definition diagnostics : list string :=
  ["Error loading .env file: "; "Error converting video: ";
   "Error transcribing audio: "; "Error saving transcription: "].

(** [main] with a video file, spelled out. *)
Lemma Simple_main_run env prog videoFile rest w :
  Simple.main env (prog :: videoFile :: rest) w
  = match godotenv_Load env with
    | Err e => (1, after (EvStdout ("Error loading .env file: " +:+ e +:+ newline)) w)
    | Ok _ =>
        match convertToMP3 env videoFile
                (after (EvStdout ("Converting video to MP3..." +:+ newline)) w) with
        | (Err e, w2) =>
            (1, after (EvStdout ("Error converting video: " +:+ e +:+ newline)) w2)
        | (Ok mp3File, w2) =>
            match Simple.transcribeAudio env mp3File (os_Getenv env "OPENAI_API_KEY")
                    (after (EvStdout ("Transcribing audio with speaker diarization..."
                                        +:+ newline)) w2) with
            | (Err e, w4) =>
                (1, after (EvStdout ("Error transcribing audio: " +:+ e +:+ newline)) w4)
            | (Ok transcription, w4) =>
                let outputFile := trim_ext env videoFile +:+ ".txt" in
                let content := Simple.renderTranscription transcription in
                let w5 := after (EvWriteFile outputFile content) w4 in
                match write_file env (trace w4) outputFile content with
                | Err e =>
                    (1, after (EvStdout ("Error saving transcription: " +:+ e +:+ newline)) w5)
                | Ok _ =>
                    (0, {| files := files w4 ∖ {[mp3File]};
                           trace := EvRemove mp3File
                                      :: EvStdout ("Transcription saved to: " +:+ outputFile
                                                     +:+ newline)
                                      :: trace w5 |})
                end
            end
        end
    end.
Proof.
  unfold Simple.main, process.
  unfold bind at 1. unfold orExit at 1.
  destruct (godotenv_Load env) as [[] | e]; [| reflexivity].
  unfold ret at 1. unfold bind at 1. unfold Println at 1, emit at 1.
  fold (after (EvStdout ("Converting video to MP3..." +:+ newline)) w).
  unfold bind at 1. unfold orExit at 1.
  destruct (convertToMP3 env videoFile _) as [[mp3File | e] w2]; [| reflexivity].
  unfold bind at 1. unfold Println at 1, emit at 1.
  fold (after (EvStdout ("Transcribing audio with speaker diarization..." +:+ newline)) w2).
  unfold bind at 1. unfold orExit at 1.
  destruct (Simple.transcribeAudio env mp3File _ _) as [[transcription | e] w4];
    [| reflexivity].
  cbv zeta. unfold bind at 1. unfold orExit at 1.
  unfold Simple.saveTranscription, os_WriteFile, bind, ask, emit, ret, fail, Print, emit,
    os_Remove, after.
  cbn [fst snd files trace].
  destruct (write_file env (trace w4) _ _) as [[] | e]; reflexivity.
Qed.

(** What a run of [main] does and leaves. *)
Lemma Simple_main_effects (env : Env) (prog videoFile : string) (rest : list string)
    (w : World) :
  let '(code, w') := Simple.main env (prog :: videoFile :: rest) w in
  let outputFile := trim_ext env videoFile +:+ ".txt" in
  exists evs,
    trace w' = evs ++ trace w
    /\ (length (requests evs) <= 1)%nat
    /\ (length (commands evs) <= 1)%nat
    /\ ((code = 0
         /\ files w' = files w ∖ list_to_set (temporaries evs)
         /\ exists mp3File transcription before,
              evs = EvRemove mp3File
                      :: EvStdout ("Transcription saved to: " +:+ outputFile +:+ newline)
                      :: EvWriteFile outputFile (Simple.renderTranscription transcription)
                      :: before
              /\ written before = []
              /\ requests evs = [simpleRequest (os_Getenv env "OPENAI_API_KEY") mp3File]
              /\ commands evs = [FFmpegToMP3 videoFile mp3File])
        \/ (code = 1
            /\ (forall mp3File, In mp3File (opened evs) ->
                  In mp3File (temporaries evs) /\ mp3File ∈ files w')
            /\ exists what e before,
                 evs = EvStdout (what +:+ e +:+ newline) :: before
                 /\ In what diagnostics
                 /\ (written evs = []
                     \/ what = "Error saving transcription: "
                        /\ written evs = [outputFile]))).
Proof.
  rewrite Simple_main_run. unfold diagnostics.
  destruct (godotenv_Load env) as [[] | e].
  2: { eexists [_]. split; [reflexivity |]. cbn. split; [lia |]. split; [lia |].
       right. split; [reflexivity |]. split; [intros ? [] |].
       eexists _, e, []. split; [reflexivity |].
       split; [| left; reflexivity]. simpl. tauto. }
  set (w1 := after _ w).
  pose proof (convertToMP3_effects env videoFile w1) as Hconv.
  destruct (convertToMP3 env videoFile w1) as [[mp3File | e] w2].
  2: { destruct Hconv as (evs & Ht & Hrq & Hwr & Hop & Hsl & _ & Hf & Hcases).
       eexists (_ :: evs ++ [_]). cbn [after trace]. rewrite Ht. unfold w1. cbn [after trace].
       split; [trace_shape |].
       cbn. rewrite requests_app, commands_app, written_app, opened_app, Hrq, Hwr, Hop. cbn.
       rewrite !app_nil_r.
       split; [lia |].
       split; [destruct Hcases as [(-> & _) | (? & ? & ? & -> & _)]; simpl; lia |].
       right. split; [reflexivity |]. split; [intros ? [] |].
       eexists _, e, _. split; [reflexivity |].
       split; [| left; reflexivity]. simpl. tauto. }
  destruct Hconv as (evs & Ht & Hrq & Hwr & Hop & Hsl & _ & Htmp & Hcmd & Hf).
  set (w3 := after _ w2).
  unfold Simple.transcribeAudio.
  match goal with
  | |- context [transcribeAudioWith ?f env mp3File ?k w3] =>
      pose proof (transcribeAudioWith_trace f env mp3File k w3) as Heff;
      destruct (transcribeAudioWith f env mp3File k w3) as [[transcription | e] w4]
  end;
    destruct Heff as (Hf4 & evs4 & Ht4 & Hop4 & Hc4 & Htmp4 & Hw4 & Hs4 & Hr4);
    fold (simpleRequest (os_Getenv env "OPENAI_API_KEY") mp3File) in Hr4;
    assert (Hlen : (length (requests evs4) <= 1)%nat)
      by (try destruct Hr4 as [Hr4 | Hr4]; rewrite Hr4; simpl; lia);
    unfold w3 in Ht4, Hf4; cbn [after trace files] in Ht4, Hf4; rewrite Ht in Ht4;
    rewrite Hf in Hf4; unfold w1 in Ht4, Hf4; cbn [after trace files] in Ht4, Hf4.
  2: { eexists (_ :: evs4 ++ _ :: evs ++ [_]). cbn [after trace files]. rewrite Ht4.
       split; [trace_shape |].
       cbn. rewrite !requests_app, !commands_app, !written_app, !opened_app, !temporaries_app.
       cbn.
       rewrite !requests_app, !commands_app, !written_app, !opened_app, !temporaries_app,
         Hrq, Hwr, Hcmd, Hc4, Hw4, Hop, Hop4, Htmp, Htmp4. cbn.
       rewrite !app_nil_r.
       split; [lia |]. split; [lia |].
       right. split; [reflexivity |].
       split; [intros ? [<- | []]; split; [left; reflexivity | rewrite Hf4; set_solver] |].
       eexists _, e, _. split; [reflexivity |].
       split; [| left; reflexivity]. simpl. tauto. }
  cbv zeta.
  destruct (write_file env (trace w4) _ _) as [[] | e].
  - eexists (_ :: _ :: _ :: evs4 ++ _ :: evs ++ [_]). cbn [after trace files]. rewrite Ht4.
    split; [trace_shape |].
    cbn. rewrite !requests_app, !commands_app, !temporaries_app. cbn.
    rewrite !requests_app, !commands_app, !temporaries_app, Hrq, Hcmd, Hc4, Htmp, Htmp4. cbn.
    rewrite !app_nil_r.
    split; [lia |]. split; [lia |].
    left. split; [reflexivity |]. split; [rewrite Hf4; set_solver |].
    eexists mp3File, transcription, _.
    split; [reflexivity |].
    split; [rewrite !written_app; cbn; rewrite !written_app, Hw4, Hwr; reflexivity |].
    rewrite Hr4. split; reflexivity.
  - eexists (_ :: _ :: evs4 ++ _ :: evs ++ [_]). cbn [after trace files]. rewrite Ht4.
    split; [trace_shape |].
    cbn. rewrite !requests_app, !commands_app, !written_app, !opened_app, !temporaries_app.
    cbn.
    rewrite !requests_app, !commands_app, !written_app, !opened_app, !temporaries_app,
      Hrq, Hwr, Hcmd, Hc4, Hw4, Hop, Hop4, Htmp, Htmp4. cbn.
    rewrite !app_nil_r.
    split; [lia |]. split; [lia |].
    right. split; [reflexivity |].
    split; [intros ? [<- | []]; split; [left; reflexivity | rewrite Hf4; set_solver] |].
    eexists _, e, _. split; [reflexivity |].
    split; [| right; split; reflexivity]. simpl. tauto.
Qed.


(** X10.  The temporary MP3 of the program of [src/main.go].  [main] defers its
    removal, and leaves through [os.Exit(1)] on every failure, which runs no
    deferred call.  So: after exit code 0 no temporary file of the run is
    left; after exit code 1, if the run got as far as opening the MP3 for the
    service, the MP3 is a temporary file of the run and is still there. *)
Theorem simple_main_temporary (env : Env) (prog videoFile : string)
    (rest : list string) (w : World) :
  let '(code, w') := Simple.main env (prog :: videoFile :: rest) w in
  (code = 0 \/ code = 1)
  /\ exists evs,
       trace w' = evs ++ trace w
       /\ (code = 0 -> files w' = files w ∖ list_to_set (temporaries evs))
       /\ (code = 1 ->
           forall mp3File, In mp3File (opened evs) ->
             In mp3File (temporaries evs) /\ mp3File ∈ files w').
Proof.
  pose proof (Simple_main_effects env prog videoFile rest w) as H.
  destruct (Simple.main env (prog :: videoFile :: rest) w) as [code w'].
  cbv zeta in *. destruct H as (evs & Ht & _ & _ & Hcases).
  destruct Hcases as [(-> & Hf & _) | (-> & Hleak & _)].
  - split; [left; reflexivity |]. exists evs. split; [exact Ht |].
    split; [intros _; exact Hf | discriminate].
  - split; [right; reflexivity |]. exists evs. split; [exact Ht |].
    split; [discriminate | intros _; exact Hleak].
Qed.

(** A run where the service answers 500: exit code 1, nothing written, and
    the temporary MP3 is left behind. *)
Example simple_main_service_error :
  let '(code, w') :=
    Simple.main (Demo.env 0 (scripted [Response 500 "overloaded"]))
      ["transcribe"; "video.mp4"] Demo.w0 in
  code = 1
  /\ hd_error (trace w')
     = Some (EvStdout ("Error transcribing audio: "
                         +:+ "API request failed with status 500: overloaded"
                         +:+ newline))
  /\ written (trace w') = []
  /\ elements (files w') = temporaries (trace w')
  /\ length (temporaries (trace w')) = 1%nat.
Proof. vm_compute. repeat split. Qed.

(** ** The asynchronous program *)




(** ** The loop over the chunks *)

Lemma transcribeLoop_sequence env apiKey total chunks :
  forall i st w r w',
    Chunked.transcribeLoop env apiKey total i chunks st w = (r, w') ->
    exists evs,
      trace w' = evs ++ trace w
      /\ written evs = [] /\ sleeps evs = []
      /\ match r with
         | Ok _ =>
             opened evs = rev chunks
             /\ requests evs = rev (map (chunkRequest apiKey) chunks)
         | Err msg =>
             exists (k : nat) (e : string),
               (k < length chunks)%nat
               /\ msg = "failed to transcribe chunk " +:+ fmt_d (i + Z.of_nat k)
                          +:+ ": " +:+ e
               /\ opened evs = rev (take (S k) chunks)
               /\ (requests evs = rev (map (chunkRequest apiKey) (take k chunks))
                   \/ requests evs = rev (map (chunkRequest apiKey) (take (S k) chunks)))
         end.
Proof.
  induction chunks as [|chunk rest IH]; intros i st w r w' Hrun.
  - injection Hrun as <- <-. exists []. repeat split.
  - rewrite transcribeLoop_turn in Hrun. cbv zeta in Hrun.
    unfold Chunked.transcribeAudio in Hrun.
    match type of Hrun with
    | context [transcribeAudioWith ?f env chunk apiKey ?w1] =>
        pose proof (transcribeAudioWith_trace f env chunk apiKey w1) as Heff;
        destruct (transcribeAudioWith f env chunk apiKey w1) as [[t | e] w2]
    end;
      cbn [after files trace] in Heff;
      destruct Heff as (Hf & evs & Ht & Hop & Hc & Htmp & Hw & Hs & Hrq);
      fold (chunkRequest apiKey chunk) in Hrq.
    + apply IH in Hrun. destruct Hrun as (evs' & Ht' & Hw' & Hs' & Hr).
      eexists (evs' ++ evs ++ [_]).
      split; [rewrite Ht', Ht, <- !app_assoc; reflexivity |].
      rewrite !written_app, !sleeps_app, Hw, Hw', Hs, Hs'.
      split; [reflexivity |]. split; [reflexivity |].
      rewrite !opened_app, !requests_app, Hop, Hrq. cbn [opened requests flat_map app].
      rewrite ?app_nil_r.
      destruct r as [st' | msg].
      * destruct Hr as (-> & ->). cbn [rev map]. split; reflexivity.
      * destruct Hr as (k & e & Hk & -> & -> & Hrq').
        exists (S k), e. split; [simpl; lia |].
        split; [do 3 f_equal; lia |].
        cbn [take rev map]. split; [reflexivity |].
        destruct Hrq' as [-> | ->]; [left | right]; reflexivity.
    + injection Hrun as <- <-.
      eexists (evs ++ [_]).
      split; [rewrite Ht, <- !app_assoc; reflexivity |].
      rewrite !written_app, !sleeps_app, Hw, Hs.
      split; [reflexivity |]. split; [reflexivity |].
      exists 0%nat, e. split; [simpl; lia |].
      split; [do 3 f_equal; lia |].
      rewrite !opened_app, !requests_app, Hop. cbn. rewrite !app_nil_r.
      split; [reflexivity |].
      destruct Hrq as [-> | ->]; [left | right]; reflexivity.
Qed.

(** X12.  The chunks are transcribed one after the other, in order.  When every
    chunk succeeds, each was opened once and sent once, in that order.  The
    first failure ends the loop: no later chunk is opened or sent, and the
    error names the index of the failed chunk, counted from 0 (the progress
    line counts from 1). *)
Theorem chunks_in_order (env : Env) (apiKey : string) (total : nat) (i : Z)
    (chunks : list string) (st : Chunked.MergeState) (w : World) :
  let '(r, w') := Chunked.transcribeLoop env apiKey total i chunks st w in
  exists evs,
    trace w' = evs ++ trace w
    /\ match r with
       | Ok _ =>
           opened evs = rev chunks
           /\ requests evs = rev (map (chunkRequest apiKey) chunks)
       | Err msg =>
           exists (k : nat) (e : string),
             (k < length chunks)%nat
             /\ msg = "failed to transcribe chunk " +:+ fmt_d (i + Z.of_nat k)
                        +:+ ": " +:+ e
             /\ opened evs = rev (take (S k) chunks)
             /\ (requests evs = rev (map (chunkRequest apiKey) (take k chunks))
                 \/ requests evs = rev (map (chunkRequest apiKey) (take (S k) chunks)))
       end.
Proof.
  destruct (Chunked.transcribeLoop env apiKey total i chunks st w) as [r w'] eqn:Hrun.
  destruct (transcribeLoop_sequence env apiKey total chunks i st w r w' Hrun)
    as (evs & Ht & _ & _ & Hr).
  exists evs. split; assumption.
Qed.

(** ** The chunked program *)

(** The files whose duration was measured. *)
Definition probed (evs : list Event) : list string :=
  flat_map (fun ev => match ev with
                      | EvRun (FFprobeDuration audioFile) => [audioFile]
                      | _ => []
                      end) evs.

Lemma probed_app (evs evs' : list Event) :
  probed (evs ++ evs') = probed evs ++ probed evs'.
Proof. apply flat_map_app. Qed.

Lemma written_removals (l : list string) : written (map EvRemove l) = [].
Proof. induction l as [|x l IH]; [reflexivity | exact IH]. Qed.

Lemma probed_removals (l : list string) : probed (map EvRemove l) = [].
Proof. induction l as [|x l IH]; [reflexivity | exact IH]. Qed.

Lemma requests_removals (l : list string) : requests (map EvRemove l) = [].
Proof. induction l as [|x l IH]; [reflexivity | exact IH]. Qed.

Lemma opened_removals (l : list string) : opened (map EvRemove l) = [].
Proof. induction l as [|x l IH]; [reflexivity | exact IH]. Qed.

(** The split writes no output and measures nothing. *)
Lemma splitLoop_quiet env audioFile cd todo :
  forall i chunks w r w',
    Chunked.splitLoop env audioFile cd todo i chunks w = (r, w') ->
    exists evs,
      trace w' = evs ++ trace w
      /\ written evs = [] /\ probed evs = [] /\ requests evs = [] /\ opened evs = [].
Proof.
  induction todo as [|todo IH]; intros i chunks w r w' Hrun.
  - injection Hrun as <- <-. exists []. repeat split.
  - rewrite splitLoop_turn in Hrun. cbv zeta in Hrun.
    destruct (create_temp env (trace w) ("chunk-" +:+ fmt_d i +:+ "-*.mp3"))
      as [chunkPath | e].
    + destruct (run_error _) as [e |] in Hrun.
      * injection Hrun as <- <-. cbn [files trace].
        eexists (map EvRemove (rev chunks) ++ [_; _; _]).
        split; [rewrite <- app_assoc; reflexivity |].
        rewrite written_app, probed_app, requests_app, opened_app, written_removals,
          probed_removals, requests_removals, opened_removals.
        repeat split.
      * apply IH in Hrun. destruct Hrun as (evs & Ht & Hw & Hp & Hrq & Hop).
        cbn [after files trace] in Ht.
        eexists (evs ++ [_; _]).
        split; [rewrite Ht, <- app_assoc; reflexivity |].
        rewrite written_app, probed_app, requests_app, opened_app, Hw, Hp, Hrq, Hop.
        repeat split.
    + injection Hrun as <- <-. cbn [files trace].
      eexists (map EvRemove (rev chunks) ++ [_]).
      split; [rewrite <- app_assoc; reflexivity |].
      rewrite written_app, probed_app, requests_app, opened_app, written_removals,
        probed_removals, requests_removals, opened_removals.
      repeat split.
Qed.

Lemma probed_commands (evs : list Event) :
  probed evs
  = flat_map (fun cmd => match cmd with
                         | FFprobeDuration audioFile => [audioFile]
                         | _ => []
                         end) (commands evs).
Proof.
  induction evs as [|ev evs IH]; [reflexivity |].
  destruct ev as [| | | cmd | | | | |]; cbn; try exact IH.
  fold (probed evs). fold (commands evs). rewrite IH. destruct cmd; reflexivity.
Qed.

Lemma probed_no_command (evs : list Event) : commands evs = [] -> probed evs = [].
Proof. intros H. rewrite probed_commands, H. reflexivity. Qed.

(** What a call of [transcribeAudioInChunks] does and leaves. *)
Lemma transcribeAudioInChunks_effects env audioFile apiKey duration w :
  let '(r, w') := Chunked.transcribeAudioInChunks env audioFile apiKey duration w in
  exists evs,
    trace w' = evs ++ trace w
    /\ files w' = files w ∖ list_to_set (temporaries evs)
    /\ written evs = []
    /\ probed evs = [audioFile].
Proof.
  rewrite transcribeAudioInChunks_run.
  unfold Chunked.splitAudioIntoChunks, bind.
  rewrite getAudioDuration_run. cbv zeta.
  destruct (run_error _) as [e |].
  { exists [EvRun (FFprobeDuration audioFile)]. cbn.
    split; [reflexivity |]. split; [set_solver |]. split; reflexivity. }
  destruct (Sscanf_f env _) as [measured | e].
  2: { exists [EvRun (FFprobeDuration audioFile)]. cbn.
       split; [reflexivity |]. split; [set_solver |]. split; reflexivity. }
  unfold Chunked.splitChunks.
  destruct (Chunked.splitLoop env audioFile Chunked.chunkDuration _ 0 [] _)
    as [[chunks | e] w1] eqn:Hsplit;
    pose proof (splitLoop_quiet _ _ _ _ _ _ _ _ _ Hsplit) as (evs1' & Ht1' & Hw1 & Hp1 & _ & _);
    apply splitLoop_effects in Hsplit; destruct Hsplit as (evs1 & Ht1 & Hr1);
    rewrite Ht1 in Ht1'; apply new_events_unique in Ht1'; subst evs1';
    cbn [after files trace] in Ht1, Hr1.
  - destruct Hr1 as (new & Hnew & _ & Htemps & _ & Hfiles). simpl in Hnew. subst new.
    cbv zeta.
    destruct (Chunked.transcribeLoop env apiKey (length chunks) 0 chunks _ _)
      as [r w3] eqn:Hloop.
    pose proof (transcribeLoop_sequence _ _ _ _ _ _ _ _ _ Hloop) as (evs3' & Ht3' & Hw3 & _).
    apply transcribeLoop_effects in Hloop.
    destruct Hloop as (Hf3 & (evs3 & Ht3 & Htmp3 & Hc3) & _).
    rewrite Ht3 in Ht3'. apply new_events_unique in Ht3'. subst evs3'.
    cbn [after files trace] in Hf3, Ht3.
    exists (map EvRemove (rev chunks) ++ evs3
              ++ [EvStdout ("Split into " +:+ fmt_d (Z.of_nat (length chunks))
                              +:+ " chunks" +:+ newline)]
              ++ evs1 ++ [EvRun (FFprobeDuration audioFile)]).
    cbn [files trace].
    split; [rewrite Ht3, Ht1, <- !app_assoc; reflexivity |].
    rewrite !temporaries_app, !written_app, !probed_app, temporaries_removals,
      written_removals, probed_removals, Htmp3, Htemps, Hw3, Hw1, Hp1,
      (probed_no_command evs3 Hc3).
    cbn. rewrite app_nil_r.
    split; [rewrite Hf3, Hfiles, list_to_set_rev; set_solver |].
    split; reflexivity.
  - exists (evs1 ++ [EvRun (FFprobeDuration audioFile)]).
    split; [rewrite Ht1, <- app_assoc; reflexivity |].
    rewrite temporaries_app, written_app, probed_app, Hw1, Hp1. cbn. rewrite app_nil_r.
    split; [rewrite Hr1; set_solver |]. split; reflexivity.
Qed.

(** X13.  The chunked transcription works in three phases.  It first measures the
    file and cuts every chunk, and opens or sends nothing while it does; then
    it transcribes, and runs no command and creates no file while it does;
    the removal of the chunks it was given comes last.  So every chunk file
    is on disk before the first request is sent. *)
Theorem chunks_cut_before_sent (env : Env) (audioFile apiKey : string)
    (duration : Q) (w : World) :
  let '(r, w') := Chunked.transcribeAudioInChunks env audioFile apiKey duration w in
  exists removed sending cutting,
    trace w' = map EvRemove removed ++ sending ++ cutting ++ trace w
    /\ requests cutting = [] /\ opened cutting = []
    /\ commands sending = [] /\ temporaries sending = []
    /\ (sending = [] \/ list_to_set removed = (list_to_set (temporaries cutting) : gset string)).
Proof.
  rewrite transcribeAudioInChunks_run.
  unfold Chunked.splitAudioIntoChunks, bind.
  rewrite getAudioDuration_run. cbv zeta.
  destruct (run_error _) as [e |].
  { exists [], [], [EvRun (FFprobeDuration audioFile)]. cbn.
    repeat split. left. reflexivity. }
  destruct (Sscanf_f env _) as [measured | e].
  2: { exists [], [], [EvRun (FFprobeDuration audioFile)]. cbn.
       repeat split. left. reflexivity. }
  unfold Chunked.splitChunks.
  destruct (Chunked.splitLoop env audioFile Chunked.chunkDuration _ 0 [] _)
    as [[chunks | e] w1] eqn:Hsplit;
    pose proof (splitLoop_quiet _ _ _ _ _ _ _ _ _ Hsplit)
      as (evs1' & Ht1' & _ & _ & Hrq1 & Hop1);
    apply splitLoop_effects in Hsplit; destruct Hsplit as (evs1 & Ht1 & Hr1);
    rewrite Ht1 in Ht1'; apply new_events_unique in Ht1'; subst evs1';
    cbn [after files trace] in Ht1, Hr1.
  - destruct Hr1 as (new & Hnew & _ & Htemps & _ & _). simpl in Hnew. subst new.
    cbv zeta.
    destruct (Chunked.transcribeLoop env apiKey (length chunks) 0 chunks _ _)
      as [r w3] eqn:Hloop.
    apply transcribeLoop_effects in Hloop.
    destruct Hloop as (_ & (evs3 & Ht3 & Htmp3 & Hc3) & _).
    cbn [after files trace] in Ht3.
    exists (rev chunks),
      (evs3 ++ [EvStdout ("Split into " +:+ fmt_d (Z.of_nat (length chunks))
                            +:+ " chunks" +:+ newline)]),
      (evs1 ++ [EvRun (FFprobeDuration audioFile)]).
    cbn [files trace].
    split; [rewrite Ht3, Ht1, <- !app_assoc; reflexivity |].
    rewrite !requests_app, !opened_app, !commands_app, !temporaries_app,
      Hrq1, Hop1, Hc3, Htmp3, Htemps.
    cbn. rewrite app_nil_r.
    repeat split. right. reflexivity.
  - exists [], [], (evs1 ++ [EvRun (FFprobeDuration audioFile)]).
    split; [rewrite Ht1, <- app_assoc; reflexivity |].
    rewrite !requests_app, !opened_app, Hrq1, Hop1. cbn.
    repeat split. left. reflexivity.
Qed.

(** [main] of the chunked program with a video file, spelled out. *)
Lemma Chunked_main_run env prog videoFile rest w :
  Chunked.main env (prog :: videoFile :: rest) w
  = match godotenv_Load env with
    | Err e => (1, after (EvStdout ("Error loading .env file: " +:+ e +:+ newline)) w)
    | Ok _ =>
        match convertToMP3 env videoFile
                (after (EvStdout ("Converting video to MP3..." +:+ newline)) w) with
        | (Err e, w2) =>
            (1, after (EvStdout ("Error converting video: " +:+ e +:+ newline)) w2)
        | (Ok mp3File, w2) =>
            match Chunked.getAudioDuration env mp3File w2 with
            | (Err e, w3) =>
                (1, after (EvStdout ("Error getting audio duration: " +:+ e +:+ newline)) w3)
            | (Ok duration, w3) =>
                match Chunked.transcribeByDuration env mp3File
                        (os_Getenv env "OPENAI_API_KEY") duration w3 with
                | (Err e, w4) =>
                    (1, after (EvStdout ("Error transcribing audio: " +:+ e +:+ newline)) w4)
                | (Ok transcription, w4) =>
                    let outputFile := trim_ext env videoFile +:+ ".txt" in
                    let content := Chunked.renderTranscription transcription in
                    let w5 := after (EvWriteFile outputFile content) w4 in
                    match write_file env (trace w4) outputFile content with
                    | Err e =>
                        (1, after (EvStdout ("Error saving transcription: " +:+ e
                                               +:+ newline)) w5)
                    | Ok _ =>
                        (0, {| files := files w4 ∖ {[mp3File]};
                               trace := EvRemove mp3File
                                          :: EvStdout ("Transcription saved to: "
                                                         +:+ outputFile +:+ newline)
                                          :: trace w5 |})
                    end
                end
            end
        end
    end.
Proof.
  unfold Chunked.main, process.
  unfold bind at 1. unfold orExit at 1.
  destruct (godotenv_Load env) as [[] | e]; [| reflexivity].
  unfold ret at 1. unfold bind at 1. unfold Println at 1, emit at 1.
  fold (after (EvStdout ("Converting video to MP3..." +:+ newline)) w).
  unfold bind at 1. unfold orExit at 1.
  destruct (convertToMP3 env videoFile _) as [[mp3File | e] w2]; [| reflexivity].
  unfold bind at 1. unfold orExit at 1.
  destruct (Chunked.getAudioDuration env mp3File w2) as [[duration | e] w3];
    [| reflexivity].
  cbv zeta. unfold bind at 1. unfold orExit at 1.
  destruct (Chunked.transcribeByDuration env mp3File _ duration w3)
    as [[transcription | e] w4]; [| reflexivity].
  unfold bind at 1. unfold orExit at 1.
  unfold Chunked.saveTranscription, os_WriteFile, bind, ask, emit, ret, fail, Print, emit,
    os_Remove, after.
  cbn [fst snd files trace].
  destruct (write_file env (trace w4) _ _) as [[] | e]; reflexivity.
Qed.

(** The transcription by duration removes every temporary file it creates,
    writes no output, and measures the file again only on the chunked
    path. *)
Lemma transcribeByDuration_effects env mp3File apiKey duration w :
  let '(r, w') := Chunked.transcribeByDuration env mp3File apiKey duration w in
  exists evs,
    trace w' = evs ++ trace w
    /\ files w' = files w ∖ list_to_set (temporaries evs)
    /\ written evs = []
    /\ (probed evs = [] \/ probed evs = [mp3File]).
Proof.
  unfold Chunked.transcribeByDuration.
  destruct (Qle_bool duration (inject_Z Chunked.maxDuration)).
  - unfold bind at 1. unfold Println, emit. unfold Chunked.transcribeAudio.
    match goal with
    | |- context [transcribeAudioWith ?f env mp3File apiKey ?w1] =>
        pose proof (transcribeAudioWith_trace f env mp3File apiKey w1) as Heff;
        destruct (transcribeAudioWith f env mp3File apiKey w1) as [r w']
    end.
    cbn [files trace] in Heff.
    destruct Heff as (Hf & evs & Ht & Hop & Hc & Htmp & Hw & Hs & Hrq).
    eexists (evs ++ [_]).
    split; [rewrite Ht, <- app_assoc; reflexivity |].
    rewrite temporaries_app, written_app, probed_app, Htmp, Hw, (probed_no_command evs Hc).
    cbn. split; [rewrite Hf; set_solver |]. split; [reflexivity | left; reflexivity].
  - unfold bind at 1. unfold Print, emit.
    match goal with
    | |- context [Chunked.transcribeAudioInChunks env mp3File apiKey duration ?w1] =>
        pose proof (transcribeAudioInChunks_effects env mp3File apiKey duration w1) as Heff;
        destruct (Chunked.transcribeAudioInChunks env mp3File apiKey duration w1) as [r w']
    end.
    cbn [files trace] in Heff.
    destruct Heff as (evs & Ht & Hf & Hw & Hp).
    eexists (evs ++ [_]).
    split; [rewrite Ht, <- app_assoc; reflexivity |].
    rewrite temporaries_app, written_app, probed_app, Hw, Hp.
    cbn. rewrite app_nil_r. split; [exact Hf |]. split; [reflexivity | right; reflexivity].
Qed.

(** The lines the chunked [main] prints before [os.Exit(1)]. *)
Definition chunkedDiagnostics : list string :=
  ["Error loading .env file: "; "Error converting video: ";
   "Error getting audio duration: "; "Error transcribing audio: ";
   "Error saving transcription: "].

(** X14.  The exit of the chunked program.  It exits with 0 only after it wrote
    the one output file; then no temporary file of the run is left, neither
    the MP3 nor a chunk, and the MP3 was measured once, or twice when it was
    split (the split measures it again).  It exits with 1 right after a line
    that names the failed step; nothing was written then, unless the writing
    failed.  If the MP3 had been measured by then, the chunk files are
    removed all the same, but the MP3, the first temporary file of the run,
    is left behind: [os.Exit] runs no deferred call. *)
Theorem chunked_main_exit (env : Env) (prog videoFile : string) (rest : list string)
    (w : World) :
  let '(code, w') := Chunked.main env (prog :: videoFile :: rest) w in
  let outputFile := trim_ext env videoFile +:+ ".txt" in
  exists evs,
    trace w' = evs ++ trace w
    /\ ((code = 0
         /\ files w' = files w ∖ list_to_set (temporaries evs)
         /\ exists mp3File transcription before,
              evs = EvRemove mp3File
                      :: EvStdout ("Transcription saved to: " +:+ outputFile +:+ newline)
                      :: EvWriteFile outputFile (Chunked.renderTranscription transcription)
                      :: before
              /\ written before = []
              /\ (probed evs = [mp3File] \/ probed evs = [mp3File; mp3File]))
        \/ (code = 1
            /\ (forall mp3File, In mp3File (probed evs) ->
                  exists chunkFiles,
                    temporaries evs = chunkFiles ++ [mp3File]
                    /\ files w' = ({[mp3File]} ∪ files w) ∖ list_to_set chunkFiles)
            /\ exists what e before,
                 evs = EvStdout (what +:+ e +:+ newline) :: before
                 /\ In what chunkedDiagnostics
                 /\ (written evs = []
                     \/ what = "Error saving transcription: "
                        /\ written evs = [outputFile]))).
Proof.
  rewrite Chunked_main_run. unfold chunkedDiagnostics.
  destruct (godotenv_Load env) as [[] | e].
  2: { eexists [_]. split; [reflexivity |].
       right. split; [reflexivity |]. split; [intros ? [] |].
       eexists _, e, []. split; [reflexivity |].
       split; [| left; reflexivity]. simpl. tauto. }
  set (w1 := after _ w).
  pose proof (convertToMP3_effects env videoFile w1) as Hconv.
  destruct (convertToMP3 env videoFile w1) as [[mp3File | e] w2].
  2: { destruct Hconv as (evs & Ht & Hrq & Hwr & Hop & Hsl & _ & Hf & Hcases).
       eexists (_ :: evs ++ [_]). cbn [after trace]. rewrite Ht. unfold w1. cbn [after trace].
       split; [trace_shape |].
       right. split; [reflexivity |].
       split.
       { intros mp3File Hin. exfalso. cbn in Hin. rewrite probed_app in Hin. cbn in Hin.
         rewrite app_nil_r in Hin.
         destruct Hcases as [(Hc & _) | (p & ? & ? & Hc & _)].
         - rewrite (probed_no_command evs Hc) in Hin. exact Hin.
         - rewrite probed_commands, Hc in Hin. exact Hin. }
       eexists _, e, _. split; [reflexivity |].
       split; [simpl; tauto |]. left.
       cbn. rewrite written_app, Hwr. reflexivity. }
  destruct Hconv as (evs & Ht & Hrq & Hwr & Hop & Hsl & _ & Htmp & Hcmd & Hf).
  assert (Hpr : probed evs = []).
  { rewrite probed_commands, Hcmd. reflexivity. }
  rewrite getAudioDuration_run. cbv zeta.
  set (w3 := after (EvRun (FFprobeDuration mp3File)) w2).
  assert (Hearly : forall (what e : string),
             In what ["Error loading .env file: "; "Error converting video: ";
                      "Error getting audio duration: "; "Error transcribing audio: ";
                      "Error saving transcription: "] ->
             exists evs0,
               trace (after (EvStdout (what +:+ e +:+ newline)) w3) = evs0 ++ trace w
               /\ (forall mp3File',
                     In mp3File' (probed evs0) ->
                     exists chunkFiles,
                       temporaries evs0 = chunkFiles ++ [mp3File']
                       /\ files (after (EvStdout (what +:+ e +:+ newline)) w3)
                          = ({[mp3File']} ∪ files w) ∖ list_to_set chunkFiles)
               /\ exists what' e' before,
                    evs0 = EvStdout (what' +:+ e' +:+ newline) :: before
                    /\ In what' ["Error loading .env file: "; "Error converting video: ";
                                 "Error getting audio duration: ";
                                 "Error transcribing audio: ";
                                 "Error saving transcription: "]
                    /\ (written evs0 = []
                        \/ what' = "Error saving transcription: "
                           /\ written evs0 = [trim_ext env videoFile +:+ ".txt"])).
  { intros what e Hin.
    eexists (_ :: _ :: evs ++ [_]). unfold w3. cbn [after trace files]. rewrite Ht.
    unfold w1. cbn [after trace].
    split; [trace_shape |].
    split.
    - intros mp3File'. cbn. rewrite probed_app, temporaries_app, Hpr, Htmp. cbn.
      intros [<- | []]. exists []. split; [reflexivity |].
      rewrite Hf. unfold w1. cbn. set_solver.
    - eexists what, e, _. split; [reflexivity |]. split; [exact Hin |].
      left. cbn. rewrite written_app, Hwr. reflexivity. }
  destruct (run_error _) as [e |].
  { destruct (Hearly "Error getting audio duration: " ("ffprobe failed: " +:+ e))
      as (evs0 & H); [simpl; tauto |].
    exists evs0. destruct H as (Ht0 & Hleak & Hshape).
    split; [exact Ht0 |]. right. split; [reflexivity |]. split; assumption. }
  destruct (Sscanf_f env _) as [duration | e].
  2: { destruct (Hearly "Error getting audio duration: " ("failed to parse duration: " +:+ e))
         as (evs0 & H); [simpl; tauto |].
       exists evs0. destruct H as (Ht0 & Hleak & Hshape).
       split; [exact Ht0 |]. right. split; [reflexivity |]. split; assumption. }
  clear Hearly.
  pose proof (transcribeByDuration_effects env mp3File (os_Getenv env "OPENAI_API_KEY")
                duration w3) as Htr.
  destruct (Chunked.transcribeByDuration env mp3File _ duration w3) as [r w4].
  destruct Htr as (evs4 & Ht4 & Hf4 & Hw4 & Hp4).
  unfold w3 in Ht4, Hf4. cbn [after trace files] in Ht4, Hf4.
  rewrite Ht in Ht4. rewrite Hf in Hf4. unfold w1 in Ht4, Hf4.
  cbn [after trace files] in Ht4, Hf4.
  assert (Hall : forall head : list Event,
             temporaries head = [] -> probed head = [] ->
             let evs0 := head ++ evs4 ++ EvRun (FFprobeDuration mp3File)
                           :: evs ++ [EvStdout ("Converting video to MP3..." +:+ newline)] in
             temporaries evs0 = temporaries evs4 ++ [mp3File]
             /\ (probed evs0 = [mp3File] \/ probed evs0 = [mp3File; mp3File])
             /\ written evs0 = written head).
  { intros head Hh1 Hh2 evs0. unfold evs0.
    rewrite !temporaries_app, !probed_app, !written_app, Hh1, Hh2. cbn.
    rewrite !temporaries_app, !probed_app, !written_app, Htmp, Hpr, Hwr, Hw4. cbn.
    rewrite !app_nil_r.
    split; [reflexivity |]. split; [| reflexivity].
    destruct Hp4 as [-> | ->]; [left | right]; reflexivity. }
  destruct r as [transcription | e].
  - cbv zeta. destruct (write_file env (trace w4) _ _) as [[] | e].
    + eexists ([_; _; _] ++ evs4 ++ _ :: evs ++ [_]).
      cbn [after trace files]. rewrite Ht4.
      split; [trace_shape |].
      left. split; [reflexivity |].
      destruct (Hall [EvRemove mp3File;
                      EvStdout ("Transcription saved to: " +:+ (trim_ext env videoFile +:+ ".txt")
                                  +:+ newline);
                      EvWriteFile (trim_ext env videoFile +:+ ".txt")
                        (Chunked.renderTranscription transcription)]
                  eq_refl eq_refl) as (Htemps & Hprobed & _).
      split.
      * rewrite Htemps, Hf4, list_to_set_app_L. cbn. set_solver.
      * eexists mp3File, transcription, _. split; [reflexivity |].
        split; [| exact Hprobed].
        destruct (Hall [] eq_refl eq_refl) as (_ & _ & Hwritten). exact Hwritten.
    + eexists ([_; _] ++ evs4 ++ _ :: evs ++ [_]).
      cbn [after trace files]. rewrite Ht4.
      split; [trace_shape |].
      right. split; [reflexivity |].
      destruct (Hall [EvStdout ("Error saving transcription: " +:+ e +:+ newline);
                      EvWriteFile (trim_ext env videoFile +:+ ".txt")
                        (Chunked.renderTranscription transcription)]
                  eq_refl eq_refl) as (Htemps & Hprobed & Hwritten).
      split.
      * intros mp3File' Hin. exists (temporaries evs4).
        assert (mp3File' = mp3File) as ->.
        { destruct Hprobed as [Hp | Hp]; rewrite Hp in Hin; simpl in Hin;
            intuition congruence. }
        split; [exact Htemps | exact Hf4].
      * eexists _, e, _. split; [reflexivity |].
        split; [simpl; tauto |]. right. split; [reflexivity | exact Hwritten].
  - eexists ([_] ++ evs4 ++ _ :: evs ++ [_]).
    cbn [after trace files]. rewrite Ht4.
    split; [trace_shape |].
    right. split; [reflexivity |].
    destruct (Hall [EvStdout ("Error transcribing audio: " +:+ e +:+ newline)]
                eq_refl eq_refl) as (Htemps & Hprobed & Hwritten).
    split.
    * intros mp3File' Hin. exists (temporaries evs4).
      assert (mp3File' = mp3File) as ->.
      { destruct Hprobed as [Hp | Hp]; rewrite Hp in Hin; simpl in Hin;
          intuition congruence. }
      split; [exact Htemps | exact Hf4].
    * eexists _, e, _. split; [reflexivity |].
      split; [simpl; tauto |]. left. exact Hwritten.
Qed.


(** ** Without a video file *)

(** X15.  With no argument after the program name, each of the three programs
    prints the usage line and exits with 1; it reads no environment, touches
    no file, runs no command and sends nothing. *)
Theorem usage_without_argument (env : Env) (polls : nat) (args : list string)
    (w : World) :
  (length args < 2)%nat ->
  let w' := after (EvStdout ("Usage: transcribe <video-file>" +:+ newline)) w in
  Simple.main env args w = (1, w')
  /\ Chunked.main env args w = (1, w')
  /\ Async.main env polls args w = (Some 1, w').
Proof.
  intros Hlen. destruct args as [|prog [|videoFile rest]]; simpl in Hlen; try lia;
    repeat split; reflexivity.
Qed.

Lemma usage_without_argument_witness :
  Simple.main (Demo.env 0 (scripted [])) ["transcribe"] Demo.w0
  = (1, after (EvStdout ("Usage: transcribe <video-file>" +:+ newline)) Demo.w0).
Proof.
  apply (usage_without_argument (Demo.env 0 (scripted [])) 0 ["transcribe"] Demo.w0).
  simpl. lia.
Defined.

(** ** The split, for any chunk length *)

(** The patterns of the temporary files asked for. *)
Definition patterns (evs : list Event) : list string :=
  flat_map (fun ev => match ev with EvCreateTemp pattern _ => [pattern] | _ => [] end) evs.

Lemma patterns_app (evs evs' : list Event) :
  patterns (evs ++ evs') = patterns evs ++ patterns evs'.
Proof. apply flat_map_app. Qed.

(** The pattern of chunk [i]: [fmt.Sprintf("chunk-%d-*.mp3", i)]. *)
Definition chunkPattern (i : Z) : string := "chunk-" +:+ fmt_d i +:+ "-*.mp3".

Lemma splitLoop_patterns env audioFile cd todo :
  forall i chunks w chunks' w',
    Chunked.splitLoop env audioFile cd todo i chunks w = (Ok chunks', w') ->
    exists evs,
      trace w' = evs ++ trace w
      /\ patterns evs = rev (map chunkPattern (seqZ i (Z.of_nat todo))).
Proof.
  induction todo as [|todo IH]; intros i chunks w chunks' w' Hrun.
  - injection Hrun as <- <-. exists []. split; reflexivity.
  - rewrite splitLoop_turn in Hrun. cbv zeta in Hrun.
    fold (chunkPattern i) in Hrun.
    destruct (create_temp env (trace w) (chunkPattern i)) as [chunkPath | e];
      [| discriminate].
    destruct (run_error _) as [e |] in Hrun; [discriminate |].
    apply IH in Hrun. destruct Hrun as (evs & Ht & Hp).
    cbn [after files trace] in Ht.
    eexists (evs ++ [_; _]).
    split; [rewrite Ht, <- app_assoc; reflexivity |].
    rewrite patterns_app, Hp. cbn [patterns flat_map app].
    rewrite (seqZ_cons i (Z.of_nat (S todo))) by lia.
    cbn [map rev]. do 4 f_equal. lia.
Qed.

Lemma numChunksOf_floor (duration : Q) (cd : Z) :
  0 < cd -> (0 <= duration)%Q -> (duration < inject_Z (2 ^ 63))%Q ->
  Chunked.numChunksOf duration cd = Qfloor duration / cd + 1
  /\ 1 <= Chunked.numChunksOf duration cd.
Proof.
  intros Hcd H0 H1. unfold Chunked.numChunksOf.
  rewrite to_int_nonneg by assumption.
  pose proof (Qfloor_nonneg duration H0) as Hf.
  rewrite Z.quot_div_nonneg by lia.
  split; [reflexivity |].
  pose proof (Z.div_pos (Qfloor duration) cd Hf Hcd). lia.
Qed.

(** X17.  [splitAudioIntoChunks] for any positive chunk length.  When it
    returns, the chunks are the temporary files it created, in the order of
    creation; the file of chunk [i] was asked for with the pattern
    [chunk-i-*.mp3] and cut by [ffmpeg -ss i*chunkDuration -t chunkDuration];
    the only other command is the measure of the duration; the files are
    there.  For a measured duration within the range of [int] there are
    [int(duration)/chunkDuration + 1] chunks: at least one, also for an empty
    file. *)
Theorem split_outcome (env : Env) (audioFile : string) (chunkDuration : Z) (w : World) :
  0 < chunkDuration ->
  let '(r, w') := Chunked.splitAudioIntoChunks env audioFile chunkDuration w in
  match r with
  | Err _ => True
  | Ok chunks =>
      exists evs duration,
        trace w' = evs ++ trace w
        /\ Sscanf_f env (TrimSpace (proc_stdout
                                      (run_cmd env (trace w) (FFprobeDuration audioFile))))
           = Ok duration
        /\ temporaries evs = rev chunks
        /\ patterns evs
           = rev (map chunkPattern (seqZ 0 (Z.of_nat (length chunks))))
        /\ commands evs
           = rev (FFprobeDuration audioFile
                    :: extractions audioFile chunkDuration 0 chunks)
        /\ files w' = files w ∪ list_to_set chunks
        /\ ((0 <= duration)%Q -> (duration < inject_Z (2 ^ 63))%Q ->
            Z.of_nat (length chunks) = Qfloor duration / chunkDuration + 1
            /\ (1 <= length chunks)%nat)
  end.
Proof.
  intros Hcd. unfold Chunked.splitAudioIntoChunks, bind.
  rewrite getAudioDuration_run. cbv zeta.
  destruct (run_error _) as [e |]; [exact I |].
  destruct (Sscanf_f env _) as [duration | e] eqn:Hscan; [| exact I].
  unfold Chunked.splitChunks.
  destruct (Chunked.splitLoop env audioFile chunkDuration _ 0 [] _)
    as [[chunks | e] w1] eqn:Hsplit; [| exact I].
  pose proof (splitLoop_patterns _ _ _ _ _ _ _ _ _ Hsplit) as (evs1' & Ht1' & Hpat).
  apply splitLoop_effects in Hsplit. destruct Hsplit as (evs1 & Ht1 & Hr1).
  rewrite Ht1 in Ht1'. apply app_inv_tail in Ht1'. subst evs1'.
  cbn [after files trace] in Ht1, Hr1.
  destruct Hr1 as (new & Hnew & Hlen & Htemps & Hcmds & Hfiles). simpl in Hnew. subst new.
  exists (evs1 ++ [EvRun (FFprobeDuration audioFile)]), duration.
  split; [rewrite Ht1, <- app_assoc; reflexivity |].
  split; [reflexivity |].
  rewrite temporaries_app, patterns_app, commands_app, Htemps, Hpat, Hcmds, Hlen.
  cbn. rewrite !app_nil_r.
  split; [reflexivity |]. split; [reflexivity |]. split; [reflexivity |].
  split; [exact Hfiles |].
  intros H0 H1.
  destruct (numChunksOf_floor duration chunkDuration Hcd H0 H1) as (E & Hpos).
  split; [rewrite Z2Nat.id by lia; exact E | lia].
Qed.

Lemma split_outcome_witness :
  match fst (Chunked.splitAudioIntoChunks (Demo.env (5 # 2) (scripted []))
               "audio.mp3" 1 Demo.w0) with
  | Ok chunks => Z.of_nat (length chunks) = 3
  | Err _ => True
  end.
Proof.
  pose proof (split_outcome (Demo.env (5 # 2) (scripted [])) "audio.mp3" 1 Demo.w0
                ltac:(lia)) as H.
  destruct (Chunked.splitAudioIntoChunks _ _ _ _) as [[chunks | e] w']; cbn [fst];
    [| exact I].
  destruct H as (evs & duration & _ & Hscan & _ & _ & _ & _ & Hcount).
  injection Hscan as <-.
  refine (proj1 (Hcount _ _)); [discriminate | reflexivity].
Defined.

(** Five chunks of one second for a file of four seconds and a half, the
    last one half a second long. *)
Example split_by_the_second :
  let '(r, w') :=
    Chunked.splitAudioIntoChunks (Demo.env (9 # 2) (scripted [])) "audio.mp3" 1 Demo.w0 in
  (exists chunks, r = Ok chunks /\ length chunks = 5%nat)
  /\ planOf (rev (commands (trace w'))) = [(0, 1); (1, 1); (2, 1); (3, 1); (4, 1)]
  /\ rev (patterns (trace w'))
     = ["chunk-0-*.mp3"; "chunk-1-*.mp3"; "chunk-2-*.mp3"; "chunk-3-*.mp3";
        "chunk-4-*.mp3"].
Proof. vm_compute. split; [eexists; split; reflexivity | split; reflexivity]. Qed.

(** ** The number of requests *)

(** X18.  The requests of the chunked program by the duration of the audio.
    When every successful measure of the file reports the same duration,
    within the range of [int], a transcription that succeeds has sent one
    request if the duration is at most 1400 seconds, and
    [int(duration)/1200 + 1] requests, one per chunk, if it is longer. *)
Theorem requests_by_duration (env : Env) (mp3File apiKey : string) (duration : Q)
    (w : World) :
  (0 <= duration)%Q -> (duration < inject_Z (2 ^ 63))%Q ->
  (forall tr measured,
     run_error (run_cmd env tr (FFprobeDuration mp3File)) = None ->
     Sscanf_f env (TrimSpace (proc_stdout (run_cmd env tr (FFprobeDuration mp3File))))
     = Ok measured ->
     measured = duration) ->
  let '(r, w') := Chunked.transcribeByDuration env mp3File apiKey duration w in
  match r with
  | Err _ => True
  | Ok _ =>
      exists evs,
        trace w' = evs ++ trace w
        /\ Z.of_nat (length (requests evs))
           = if Qle_bool duration (inject_Z Chunked.maxDuration) then 1
             else Qfloor duration / Chunked.chunkDuration + 1
  end.
Proof.
  intros H0 H1 Hprobe. unfold Chunked.transcribeByDuration.
  destruct (Qle_bool duration (inject_Z Chunked.maxDuration)).
  - unfold bind at 1. unfold Println, emit. unfold Chunked.transcribeAudio.
    match goal with
    | |- context [transcribeAudioWith ?f env mp3File apiKey ?w1] =>
        pose proof (transcribeAudioWith_trace f env mp3File apiKey w1) as Heff;
        destruct (transcribeAudioWith f env mp3File apiKey w1) as [[t | e] w']
    end; [| exact I].
    cbn [files trace] in Heff.
    destruct Heff as (_ & evs & Ht & _ & _ & _ & _ & _ & Hrq).
    eexists (evs ++ [_]).
    split; [rewrite Ht, <- app_assoc; reflexivity |].
    rewrite requests_app, Hrq. reflexivity.
  - unfold bind at 1. unfold Print, emit.
    rewrite transcribeAudioInChunks_run.
    unfold Chunked.splitAudioIntoChunks, bind.
    rewrite getAudioDuration_run. cbv zeta. cbn [after trace files].
    destruct (run_error _) as [e |] eqn:Hrun; [exact I |].
    destruct (Sscanf_f env _) as [measured | e] eqn:Hscan; [| exact I].
    assert (measured = duration) as -> by (eapply Hprobe; eassumption).
    unfold Chunked.splitChunks.
    destruct (Chunked.splitLoop env mp3File Chunked.chunkDuration _ 0 [] _)
      as [[chunks | e] w1] eqn:Hsplit; [| exact I].
    pose proof (splitLoop_quiet _ _ _ _ _ _ _ _ _ Hsplit)
      as (evs1' & Ht1' & _ & _ & Hrq1 & _).
    apply splitLoop_effects in Hsplit. destruct Hsplit as (evs1 & Ht1 & Hr1).
    rewrite Ht1 in Ht1'. apply new_events_unique in Ht1'. subst evs1'.
    cbn [after files trace] in Ht1, Hr1.
    destruct Hr1 as (new & Hnew & Hlen & _). simpl in Hnew. subst new.
    cbv zeta.
    destruct (Chunked.transcribeLoop env apiKey (length chunks) 0 chunks _ _)
      as [[st | e] w3] eqn:Hloop; [| exact I].
    apply transcribeLoop_sequence in Hloop.
    destruct Hloop as (evs3 & Ht3 & _ & _ & _ & Hrq3).
    cbn [after files trace] in Ht3.
    eexists (map EvRemove (rev chunks) ++ evs3 ++ [_] ++ evs1 ++ [_; _]).
    cbn [trace].
    split; [rewrite Ht3, Ht1, <- !app_assoc; reflexivity |].
    rewrite !requests_app, requests_removals, Hrq3, Hrq1. cbn.
    rewrite app_nil_r, length_rev, length_map, Hlen.
    destruct (numChunksOf_floor duration Chunked.chunkDuration ltac:(reflexivity) H0 H1)
      as (E & Hpos).
    rewrite Z2Nat.id by lia. exact E.
Qed.

Lemma requests_by_duration_witness :
  match Chunked.transcribeByDuration
          (Demo.env (5001 # 2) (scripted [Response 200 "two-segments"]))
          "audio.mp3" "secret" (5001 # 2) Demo.w0 with
  | (Ok _, w') => Z.of_nat (length (requests (trace w'))) = 3
  | (Err _, _) => True
  end.
Proof.
  pose proof (requests_by_duration
                (Demo.env (5001 # 2) (scripted [Response 200 "two-segments"]))
                "audio.mp3" "secret" (5001 # 2) Demo.w0) as H.
  destruct (Chunked.transcribeByDuration _ _ _ _ _) as [[t | e] w']; [| exact I].
  destruct H as (evs & Ht & Hn).
  - discriminate.
  - reflexivity.
  - intros tr measured _ [= <-]. reflexivity.
  - rewrite Ht. change (trace Demo.w0) with (@nil Event). rewrite app_nil_r. exact Hn.
Defined.
